(** * WebSchematics: schematic decoding and geometry merging

    A shallow embedding of [src/webschematics.js] (both copies found in the
    repository) and of the geometry part of [src/renderer.js], with the
    properties of the decoder, the palette resolver, the transform resolver
    and the geometry merger stated over it.

    Conventions of the embedding:
    - a JavaScript number that the code uses as an integer is a [Z];
      [undefined] (and [NaN], where arithmetic on [undefined] produces it)
      is the [None] of an [option];
    - a JavaScript array built by index assignment is a list of optional
      slots, a hole being [None];
    - a [throw] is the [Throw] of the [result] type, carrying the message
      of the [Error];
    - [console.warn]/[console.log] output and the [skippedBlocks] lists that
      only feed it are left out: they never reach a returned value. *)

From Stdlib Require Import ZArith QArith List String Ascii Bool Lia DecimalString.
Import ListNotations.

Local Open Scope string_scope.
Local Open Scope Z_scope.

(** ** JavaScript numbers, arrays and loops *)

(** A number that may be [undefined]/[NaN]. *)
Definition num := option Z.

Definition nadd (a b : num) : num :=
  match a, b with Some x, Some y => Some (x + y) | _, _ => None end.

Definition nmul (a b : num) : num :=
  match a, b with Some x, Some y => Some (x * y) | _, _ => None end.

(** [arr[i]] on a dense array of numbers: [undefined] out of range. *)
Definition js_index {A : Type} (arr : list A) (i : num) : option A :=
  match i with
  | Some k => if k <? 0 then None else nth_error arr (Z.to_nat k)
  | None => None
  end.

(** An array under construction: a slot never assigned is a hole. *)
Definition jsarray (A : Type) := list (option A).

(** [arr[i] = v]: overwrites slot [i], or grows the array, leaving holes,
    when [i] is at or past its length. *)
Fixpoint js_set {A : Type} (i : nat) (v : A) (arr : jsarray A) : jsarray A :=
  match i, arr with
  | O, [] => [Some v]
  | O, _ :: rest => Some v :: rest
  | S j, [] => None :: js_set j v []
  | S j, a :: rest => a :: js_set j v rest
  end.

(** [arr[i]] on such an array. *)
Definition js_get {A : Type} (arr : jsarray A) (i : nat) : option A :=
  match nth_error arr i with
  | Some slot => slot
  | None => None
  end.

(** [for (let i = 0; i < n; i++) body]: the counter runs over [0 .. n-1];
    no iteration when [n] is not positive or is [undefined]. *)
Definition loop_count (n : num) : nat :=
  match n with Some k => Z.to_nat k | None => O end.

Definition for_loop {S : Type} (n : num) (body : nat -> S -> S) (s : S) : S :=
  fold_left (fun acc i => body i acc) (seq 0 (loop_count n)) s.

(** Template-literal rendering of an integer. *)
Definition string_of_Z (n : Z) : string :=
  NilZero.string_of_int (Z.to_int n).

Definition string_of_num (n : num) : string :=
  match n with Some k => string_of_Z k | None => "undefined" end.

(** ** JavaScript string methods, for one-character needles *)

(** [s.indexOf(c)]: position of the first [c], or [-1]. *)
Fixpoint indexOf (c : ascii) (s : string) : Z :=
  match s with
  | EmptyString => -1
  | String a rest =>
      if Ascii.eqb a c then 0
      else let i := indexOf c rest in if i <? 0 then -1 else i + 1
  end.

(** [s.includes(c)]. *)
Definition includes (c : ascii) (s : string) : bool := 0 <=? indexOf c s.

(** [s.substring(a, b)]: both ends clamped to [0 .. length], then swapped
    when out of order. *)
Definition clamp (len i : Z) : Z := Z.max 0 (Z.min i len).

Definition substring (s : string) (a b : Z) : string :=
  let len := Z.of_nat (String.length s) in
  let a' := clamp len a in
  let b' := clamp len b in
  let lo := Z.min a' b' in
  let hi := Z.max a' b' in
  String.substring (Z.to_nat lo) (Z.to_nat (hi - lo)) s.

(** [s.split(c)]: the pieces between the occurrences of [c]; one (empty)
    piece for the empty string. *)
Fixpoint split (c : ascii) (s : string) : list string :=
  match s with
  | EmptyString => [EmptyString]
  | String a rest =>
      if Ascii.eqb a c then EmptyString :: split c rest
      else match split c rest with
           | piece :: pieces => String a piece :: pieces
           | [] => [String a EmptyString]
           end
  end.

(** [pieces.join(c)], the inverse reading of [split]. *)
Fixpoint join (c : ascii) (pieces : list string) : string :=
  match pieces with
  | [] => EmptyString
  | [p] => p
  | p :: rest => p ++ String c (join c rest)
  end.

(** Occurrence of a character in a string. *)
Fixpoint occurs (c : ascii) (s : string) : Prop :=
  match s with
  | EmptyString => False
  | String a rest => a = c \/ occurs c rest
  end.

(** ** The decoded tag tree *)

(** What the code throws. *)
Inductive result (A : Type) : Type :=
| Ok (a : A)
| Throw (msg : string).
Arguments Ok {A} a.
Arguments Throw {A} msg.

Definition bind {A B : Type} (r : result A) (k : A -> result B) : result B :=
  match r with Ok a => k a | Throw msg => Throw msg end.

Notation "x <- r ;; k" := (bind r (fun x => k))
  (at level 61, r at next level, right associativity).

(** A tag object [{ type, value }]; [value] may be [undefined]. *)
Record tag (A : Type) : Type := Tag { value : option A }.
Arguments Tag {A} value.
Arguments value {A} t.

(** The palette compound: state-string keys in insertion order (the order
    of [Object.entries]), each holding an integer tag's number. *)
Definition palette := list (string * Z).

(** The fields of [nbtData.value] that the decoder reads; an absent field
    is [None]. *)
Record compound : Type := Compound {
  Width : option (tag Z);
  Height : option (tag Z);
  Length : option (tag Z);
  Palette : option (tag palette);
  BlockData : option (tag (list Z));
  Blocks : option (tag (list Z));
  Data : option (tag (list Z))
}.

(** [obj.value] where [obj] is a field that must exist: reading [value] of
    an absent field is a [TypeError]. *)
Definition field_value {A : Type} (f : option (tag A)) : result (option A) :=
  match f with
  | Some t => Ok (value t)
  | None => Throw "TypeError: Cannot read properties of undefined (reading 'value')"
  end.

(** [if (!obj || obj.value === undefined) throw new Error(msg)], followed
    by the read of [obj.value]. *)
Definition required {A : Type} (f : option (tag A)) (msg : string) : result A :=
  match f with
  | Some (Tag (Some v)) => Ok v
  | _ => Throw msg
  end.

(** [obj !== undefined]. *)
Definition present {A : Type} (f : option A) : bool :=
  match f with Some _ => true | None => false end.

(** ** Block descriptors and the grid *)

(** [{ name, properties }]; [properties] is [undefined] when the object
    literal leaves it out. *)
Record block : Type := Block {
  name : string;
  properties : option (list string)
}.

Definition air : block := Block "minecraft:air" None.

(** [blocks[y][x][z]]. *)
Definition grid := jsarray (jsarray (jsarray block)).

Definition grid_at (blocks : grid) (y x z : nat) : option block :=
  match js_get blocks y with
  | Some plane =>
      match js_get plane x with
      | Some row => js_get row z
      | None => None
      end
  | None => None
  end.

(** [x + z * width + y * width * length]. *)
Definition linear_index (width length : num) (x y z : nat) : num :=
  let nx := Some (Z.of_nat x) in
  let ny := Some (Z.of_nat y) in
  let nz := Some (Z.of_nat z) in
  nadd (nadd nx (nmul nz width)) (nmul (nmul ny width) length).

(** ** The palette resolver: [getBlockData] *)

Definition lbracket : ascii := "["%char.
Definition rbracket : ascii := "]"%char.
Definition comma : ascii := ","%char.

(** The object built from a matching key. *)
Definition block_of_key (key : string) : block :=
  if includes lbracket key then
    Block (substring key 0 (indexOf lbracket key))
          (Some (split comma
                   (substring key (indexOf lbracket key + 1)
                                  (indexOf rbracket key))))
  else Block key None.

(** [value.value === blockId], for a numeric [value.value]. *)
Definition strict_eq (v : Z) (blockId : num) : bool :=
  match blockId with Some b => v =? b | None => false end.

Fixpoint getBlockData (entries : palette) (blockId : num) : block :=
  match entries with
  | [] => air
  | (key, v) :: rest =>
      if strict_eq v blockId then block_of_key key
      else getBlockData rest blockId
  end.

(** ** The palette variant: [getBlocksFromSchem] *)

(** The three nested loops, shared by both variants: [cell x y z] is what
    the innermost body stores in [blocks[y][x][z]]. *)
Definition fill_grid (cell : nat -> nat -> nat -> block)
    (width height length : num) : grid :=
  for_loop height (fun y blocks =>
    js_set y
      (for_loop width (fun x plane =>
         js_set x
           (for_loop length (fun z row => js_set z (cell x y z) row) [])
           plane) [])
      blocks) [].

Definition getBlocksFromSchem (c : compound) : result grid :=
  width <- field_value (Width c) ;;
  height <- field_value (Height c) ;;
  length <- field_value (Length c) ;;
  pal <- required (Palette c)
           "Invalid NBT structure: Palette field missing or invalid" ;;
  blockData <- required (BlockData c)
           "Invalid NBT structure: BlockData field missing or invalid" ;;
  Ok (fill_grid
        (fun x y z =>
           (* getBlockData returns an object on every path, so the
              [data === undefined] branch of the loop is never taken *)
           getBlockData pal
             (js_index blockData (linear_index width length x y z)))
        width height length).

(** ** Parts common to both copies of the legacy decoder *)

(** [dataObj && dataObj.value ? dataObj.value : null]. *)
Definition optional_array (f : option (tag (list Z))) : option (list Z) :=
  match f with
  | Some (Tag (Some d)) => Some d
  | _ => None
  end.

(** [blockData > 0 ? [`data=${blockData}`] : undefined]. *)
Definition data_property (blockData : num) : option (list string) :=
  match blockData with
  | Some d => if 0 <? d then Some ["data=" ++ string_of_Z d] else None
  | None => None
  end.

(** [dataArray ? dataArray[index] : 0]. *)
Definition data_at (dataArray : option (list Z)) (index : num) : num :=
  match dataArray with
  | Some d => js_index d index
  | None => Some 0
  end.

(** The branch of [renderSchematic] that produced the grid. *)
Inductive format : Type := Sponge | Legacy.

(** [ToInt32], the conversion the bitwise operators apply first. *)
Definition toInt32 (n : num) : Z :=
  match n with
  | Some k => (k + 2 ^ 31) mod 2 ^ 32 - 2 ^ 31
  | None => 0
  end.

(** A table lookup [legacyBlockMap[blockId]] with a key that may be
    [undefined]: the property named "undefined" is never set. *)
Definition lookup_num (table : Z -> option string) (key : num) : option string :=
  match key with Some k => table k | None => None end.

(** ** The legacy variant, as in [src/unnamed/part_001] *)

Module Part001.

(** [createLegacyBlockMap()]: the ids 0 to 255 (36 is left out). *)
Definition createLegacyBlockMap (id : Z) : option string :=
  match id with
  | 0 => Some "minecraft:air"
  | 1 => Some "minecraft:stone"
  | 2 => Some "minecraft:grass_block"
  | 3 => Some "minecraft:dirt"
  | 4 => Some "minecraft:cobblestone"
  | 5 => Some "minecraft:oak_planks"
  | 6 => Some "minecraft:oak_sapling"
  | 7 => Some "minecraft:bedrock"
  | 8 => Some "minecraft:water"
  | 9 => Some "minecraft:water"
  | 10 => Some "minecraft:lava"
  | 11 => Some "minecraft:lava"
  | 12 => Some "minecraft:sand"
  | 13 => Some "minecraft:gravel"
  | 14 => Some "minecraft:gold_ore"
  | 15 => Some "minecraft:iron_ore"
  | 16 => Some "minecraft:coal_ore"
  | 17 => Some "minecraft:oak_log"
  | 18 => Some "minecraft:oak_leaves"
  | 19 => Some "minecraft:sponge"
  | 20 => Some "minecraft:glass"
  | 21 => Some "minecraft:lapis_ore"
  | 22 => Some "minecraft:lapis_block"
  | 23 => Some "minecraft:dispenser"
  | 24 => Some "minecraft:sandstone"
  | 25 => Some "minecraft:note_block"
  | 26 => Some "minecraft:red_bed"
  | 27 => Some "minecraft:powered_rail"
  | 28 => Some "minecraft:detector_rail"
  | 29 => Some "minecraft:sticky_piston"
  | 30 => Some "minecraft:cobweb"
  | 31 => Some "minecraft:grass"
  | 32 => Some "minecraft:dead_bush"
  | 33 => Some "minecraft:piston"
  | 34 => Some "minecraft:piston_head"
  | 35 => Some "minecraft:white_wool"
  | 37 => Some "minecraft:dandelion"
  | 38 => Some "minecraft:poppy"
  | 39 => Some "minecraft:brown_mushroom"
  | 40 => Some "minecraft:red_mushroom"
  | 41 => Some "minecraft:gold_block"
  | 42 => Some "minecraft:iron_block"
  | 43 => Some "minecraft:stone_slab"
  | 44 => Some "minecraft:stone_slab"
  | 45 => Some "minecraft:bricks"
  | 46 => Some "minecraft:tnt"
  | 47 => Some "minecraft:bookshelf"
  | 48 => Some "minecraft:mossy_cobblestone"
  | 49 => Some "minecraft:obsidian"
  | 50 => Some "minecraft:torch"
  | 51 => Some "minecraft:fire"
  | 52 => Some "minecraft:spawner"
  | 53 => Some "minecraft:oak_stairs"
  | 54 => Some "minecraft:chest"
  | 55 => Some "minecraft:redstone_wire"
  | 56 => Some "minecraft:diamond_ore"
  | 57 => Some "minecraft:diamond_block"
  | 58 => Some "minecraft:crafting_table"
  | 59 => Some "minecraft:wheat"
  | 60 => Some "minecraft:farmland"
  | 61 => Some "minecraft:furnace"
  | 62 => Some "minecraft:furnace"
  | 63 => Some "minecraft:oak_sign"
  | 64 => Some "minecraft:oak_door"
  | 65 => Some "minecraft:ladder"
  | 66 => Some "minecraft:rail"
  | 67 => Some "minecraft:cobblestone_stairs"
  | 68 => Some "minecraft:oak_wall_sign"
  | 69 => Some "minecraft:lever"
  | 70 => Some "minecraft:stone_pressure_plate"
  | 71 => Some "minecraft:iron_door"
  | 72 => Some "minecraft:oak_pressure_plate"
  | 73 => Some "minecraft:redstone_ore"
  | 74 => Some "minecraft:redstone_ore"
  | 75 => Some "minecraft:redstone_torch"
  | 76 => Some "minecraft:redstone_torch"
  | 77 => Some "minecraft:stone_button"
  | 78 => Some "minecraft:snow"
  | 79 => Some "minecraft:ice"
  | 80 => Some "minecraft:snow_block"
  | 81 => Some "minecraft:cactus"
  | 82 => Some "minecraft:clay"
  | 83 => Some "minecraft:sugar_cane"
  | 84 => Some "minecraft:jukebox"
  | 85 => Some "minecraft:oak_fence"
  | 86 => Some "minecraft:carved_pumpkin"
  | 87 => Some "minecraft:netherrack"
  | 88 => Some "minecraft:soul_sand"
  | 89 => Some "minecraft:glowstone"
  | 90 => Some "minecraft:nether_portal"
  | 91 => Some "minecraft:jack_o_lantern"
  | 92 => Some "minecraft:cake"
  | 93 => Some "minecraft:repeater"
  | 94 => Some "minecraft:repeater"
  | 95 => Some "minecraft:white_stained_glass"
  | 96 => Some "minecraft:oak_trapdoor"
  | 97 => Some "minecraft:infested_stone"
  | 98 => Some "minecraft:stone_bricks"
  | 99 => Some "minecraft:brown_mushroom_block"
  | 100 => Some "minecraft:red_mushroom_block"
  | 101 => Some "minecraft:iron_bars"
  | 102 => Some "minecraft:glass_pane"
  | 103 => Some "minecraft:melon"
  | 104 => Some "minecraft:pumpkin_stem"
  | 105 => Some "minecraft:melon_stem"
  | 106 => Some "minecraft:vine"
  | 107 => Some "minecraft:oak_fence_gate"
  | 108 => Some "minecraft:brick_stairs"
  | 109 => Some "minecraft:stone_brick_stairs"
  | 110 => Some "minecraft:mycelium"
  | 111 => Some "minecraft:lily_pad"
  | 112 => Some "minecraft:nether_bricks"
  | 113 => Some "minecraft:nether_brick_fence"
  | 114 => Some "minecraft:nether_brick_stairs"
  | 115 => Some "minecraft:nether_wart"
  | 116 => Some "minecraft:enchanting_table"
  | 117 => Some "minecraft:brewing_stand"
  | 118 => Some "minecraft:cauldron"
  | 119 => Some "minecraft:end_portal"
  | 120 => Some "minecraft:end_portal_frame"
  | 121 => Some "minecraft:end_stone"
  | 122 => Some "minecraft:dragon_egg"
  | 123 => Some "minecraft:redstone_lamp"
  | 124 => Some "minecraft:redstone_lamp"
  | 125 => Some "minecraft:oak_slab"
  | 126 => Some "minecraft:oak_slab"
  | 127 => Some "minecraft:cocoa"
  | 128 => Some "minecraft:sandstone_stairs"
  | 129 => Some "minecraft:emerald_ore"
  | 130 => Some "minecraft:ender_chest"
  | 131 => Some "minecraft:tripwire_hook"
  | 132 => Some "minecraft:tripwire"
  | 133 => Some "minecraft:emerald_block"
  | 134 => Some "minecraft:spruce_stairs"
  | 135 => Some "minecraft:birch_stairs"
  | 136 => Some "minecraft:jungle_stairs"
  | 137 => Some "minecraft:command_block"
  | 138 => Some "minecraft:beacon"
  | 139 => Some "minecraft:cobblestone_wall"
  | 140 => Some "minecraft:flower_pot"
  | 141 => Some "minecraft:carrots"
  | 142 => Some "minecraft:potatoes"
  | 143 => Some "minecraft:oak_button"
  | 144 => Some "minecraft:skeleton_skull"
  | 145 => Some "minecraft:anvil"
  | 146 => Some "minecraft:trapped_chest"
  | 147 => Some "minecraft:light_weighted_pressure_plate"
  | 148 => Some "minecraft:heavy_weighted_pressure_plate"
  | 149 => Some "minecraft:comparator"
  | 150 => Some "minecraft:comparator"
  | 151 => Some "minecraft:daylight_detector"
  | 152 => Some "minecraft:redstone_block"
  | 153 => Some "minecraft:quartz_ore"
  | 154 => Some "minecraft:hopper"
  | 155 => Some "minecraft:quartz_block"
  | 156 => Some "minecraft:quartz_stairs"
  | 157 => Some "minecraft:activator_rail"
  | 158 => Some "minecraft:dropper"
  | 159 => Some "minecraft:white_terracotta"
  | 160 => Some "minecraft:white_stained_glass_pane"
  | 161 => Some "minecraft:acacia_leaves"
  | 162 => Some "minecraft:acacia_log"
  | 163 => Some "minecraft:acacia_stairs"
  | 164 => Some "minecraft:dark_oak_stairs"
  | 165 => Some "minecraft:slime_block"
  | 166 => Some "minecraft:barrier"
  | 167 => Some "minecraft:iron_trapdoor"
  | 168 => Some "minecraft:prismarine"
  | 169 => Some "minecraft:sea_lantern"
  | 170 => Some "minecraft:hay_block"
  | 171 => Some "minecraft:white_carpet"
  | 172 => Some "minecraft:terracotta"
  | 173 => Some "minecraft:coal_block"
  | 174 => Some "minecraft:packed_ice"
  | 175 => Some "minecraft:sunflower"
  | 176 => Some "minecraft:white_banner"
  | 177 => Some "minecraft:white_wall_banner"
  | 178 => Some "minecraft:daylight_detector"
  | 179 => Some "minecraft:red_sandstone"
  | 180 => Some "minecraft:red_sandstone_stairs"
  | 181 => Some "minecraft:red_sandstone_slab"
  | 182 => Some "minecraft:red_sandstone_slab"
  | 183 => Some "minecraft:spruce_fence_gate"
  | 184 => Some "minecraft:birch_fence_gate"
  | 185 => Some "minecraft:jungle_fence_gate"
  | 186 => Some "minecraft:dark_oak_fence_gate"
  | 187 => Some "minecraft:acacia_fence_gate"
  | 188 => Some "minecraft:spruce_fence"
  | 189 => Some "minecraft:birch_fence"
  | 190 => Some "minecraft:jungle_fence"
  | 191 => Some "minecraft:dark_oak_fence"
  | 192 => Some "minecraft:acacia_fence"
  | 193 => Some "minecraft:spruce_door"
  | 194 => Some "minecraft:birch_door"
  | 195 => Some "minecraft:jungle_door"
  | 196 => Some "minecraft:acacia_door"
  | 197 => Some "minecraft:dark_oak_door"
  | 198 => Some "minecraft:end_rod"
  | 199 => Some "minecraft:chorus_plant"
  | 200 => Some "minecraft:chorus_flower"
  | 201 => Some "minecraft:purpur_block"
  | 202 => Some "minecraft:purpur_pillar"
  | 203 => Some "minecraft:purpur_stairs"
  | 204 => Some "minecraft:purpur_slab"
  | 205 => Some "minecraft:purpur_slab"
  | 206 => Some "minecraft:end_stone_bricks"
  | 207 => Some "minecraft:beetroots"
  | 208 => Some "minecraft:grass_path"
  | 209 => Some "minecraft:end_gateway"
  | 210 => Some "minecraft:repeating_command_block"
  | 211 => Some "minecraft:chain_command_block"
  | 212 => Some "minecraft:frosted_ice"
  | 213 => Some "minecraft:magma_block"
  | 214 => Some "minecraft:nether_wart_block"
  | 215 => Some "minecraft:red_nether_bricks"
  | 216 => Some "minecraft:bone_block"
  | 217 => Some "minecraft:structure_void"
  | 218 => Some "minecraft:observer"
  | 219 => Some "minecraft:white_shulker_box"
  | 220 => Some "minecraft:orange_shulker_box"
  | 221 => Some "minecraft:magenta_shulker_box"
  | 222 => Some "minecraft:light_blue_shulker_box"
  | 223 => Some "minecraft:yellow_shulker_box"
  | 224 => Some "minecraft:lime_shulker_box"
  | 225 => Some "minecraft:pink_shulker_box"
  | 226 => Some "minecraft:gray_shulker_box"
  | 227 => Some "minecraft:light_gray_shulker_box"
  | 228 => Some "minecraft:cyan_shulker_box"
  | 229 => Some "minecraft:purple_shulker_box"
  | 230 => Some "minecraft:blue_shulker_box"
  | 231 => Some "minecraft:brown_shulker_box"
  | 232 => Some "minecraft:green_shulker_box"
  | 233 => Some "minecraft:red_shulker_box"
  | 234 => Some "minecraft:black_shulker_box"
  | 235 => Some "minecraft:white_glazed_terracotta"
  | 236 => Some "minecraft:orange_glazed_terracotta"
  | 237 => Some "minecraft:magenta_glazed_terracotta"
  | 238 => Some "minecraft:light_blue_glazed_terracotta"
  | 239 => Some "minecraft:yellow_glazed_terracotta"
  | 240 => Some "minecraft:lime_glazed_terracotta"
  | 241 => Some "minecraft:pink_glazed_terracotta"
  | 242 => Some "minecraft:gray_glazed_terracotta"
  | 243 => Some "minecraft:light_gray_glazed_terracotta"
  | 244 => Some "minecraft:cyan_glazed_terracotta"
  | 245 => Some "minecraft:purple_glazed_terracotta"
  | 246 => Some "minecraft:blue_glazed_terracotta"
  | 247 => Some "minecraft:brown_glazed_terracotta"
  | 248 => Some "minecraft:green_glazed_terracotta"
  | 249 => Some "minecraft:red_glazed_terracotta"
  | 250 => Some "minecraft:black_glazed_terracotta"
  | 251 => Some "minecraft:concrete"
  | 252 => Some "minecraft:concrete_powder"
  | 253 => Some "minecraft:structure_block"
  | 254 => Some "minecraft:structure_block"
  | 255 => Some "minecraft:air"
  | _ => None
  end.

(** The conversion of the stored byte:
    [if (blockId < 0) blockId = blockId + 256; blockId = blockId & 0xFF]. *)
Definition unsigned_byte (raw : num) : Z :=
  let blockId :=
    match raw with
    | Some k => if k <? 0 then Some (k + 256) else Some k
    | None => None
    end in
  Z.land (toInt32 blockId) 255.

(** The body of the innermost loop, from the entries read at [index]:
    the stored id is converted, looked up in the table, and an id the
    table lacks gets a synthesized name. *)
Definition legacy_block (raw : num) (blockData : num) : block :=
  let blockId := unsigned_byte raw in
  let blockName :=
    match createLegacyBlockMap blockId with
    | Some n => n
    | None => "minecraft:unknown_" ++ string_of_Z blockId
    end in
  Block blockName (data_property blockData).

Definition getBlocksFromSchematic (c : compound) : result grid :=
  width <- field_value (Width c) ;;
  height <- field_value (Height c) ;;
  length <- field_value (Length c) ;;
  blocksArray <- required (Blocks c)
           "Invalid NBT structure: Blocks field missing or invalid" ;;
  let dataArray := optional_array (Data c) in
  Ok (fill_grid
        (fun x y z =>
           let index := linear_index width length x y z in
           legacy_block (js_index blocksArray index)
                        (data_at dataArray index))
        width height length).

(** [renderSchematic], from the parsed tag tree to the call of [render]:
    the branch taken and the grid handed to the renderer. *)
Definition renderSchematic (nbtData : option (tag compound))
  : result (format * grid) :=
  c <- required nbtData "Invalid NBT structure: missing value property" ;;
  _ <- required (Width c)
         "Invalid NBT structure: Width field missing or invalid" ;;
  _ <- required (Height c)
         "Invalid NBT structure: Height field missing or invalid" ;;
  _ <- required (Length c)
         "Invalid NBT structure: Length field missing or invalid" ;;
  let hasPalette := present (Palette c) in
  let hasBlocks := present (Blocks c) in
  if hasPalette then
    blocks <- getBlocksFromSchem c ;; Ok (Sponge, blocks)
  else if hasBlocks then
    blocks <- getBlocksFromSchematic c ;; Ok (Legacy, blocks)
  else
    Throw "Unknown schematic format: missing both Palette/BlockData and Blocks fields".

End Part001.

(** ** The legacy variant, as in [src/webschematics.js] *)

Module WebSchematics.

(** [createLegacyBlockMap()]: a partial table; the id is looked up as stored. *)
Definition createLegacyBlockMap (id : Z) : option string :=
  match id with
  | 0 => Some "minecraft:air"
  | 1 => Some "minecraft:stone"
  | 2 => Some "minecraft:grass_block"
  | 3 => Some "minecraft:dirt"
  | 4 => Some "minecraft:cobblestone"
  | 5 => Some "minecraft:oak_planks"
  | 6 => Some "minecraft:oak_sapling"
  | 7 => Some "minecraft:bedrock"
  | 8 => Some "minecraft:water"
  | 9 => Some "minecraft:water"
  | 10 => Some "minecraft:lava"
  | 11 => Some "minecraft:lava"
  | 12 => Some "minecraft:sand"
  | 13 => Some "minecraft:gravel"
  | 14 => Some "minecraft:gold_ore"
  | 15 => Some "minecraft:iron_ore"
  | 16 => Some "minecraft:coal_ore"
  | 17 => Some "minecraft:oak_log"
  | 18 => Some "minecraft:oak_leaves"
  | 20 => Some "minecraft:glass"
  | 21 => Some "minecraft:lapis_ore"
  | 22 => Some "minecraft:lapis_block"
  | 24 => Some "minecraft:sandstone"
  | 35 => Some "minecraft:white_wool"
  | 41 => Some "minecraft:gold_block"
  | 42 => Some "minecraft:iron_block"
  | 43 => Some "minecraft:stone_slab"
  | 44 => Some "minecraft:stone_slab"
  | 45 => Some "minecraft:bricks"
  | 46 => Some "minecraft:tnt"
  | 47 => Some "minecraft:bookshelf"
  | 48 => Some "minecraft:mossy_cobblestone"
  | 49 => Some "minecraft:obsidian"
  | 50 => Some "minecraft:torch"
  | 51 => Some "minecraft:fire"
  | 52 => Some "minecraft:spawner"
  | 53 => Some "minecraft:oak_stairs"
  | 54 => Some "minecraft:chest"
  | 56 => Some "minecraft:diamond_ore"
  | 57 => Some "minecraft:diamond_block"
  | 58 => Some "minecraft:crafting_table"
  | 59 => Some "minecraft:wheat"
  | 60 => Some "minecraft:farmland"
  | 61 => Some "minecraft:furnace"
  | 64 => Some "minecraft:oak_door"
  | 65 => Some "minecraft:ladder"
  | 67 => Some "minecraft:cobblestone_stairs"
  | 71 => Some "minecraft:iron_door"
  | 73 => Some "minecraft:redstone_ore"
  | 78 => Some "minecraft:snow"
  | 79 => Some "minecraft:ice"
  | 80 => Some "minecraft:snow_block"
  | 81 => Some "minecraft:cactus"
  | 82 => Some "minecraft:clay"
  | 85 => Some "minecraft:oak_fence"
  | 89 => Some "minecraft:glowstone"
  | 95 => Some "minecraft:white_stained_glass"
  | 98 => Some "minecraft:stone_bricks"
  | 102 => Some "minecraft:glass_pane"
  | 103 => Some "minecraft:melon"
  | 126 => Some "minecraft:oak_slab"
  | _ => None
  end.

(** The body of the innermost loop, from the entries read at [index]:
    the stored id is looked up in the table as it is, and an id the table
    lacks gets a synthesized name. *)
Definition legacy_block (blockId : num) (blockData : num) : block :=
  let blockName :=
    match lookup_num createLegacyBlockMap blockId with
    | Some n => n
    | None => "minecraft:unknown_" ++ string_of_num blockId
    end in
  Block blockName (data_property blockData).

Definition getBlocksFromSchematic (c : compound) : result grid :=
  width <- field_value (Width c) ;;
  height <- field_value (Height c) ;;
  length <- field_value (Length c) ;;
  blocksArray <- required (Blocks c)
           "Invalid NBT structure: Blocks field missing or invalid" ;;
  let dataArray := optional_array (Data c) in
  Ok (fill_grid
        (fun x y z =>
           let index := linear_index width length x y z in
           legacy_block (js_index blocksArray index)
                        (data_at dataArray index))
        width height length).

(** [renderSchematic], from the parsed tag tree to the call of [render]:
    the branch taken and the grid handed to the renderer. *)
Definition renderSchematic (nbtData : option (tag compound))
  : result (format * grid) :=
  c <- required nbtData "Invalid NBT structure: missing value property" ;;
  _ <- required (Width c)
         "Invalid NBT structure: Width field missing or invalid" ;;
  _ <- required (Height c)
         "Invalid NBT structure: Height field missing or invalid" ;;
  _ <- required (Length c)
         "Invalid NBT structure: Length field missing or invalid" ;;
  let hasPalette := present (Palette c) in
  let hasBlocks := present (Blocks c) in
  if hasPalette then
    blocks <- getBlocksFromSchem c ;; Ok (Sponge, blocks)
  else if hasBlocks then
    blocks <- getBlocksFromSchematic c ;; Ok (Legacy, blocks)
  else
    Throw "Unknown schematic format: missing both Palette/BlockData and Blocks fields".

End WebSchematics.

(** ** The renderer: block collection ([render], step 1) *)

(** The entries of the [blockGrid] map, in insertion order; the key
    ["x,y,z"] is kept as the triple it spells.  The same loop files the
    coordinate under its block-type key in [blockMap]; that map is not
    modelled. *)
Definition blockGrid := list ((nat * nat * nat) * block).

Definition is_air (b : block) : bool := String.eqb (name b) "minecraft:air".

(** [block.properties || []]: the property list the renderer works with. *)
Definition properties_or_empty (b : block) : list string :=
  match properties b with Some props => props | None => [] end.

(** The loop over [z]: [block.name] on a hole is a [TypeError]; an air
    block is skipped by [continue]. *)
Fixpoint scan_row (x y z : nat) (row : jsarray block) (acc : blockGrid)
  : result blockGrid :=
  match row with
  | [] => Ok acc
  | None :: _ =>
      Throw "TypeError: Cannot read properties of undefined (reading 'name')"
  | Some b :: rest =>
      if is_air b then scan_row x y (S z) rest acc
      else scan_row x y (S z) rest (acc ++ [((x, y, z), b)])%list
  end.

(** The loop over [x]: [blocks[y][x].length] on a hole is a [TypeError]. *)
Fixpoint scan_plane (x y : nat) (plane : jsarray (jsarray block))
    (acc : blockGrid) : result blockGrid :=
  match plane with
  | [] => Ok acc
  | None :: _ =>
      Throw "TypeError: Cannot read properties of undefined (reading 'length')"
  | Some row :: rest =>
      acc' <- scan_row x y 0 row acc ;; scan_plane (S x) y rest acc'
  end.

(** The loop over [y]. *)
Fixpoint scan_grid (y : nat) (blocks : grid) (acc : blockGrid)
  : result blockGrid :=
  match blocks with
  | [] => Ok acc
  | None :: _ =>
      Throw "TypeError: Cannot read properties of undefined (reading 'length')"
  | Some plane :: rest =>
      acc' <- scan_plane 0 y plane acc ;; scan_grid (S y) rest acc'
  end.

Definition collect_blocks (blocks : grid) : result blockGrid :=
  scan_grid 0 blocks [].

(** ** The renderer: geometry *)

(** [s.startsWith(p)] and the one-argument [s.substring(a)]. *)
Definition startsWith (p s : string) : bool := String.prefix p s.

Definition substring_from (s : string) (a : Z) : string :=
  substring s a (Z.of_nat (String.length s)).

(** [properties.find(property => property.startsWith(p))]. *)
Definition find_property (p : string) (props : list string) : option string :=
  List.find (startsWith p) props.

(** Angles are counted in units of [Math.PI / 2]: every angle the code
    writes is [0], [Math.PI / 2] or [Math.PI] up to sign, and each rotation
    component receives at most one addition to [0], so the count is exact. *)
Definition angle := Z.
Definition PI : angle := 2.

Record euler : Type := Euler { rx : angle; ry : angle; rz : angle }.

Section Renderer.

(** The numbers held in vertex buffers and mesh positions.  The code
    copies them, adds offsets to them and writes [0.5]; nothing here
    depends on how these operations round. *)
Context {V : Type} {M : Type}.
Variable vadd : V -> V -> V.
Variable of_int : Z -> V.
Variable one_half : V.
Variable nan : V.

(** A [BufferAttribute]: a flat array read [itemSize] entries at a time. *)
Record attribute : Type := Attribute { array : list V; itemSize : nat }.

Definition count (a : attribute) : nat :=
  (List.length (array a) / itemSize a)%nat.

(** A read of the typed array; out of range it is [undefined], which a
    [Float32Array] stores as [NaN]. *)
Definition getX (a : attribute) (i : nat) : V :=
  nth (i * itemSize a) (array a) nan.
Definition getY (a : attribute) (i : nat) : V :=
  nth (i * itemSize a + 1) (array a) nan.
Definition getZ (a : attribute) (i : nat) : V :=
  nth (i * itemSize a + 2) (array a) nan.

(** [geometry.attributes.{position,normal,uv}] and [geometry.index]. *)
Record geometry : Type := Geometry {
  position : option attribute;
  normal : option attribute;
  uv : option attribute;
  index : option (list Z)
}.

(** The calls into three.js made by [mergeTwoGeometries] and
    [translateGeometry] can throw (a typed array that cannot be allocated,
    for one).  Which inputs make them throw is outside the code under
    study: it is a parameter of the model. *)
Variable merge_throws : geometry -> geometry -> bool.
Variable translate_throws : geometry -> bool.

Record vec3 : Type := Vec3 { vx : V; vy : V; vz : V }.

Record mesh : Type := Mesh {
  mesh_geometry : geometry;
  material : M;
  mesh_position : vec3;
  rotation : euler
}.

(** [new THREE.Mesh(geometry, material)]. *)
Definition new_Mesh (g : geometry) (m : M) : mesh :=
  Mesh g m (Vec3 (of_int 0) (of_int 0) (of_int 0)) (Euler 0 0 0).

(** [for (i < a.count) out.push(a.getX(i), a.getY(i), a.getZ(i))]. *)
Definition push_xyz (a : option attribute) : list V :=
  match a with
  | Some a => flat_map (fun i => [getX a i; getY a i; getZ a i])
                       (seq 0 (count a))
  | None => []
  end.

(** [for (i < a.count) out.push(a.getX(i), a.getY(i))]. *)
Definition push_xy (a : option attribute) : list V :=
  match a with
  | Some a => flat_map (fun i => [getX a i; getY a i]) (seq 0 (count a))
  | None => []
  end.

(** [pos1 ? pos1.count : 0]. *)
Definition vertex_count (a : option attribute) : nat :=
  match a with Some a => count a | None => O end.

(** [if (values.length > 0) merged.setAttribute(...)]. *)
Definition attribute_if_any (values : list V) (size : nat) : option attribute :=
  match values with
  | [] => None
  | _ => Some (Attribute values size)
  end.

(** The [try] block of [mergeTwoGeometries]. *)
Definition merge_attributes (geo1 geo2 : geometry) : geometry :=
  let positions := (push_xyz (position geo1) ++ push_xyz (position geo2))%list in
  let normals := (push_xyz (normal geo1) ++ push_xyz (normal geo2))%list in
  let uvs := (push_xy (uv geo1) ++ push_xy (uv geo2))%list in
  let offset := Z.of_nat (vertex_count (position geo1)) in
  Geometry
    (Some (Attribute positions 3))
    (attribute_if_any normals 3)
    (attribute_if_any uvs 2)
    (match index geo1, index geo2 with
     | Some i1, Some i2 => Some (i1 ++ map (fun i => i + offset) i2)%list
     | Some i1, None => Some i1
     | None, Some i2 => Some (map (fun i => i + offset) i2)
     | None, None => None
     end).

(** [mergeTwoGeometries]: the [catch] returns the first geometry. *)
Definition mergeTwoGeometries (geo1 geo2 : geometry) : geometry :=
  if merge_throws geo1 geo2 then geo1
  else merge_attributes geo1 geo2.

(** [translateGeometry]; it throws when the three.js calls in it do. *)
Definition translateGeometry (g : geometry) (x y z : V) : result geometry :=
  if translate_throws g then Throw "Error thrown inside three.js"
  else
    match position g with
    | None => Ok g
    | Some pos =>
        let positions :=
          flat_map (fun i => [vadd (getX pos i) x;
                              vadd (getY pos i) y;
                              vadd (getZ pos i) z])
                   (seq 0 (count pos)) in
        Ok (Geometry (Some (Attribute positions 3))
                     (normal g) (uv g) (index g))
    end.

Definition translate_mesh (m : mesh) : result geometry :=
  translateGeometry (mesh_geometry m)
    (vx (mesh_position m)) (vy (mesh_position m)) (vz (mesh_position m)).

(** The loop of [mergeGeometries] over [meshes[1..]]. *)
Fixpoint merge_rest (merged : geometry) (rest : list mesh) : result geometry :=
  match rest with
  | [] => Ok merged
  | m :: rest' =>
      geo <- translate_mesh m ;;
      merge_rest (mergeTwoGeometries merged geo) rest'
  end.

(** [mergeGeometries]: [None] is the [null] it returns for no mesh and
    from its [catch]; with a single mesh the translation is outside the
    [try] and a throw escapes. *)
Definition mergeGeometries (meshes : list mesh) : result (option mesh) :=
  match meshes with
  | [] => Ok None
  | [m] => geo <- translate_mesh m ;; Ok (Some (new_Mesh geo (material m)))
  | m0 :: rest =>
      match (first <- translate_mesh m0 ;; merge_rest first rest) with
      | Ok merged => Ok (Some (new_Mesh merged (material m0)))
      | Throw _ => Ok None
      end
  end.

(** ** The transform resolver: [applyTransformations] *)

Definition set_rx (r : euler) (a : angle) : euler := Euler a (ry r) (rz r).
Definition set_ry (r : euler) (a : angle) : euler := Euler (rx r) a (rz r).
Definition set_rz (r : euler) (a : angle) : euler := Euler (rx r) (ry r) a.

(** [half && half.substring(5) === "top"]. *)
Definition is_upsideDown (props : list string) : bool :=
  match find_property "half=" props with
  | Some h => String.eqb (substring_from h 5) "top"
  | None => false
  end.

(** The [switch] on the facing direction. *)
Definition facing_rotation (upsideDown : bool) (r : euler) (direction : string)
  : euler :=
  if String.eqb direction "north" then
    set_ry r (ry r + (if upsideDown then - (PI / 2) else PI / 2))
  else if String.eqb direction "east" then
    set_ry r (ry r + 0)
  else if String.eqb direction "south" then
    set_ry r (ry r + (if upsideDown then PI / 2 else - (PI / 2)))
  else if String.eqb direction "west" then
    set_ry r (ry r + (if upsideDown then - PI else PI))
  else r.

(** The [switch] on the axis. *)
Definition axis_rotation (r : euler) (direction : string) : euler :=
  if String.eqb direction "x" then set_rz r (PI / 2)
  else if String.eqb direction "y" then set_ry r 0
  else if String.eqb direction "z" then set_rx r (PI / 2)
  else r.

Definition applyTransformations (m : mesh) (x y z : Z) (props : list string)
  : mesh :=
  let pos := Vec3 (of_int x) (of_int y) (of_int z) in
  match props with
  | [] => Mesh (mesh_geometry m) (material m) pos (rotation m)
  | _ =>
      let upsideDown := is_upsideDown props in
      let r0 := rotation m in
      let r1 := if upsideDown then set_rx r0 PI else r0 in
      let r2 :=
        match find_property "facing=" props with
        | Some facing => facing_rotation upsideDown r1 (substring_from facing 7)
        | None => r1
        end in
      let pos1 :=
        match find_property "type=" props with
        | Some type =>
            if String.eqb (substring_from type 5) "top"
            then Vec3 (vx pos) (vadd (vy pos) one_half) (vz pos)
            else pos
        | None => pos
        end in
      let r3 :=
        match find_property "axis=" props with
        | Some axis => axis_rotation r2 (substring_from axis 5)
        | None => r2
        end in
      Mesh (mesh_geometry m) (material m) pos1 r3
  end.

(** ** The renderer: the meshes of one block type ([render], step 3) *)

(** [properties.some(p => p.startsWith("facing=") || ...)]. *)
Definition hasRotation (props : list string) : bool :=
  existsb (fun p => startsWith "facing=" p || startsWith "axis=" p
                    || startsWith "half=" p || startsWith "type=" p) props.

(** Sequencing of a loop body that can throw. *)
Fixpoint map_result {A B : Type} (f : A -> result B) (l : list A)
  : result (list B) :=
  match l with
  | [] => Ok []
  | a :: rest => b <- f a ;; bs <- map_result f rest ;; Ok (b :: bs)
  end.

(** What one iteration of the loop over [chunk] adds to the scene, for a
    block type whose geometry and material were extracted: the meshes, in
    the order of [scene.add].  The statistics counters are left out. *)
Definition add_block_type (cachedGeo : geometry) (cachedMat : M)
    (props : list string) (positions : list (Z * Z * Z))
  : result (list mesh) :=
  match positions with
  | [] => Ok []
  | _ =>
      if hasRotation props || (Nat.ltb (List.length positions) 5) then
        Ok (map (fun '(x, y, z) =>
                   applyTransformations (new_Mesh cachedGeo cachedMat)
                                        x y z props)
                positions)
      else
        meshes <- map_result
                    (fun '(x, y, z) =>
                       clonedGeo <- translateGeometry cachedGeo
                                      (of_int x) (of_int y) (of_int z) ;;
                       Ok (new_Mesh clonedGeo cachedMat))
                    positions ;;
        merged <- mergeGeometries meshes ;;
        match merged with
        | Some m => Ok [m]
        | None => Ok meshes
        end
  end.

(** ** Well-formed buffers *)

(** The array of an attribute holds whole items of the expected size. *)
Definition whole_items (size : nat) (a : option attribute) : Prop :=
  match a with
  | Some a => itemSize a = size
              /\ exists n, List.length (array a) = (n * size)%nat
  | None => True
  end.

(** The values of an attribute that may be absent. *)
Definition values (a : option attribute) : list V :=
  match a with Some a => array a | None => [] end.

(** Positions and normals come in threes, texture coordinates in twos. *)
Definition well_formed (g : geometry) : Prop :=
  whole_items 3 (position g) /\ whole_items 3 (normal g)
  /\ whole_items 2 (uv g).

(** Some index entry names a vertex in [lo, hi). *)
Definition references (indices : option (list Z)) (lo hi : Z) : Prop :=
  exists i, In i (match indices with Some l => l | None => [] end)
            /\ lo <= i < hi.

End Renderer.

(** ** Inputs and predicates of the statements *)

Definition int_tag (n : Z) : option (tag Z) := Some (Tag (Some n)).

(** A palette-variant compound: dimensions, [Palette], [BlockData]. *)
Definition schem_input (w h l : Z) (pal : palette) (blockData : list Z)
  : compound :=
  Compound (int_tag w) (int_tag h) (int_tag l)
           (Some (Tag (Some pal))) (Some (Tag (Some blockData))) None None.

(** A legacy compound: dimensions, [Blocks] and, optionally, [Data]. *)
Definition schematic_input (w h l : Z) (blocksArray : list Z)
    (data : option (list Z)) : compound :=
  Compound (int_tag w) (int_tag h) (int_tag l) None None
           (Some (Tag (Some blocksArray)))
           (match data with Some d => Some (Tag (Some d)) | None => None end).

(** The grid holds, at [(y, x, z)], the block resolved from flat index
    [x + z*w + y*w*l]; read backwards, flat index [i] sits at
    [(i / (w*l), i mod w, (i / w) mod l)]; no other slot is filled. *)
Definition follows_flat_order (w h l : Z) (resolve : Z -> block)
    (blocks : grid) : Prop :=
  (forall x y z : nat,
      Z.of_nat x < w -> Z.of_nat y < h -> Z.of_nat z < l ->
      grid_at blocks y x z
      = Some (resolve (Z.of_nat x + Z.of_nat z * w + Z.of_nat y * w * l)))
  /\ (forall i : Z,
      0 <= i < w * h * l ->
      grid_at blocks (Z.to_nat (i / (w * l))) (Z.to_nat (i mod w))
                     (Z.to_nat ((i / w) mod l))
      = Some (resolve i))
  /\ (forall x y z : nat,
      w <= Z.of_nat x \/ h <= Z.of_nat y \/ l <= Z.of_nat z ->
      grid_at blocks y x z = None).

(** [dataArray ? dataArray[index] : 0], read off the list: the entry of
    the [Data] array at position [i], [undefined] past its end, and [0]
    when there is no such array. *)
Definition data_entry (data : option (list Z)) (i : nat) : num :=
  match data with
  | Some d => nth_error d i
  | None => Some 0
  end.

(** The cells of a grid read in the order of the flat index: entry [i] is
    the cell at [(i / (w*l), i mod w, (i / w) mod l)]. *)
Definition read_back (w l : Z) (blocks : grid) (n : nat)
  : list (option block) :=
  map (fun i =>
         grid_at blocks (Z.to_nat (Z.of_nat i / (w * l)))
                        (Z.to_nat (Z.of_nat i mod w))
                        (Z.to_nat ((Z.of_nat i / w) mod l)))
      (seq 0 n).

(** The grid holds the flat array: the cell at [(y, x, z)] is the block
    resolved from the entry that the array holds at position
    [x + z*w + y*w*l]; the entry at position [i] is found again at
    [(i / (w*l), i mod w, (i / w) mod l)], so that reading the grid back in
    that order gives the blocks of the array's entries, first to last; no
    slot outside the dimensions is filled.  [resolve i id] is the block
    of the entry [id] found at position [i]. *)
Definition holds_flat_array (w h l : Z) (flat : list Z)
    (resolve : nat -> Z -> block) (blocks : grid) : Prop :=
  (forall x y z : nat,
      Z.of_nat x < w -> Z.of_nat y < h -> Z.of_nat z < l ->
      let i := Z.to_nat (Z.of_nat x + Z.of_nat z * w + Z.of_nat y * w * l) in
      exists id,
        nth_error flat i = Some id
        /\ grid_at blocks y x z = Some (resolve i id))
  /\ (forall (i : nat) (id : Z),
      nth_error flat i = Some id ->
      grid_at blocks (Z.to_nat (Z.of_nat i / (w * l)))
                     (Z.to_nat (Z.of_nat i mod w))
                     (Z.to_nat ((Z.of_nat i / w) mod l))
      = Some (resolve i id))
  /\ read_back w l blocks (List.length flat)
     = map (fun entry => Some (resolve (fst entry) (snd entry)))
           (combine (seq 0 (List.length flat)) flat)
  /\ (forall x y z : nat,
      w <= Z.of_nat x \/ h <= Z.of_nat y \/ l <= Z.of_nat z ->
      grid_at blocks y x z = None).

(** A field that is present and carries a value. *)
Definition defined {A : Type} (f : option (tag A)) : Prop :=
  exists v, f = Some (Tag (Some v)).

(** What [renderSchematic] does with a tree whose dimensions are valid,
    by the fields it finds. *)
Definition detection_rule
    (render : option (tag compound) -> result (format * grid)) : Prop :=
  forall (w h l : Z) (pal : option (tag palette))
         (blockData blocksArray data : option (tag (list Z))),
    let c := Compound (int_tag w) (int_tag h) (int_tag l)
                      pal blockData blocksArray data in
    let r := render (Some (Tag (Some c))) in
    (* the palette branch is taken exactly when Palette is present ... *)
    (pal <> None -> r = (blocks <- getBlocksFromSchem c ;; Ok (Sponge, blocks)))
    (* ... and it yields a grid exactly when BlockData is there too *)
    /\ ((exists blocks, r = Ok (Sponge, blocks))
        <-> defined pal /\ defined blockData)
    /\ (defined pal -> blockData = None ->
        r = Throw "Invalid NBT structure: BlockData field missing or invalid")
    (* without Palette, the legacy branch exactly when Blocks is present *)
    /\ ((exists blocks, r = Ok (Legacy, blocks))
        <-> pal = None /\ defined blocksArray)
    /\ (r = Throw "Unknown schematic format: missing both Palette/BlockData and Blocks fields"
        <-> pal = None /\ blocksArray = None).

(** The byte normalization in the specification's words,
    [((raw % 256) + 256) % 256], with JavaScript's truncating [%]. *)
Definition spec_normalize (raw : Z) : Z := Z.rem (Z.rem raw 256 + 256) 256.

(** No entry of the palette carries the id. *)
Definition unmatched (pal : palette) (id : Z) : Prop :=
  forall key v, In (key, v) pal -> v <> id.

(** The direction table of the facing rule, in the specification's
    words: a fixed angle about the vertical axis per direction. *)
Definition facing_angle (direction : string) : angle :=
  if String.eqb direction "north" then PI / 2
  else if String.eqb direction "east" then 0
  else if String.eqb direction "south" then - (PI / 2)
  else if String.eqb direction "west" then PI
  else 0.

(** ** A concrete instance, for the examples *)

(** Buffer values as rationals, [None] standing for [NaN]. *)
Definition scalar := option Q.

Definition scalar_add (a b : scalar) : scalar :=
  match a, b with
  | Some x, Some y => Some (Qred (x + y))
  | _, _ => None
  end.

Definition scalar_of_int (n : Z) : scalar := Some (inject_Z n).

Definition scalar_half : scalar := Some (1 # 2)%Q.

(** One triangle: three vertices, indices [0, 1, 2]. *)
Definition triangle (a b c : Z * Z * Z) : @geometry scalar :=
  let coords := fun '(x, y, z) =>
    [scalar_of_int x; scalar_of_int y; scalar_of_int z] in
  Geometry (Some (Attribute (coords a ++ coords b ++ coords c)%list 3))
           None None (Some [0; 1; 2]).

Definition unit_triangle : @geometry scalar :=
  triangle (0, 0, 0) (1, 0, 0) (0, 1, 0).

(** A triangle with normals [(0, 0, nz)] and texture coordinates. *)
Definition textured_triangle (a b c : Z * Z * Z) (nz : Z) : @geometry scalar :=
  Geometry (position (triangle a b c))
           (Some (Attribute
                    (map scalar_of_int [0; 0; nz;  0; 0; nz;  0; 0; nz]) 3))
           (Some (Attribute (map scalar_of_int [0; 0;  1; 0;  0; 1]) 2))
           (Some [0; 1; 2]).

(** The same triangle without an index buffer. *)
Definition unindexed_triangle : @geometry scalar :=
  Geometry (position unit_triangle) None None None.

(** No call into three.js throws. *)
Definition never2 (g1 g2 : @geometry scalar) : bool := false.
Definition never1 (g : @geometry scalar) : bool := false.

(** The pairwise merge throws when the geometry to append is the one
    translated to [x = 2]. *)
Definition throws_at_two (g1 g2 : @geometry scalar) : bool :=
  match values (position g2) with
  | Some x :: _ => Qeq_bool x 2
  | _ => false
  end.

(** [translateGeometry] throws on the geometry that sits at [x = 2]. *)
Definition translate_throws_at_two (g : @geometry scalar) : bool :=
  throws_at_two g g.

(** Five cells in a row, for a block type that is merged. *)
Definition five_in_a_row : list (Z * Z * Z) :=
  [(0, 0, 0); (1, 0, 0); (2, 0, 0); (3, 0, 0); (4, 0, 0)].

(** * Properties *)

(** ** The decoder on small inputs *)

(** A 2x1x2 palette grid: flat index [x + z*2]. *)
Example schem_two_by_two :
  getBlocksFromSchem
    (schem_input 2 1 2
       [("minecraft:air", 0); ("minecraft:stone", 1);
        ("minecraft:oak_log[axis=y]", 2)]
       [1; 2; 0; 1])
  = Ok [Some [Some [Some (Block "minecraft:stone" None); Some air];
              Some [Some (Block "minecraft:oak_log" (Some ["axis=y"]));
                    Some (Block "minecraft:stone" None)]]].
Proof. reflexivity. Qed.

(** A 1x1x1 palette grid of air: nothing is collected for rendering. *)
Example schem_of_air :
  Part001.renderSchematic
    (Some (Tag (Some (schem_input 1 1 1 [("minecraft:air", 0)] [0]))))
  = Ok (Sponge, [Some [Some [Some air]]])
  /\ collect_blocks [Some [Some [Some air]]] = Ok [].
Proof. split; reflexivity. Qed.

(** A 2x1x1 legacy grid with Blocks [1, 2] and no Data: stone and grass,
    neither with a [data=] property. *)
Example schematic_stone_grass :
  Part001.renderSchematic
    (Some (Tag (Some (schematic_input 2 1 1 [1; 2] None))))
  = Ok (Legacy, [Some [Some [Some (Block "minecraft:stone" None)];
                       Some [Some (Block "minecraft:grass_block" None)]]])
  /\ collect_blocks [Some [Some [Some (Block "minecraft:stone" None)];
                           Some [Some (Block "minecraft:grass_block" None)]]]
     = Ok [((0, 0, 0)%nat, Block "minecraft:stone" None);
           ((1, 0, 0)%nat, Block "minecraft:grass_block" None)].
Proof. split; reflexivity. Qed.

(** A legacy cell with a data nibble, and a stored byte of [-2]. *)
Example schematic_data_and_signed_byte :
  Part001.getBlocksFromSchematic
    (schematic_input 2 1 1 [35; -2] (Some [14; 0]))
  = Ok [Some [Some [Some (Block "minecraft:white_wool" (Some ["data=14"]))];
              Some [Some (Block "minecraft:structure_block" None)]]].
Proof. reflexivity. Qed.

(** ** Arrays filled by a counting loop *)

Lemma js_set_at_end {A : Type} (v : A) (arr : jsarray A) :
  js_set (List.length arr) v arr = (arr ++ [Some v])%list.
Proof.
  induction arr as [|a arr IH]; simpl; [reflexivity|].
  now rewrite IH.
Qed.

Lemma fill_from {A : Type} (f : nat -> A) (len start : nat) (acc : jsarray A) :
  List.length acc = start ->
  fold_left (fun a i => js_set i (f i) a) (seq start len) acc
  = (acc ++ map (fun i => Some (f i)) (seq start len))%list.
Proof.
  revert start acc.
  induction len as [|len IH]; intros start acc Hlen; subst start; simpl.
  - now rewrite app_nil_r.
  - rewrite js_set_at_end.
    rewrite IH by (rewrite length_app; simpl; lia).
    now rewrite <- app_assoc.
Qed.

(** A loop that assigns slot [i] at iteration [i] builds a dense array. *)
Lemma for_loop_dense {A : Type} (f : nat -> A) (n : num) :
  for_loop n (fun i a => js_set i (f i) a) []
  = map (fun i => Some (f i)) (seq 0 (loop_count n)).
Proof.
  unfold for_loop. now rewrite fill_from.
Qed.

Lemma js_get_dense {A : Type} (f : nat -> A) (n i : nat) :
  (i < n)%nat ->
  js_get (map (fun i => Some (f i)) (seq 0 n)) i = Some (f i).
Proof.
  intros Hi. unfold js_get.
  rewrite nth_error_map, nth_error_seq.
  destruct (Nat.ltb_spec i n); [reflexivity | lia].
Qed.

Lemma js_get_dense_out {A : Type} (f : nat -> A) (n i : nat) :
  (n <= i)%nat ->
  js_get (map (fun i => Some (f i)) (seq 0 n)) i = None.
Proof.
  intros Hi. unfold js_get.
  rewrite nth_error_map, nth_error_seq.
  destruct (Nat.ltb_spec i n); [lia | reflexivity].
Qed.

(** The grid of the three nested loops, cell by cell. *)
Lemma fill_grid_at (cell : nat -> nat -> nat -> block) (w h l : num)
    (x y z : nat) :
  (x < loop_count w)%nat -> (y < loop_count h)%nat -> (z < loop_count l)%nat ->
  grid_at (fill_grid cell w h l) y x z = Some (cell x y z).
Proof.
  intros Hx Hy Hz. unfold fill_grid, grid_at.
  rewrite (for_loop_dense
             (fun y => for_loop w (fun x plane =>
                js_set x (for_loop l (fun z row => js_set z (cell x y z) row) [])
                       plane) []) h).
  rewrite js_get_dense by assumption.
  rewrite (for_loop_dense
             (fun x => for_loop l (fun z row => js_set z (cell x y z) row) []) w).
  rewrite js_get_dense by assumption.
  rewrite (for_loop_dense (fun z => cell x y z) l).
  now rewrite js_get_dense.
Qed.

Lemma fill_grid_outside (cell : nat -> nat -> nat -> block) (w h l : num)
    (x y z : nat) :
  (loop_count w <= x)%nat \/ (loop_count h <= y)%nat
  \/ (loop_count l <= z)%nat ->
  grid_at (fill_grid cell w h l) y x z = None.
Proof.
  intros Hout. unfold fill_grid, grid_at.
  rewrite (for_loop_dense
             (fun y => for_loop w (fun x plane =>
                js_set x (for_loop l (fun z row => js_set z (cell x y z) row) [])
                       plane) []) h).
  destruct (Nat.lt_ge_cases y (loop_count h)) as [Hy|Hy];
    [rewrite js_get_dense by assumption | now rewrite js_get_dense_out].
  rewrite (for_loop_dense
             (fun x => for_loop l (fun z row => js_set z (cell x y z) row) []) w).
  destruct (Nat.lt_ge_cases x (loop_count w)) as [Hx|Hx];
    [rewrite js_get_dense by assumption | now rewrite js_get_dense_out].
  rewrite (for_loop_dense (fun z => cell x y z) l).
  apply js_get_dense_out. lia.
Qed.

(** ** Flat index and grid position *)

Lemma linear_index_defined (w l : Z) (x y z : nat) :
  linear_index (Some w) (Some l) x y z
  = Some (Z.of_nat x + Z.of_nat z * w + Z.of_nat y * w * l).
Proof. reflexivity. Qed.

(** The position read off a flat index is in range and maps back to it. *)
Lemma position_of_index (w h l i : Z) :
  0 < w -> 0 < h -> 0 < l -> 0 <= i < w * h * l ->
  0 <= i mod w < w /\ 0 <= (i / w) mod l < l /\ 0 <= i / (w * l) < h
  /\ i mod w + (i / w) mod l * w + i / (w * l) * w * l = i.
Proof.
  intros Hw Hh Hl Hi.
  assert (Hx := Z.mod_pos_bound i w Hw).
  assert (Hz := Z.mod_pos_bound (i / w) l Hl).
  assert (Hdiv : i / w / l = i / (w * l)) by (apply Z.div_div; lia).
  assert (Hy0 : 0 <= i / (w * l)) by (apply Z.div_pos; nia).
  assert (Hy1 : i / (w * l) < h).
  { apply Z.div_lt_upper_bound; nia. }
  assert (E1 := Z.div_mod i w ltac:(lia)).
  assert (E2 := Z.div_mod (i / w) l ltac:(lia)).
  rewrite Hdiv in E2.
  repeat split; try lia; nia.
Qed.

(** Whatever the innermost body computes from the flat index, the loops
    lay it out in flat order. *)
Lemma fill_grid_follows (cellf : num -> block) (w h l : Z) :
  0 < w -> 0 < h -> 0 < l ->
  follows_flat_order w h l (fun i => cellf (Some i))
    (fill_grid (fun x y z => cellf (linear_index (Some w) (Some l) x y z))
               (Some w) (Some h) (Some l)).
Proof.
  intros Hw Hh Hl.
  assert (Hcell : forall x y z : nat,
             Z.of_nat x < w -> Z.of_nat y < h -> Z.of_nat z < l ->
             grid_at (fill_grid
                        (fun x y z =>
                           cellf (linear_index (Some w) (Some l) x y z))
                        (Some w) (Some h) (Some l)) y x z
             = Some (cellf (Some (Z.of_nat x + Z.of_nat z * w
                                  + Z.of_nat y * w * l)))).
  { intros x y z Hx Hy Hz.
    rewrite fill_grid_at by (simpl; lia).
    now rewrite linear_index_defined. }
  split; [exact Hcell | split].
  - intros i Hi.
    destruct (position_of_index w h l i Hw Hh Hl Hi) as (Hx & Hz & Hy & E).
    rewrite Hcell by (rewrite Z2Nat.id; lia).
    rewrite !Z2Nat.id by lia. now rewrite E.
  - intros x y z Hout. apply fill_grid_outside. simpl. lia.
Qed.

(** ** The grid builder *)

(** A read of a dense array at a natural index is the list's entry. *)
Lemma js_index_nat {A : Type} (arr : list A) (i : nat) :
  js_index arr (Some (Z.of_nat i)) = nth_error arr i.
Proof.
  unfold js_index. destruct (Z.ltb_spec (Z.of_nat i) 0); [lia|].
  now rewrite Nat2Z.id.
Qed.

Lemma data_at_nat (data : option (list Z)) (i : nat) :
  data_at data (Some (Z.of_nat i)) = data_entry data i.
Proof. destruct data as [d|]; [apply js_index_nat | reflexivity]. Qed.

(** The flat index of a cell inside the dimensions is a position of an
    array of [w*h*l] entries. *)
Lemma linear_index_in_range (w h l : Z) (x y z : nat) :
  0 < w -> 0 < h -> 0 < l ->
  Z.of_nat x < w -> Z.of_nat y < h -> Z.of_nat z < l ->
  0 <= Z.of_nat x + Z.of_nat z * w + Z.of_nat y * w * l < w * h * l.
Proof.
  intros Hw Hh Hl Hx Hy Hz. split; [nia|].
  assert (Z.of_nat z * w <= (l - 1) * w) by nia.
  assert (Z.of_nat y * (w * l) <= (h - 1) * (w * l)) by nia.
  nia.
Qed.

(** Reading positions [s, s+1, ...] one by one, and pairing them with the
    entries of a list, is the same when each position reads its entry. *)
Lemma map_positions {A B : Type} (f : nat -> B) (g : nat -> A -> B)
    (entries : list A) (s : nat) :
  (forall i a, nth_error entries i = Some a -> f (s + i)%nat = g (s + i)%nat a) ->
  map f (seq s (List.length entries))
  = map (fun entry => g (fst entry) (snd entry))
        (combine (seq s (List.length entries)) entries).
Proof.
  revert s. induction entries as [|a entries IH]; intros s Hread;
    [reflexivity|].
  cbn [List.length seq combine map fst snd]. f_equal.
  - specialize (Hread 0%nat a eq_refl). now rewrite Nat.add_0_r in Hread.
  - apply IH. intros i b Hi.
    specialize (Hread (S i) b Hi). now rewrite Nat.add_succ_r in Hread.
Qed.

(** From the layout by flat index to the entries of the array itself. *)
Lemma flat_order_holds_array (w h l : Z) (flat : list Z)
    (by_index : Z -> block) (resolve : nat -> Z -> block) (blocks : grid) :
  0 < w -> 0 < h -> 0 < l ->
  Z.of_nat (List.length flat) = w * h * l ->
  (forall i id, nth_error flat i = Some id ->
                by_index (Z.of_nat i) = resolve i id) ->
  follows_flat_order w h l by_index blocks ->
  holds_flat_array w h l flat resolve blocks.
Proof.
  intros Hw Hh Hl Hlen Hres (Hcell & Hback & Hout).
  assert (Hentry : forall (i : nat) (id : Z),
             nth_error flat i = Some id ->
             grid_at blocks (Z.to_nat (Z.of_nat i / (w * l)))
                            (Z.to_nat (Z.of_nat i mod w))
                            (Z.to_nat ((Z.of_nat i / w) mod l))
             = Some (resolve i id)).
  { intros i id Hi.
    assert (Hlt : (i < List.length flat)%nat)
      by (apply nth_error_Some; congruence).
    rewrite Hback by lia. now rewrite (Hres i id Hi). }
  split; [|split; [exact Hentry | split; [|exact Hout]]].
  - intros x y z Hx Hy Hz.
    pose proof (linear_index_in_range w h l x y z Hw Hh Hl Hx Hy Hz) as Hin.
    cbv zeta.
    destruct (nth_error flat
                (Z.to_nat (Z.of_nat x + Z.of_nat z * w + Z.of_nat y * w * l)))
      as [id|] eqn:E.
    + exists id. split; [reflexivity|].
      rewrite (Hcell x y z Hx Hy Hz). f_equal.
      rewrite <- (Hres _ id E). now rewrite Z2Nat.id by lia.
    + apply nth_error_None in E. lia.
  - unfold read_back.
    apply (map_positions
             (fun i => grid_at blocks (Z.to_nat (Z.of_nat i / (w * l)))
                                      (Z.to_nat (Z.of_nat i mod w))
                                      (Z.to_nat ((Z.of_nat i / w) mod l)))
             (fun i id => Some (resolve i id)) flat 0).
    intros i id Hi. cbn [Nat.add]. now apply Hentry.
Qed.

(** C1.  For positive dimensions [(w, h, l)] and a flat id array of
    length [w*h*l], each grid builder (the palette variant and both copies
    of the legacy variant) returns a grid that holds at [(y, x, z)] the
    block resolved from the entry the flat array has at position
    [x + z*w + y*w*l]; the entry at position [i] sits at
    [(i / (w*l), i mod w, (i / w) mod l)], and reading the grid in that
    order gives the blocks of the array's entries in the array's order.
    The legacy block of an entry also takes the entry of the [Data] array
    at the same position. *)
Theorem grid_follows_flat_array (w h l : Z) (pal : palette) (flat : list Z)
    (data : option (list Z)) :
  0 < w -> 0 < h -> 0 < l ->
  Z.of_nat (List.length flat) = w * h * l ->
  (exists blocks,
      getBlocksFromSchem (schem_input w h l pal flat) = Ok blocks
      /\ holds_flat_array w h l flat
           (fun _ id => getBlockData pal (Some id)) blocks)
  /\ (exists blocks,
      Part001.getBlocksFromSchematic (schematic_input w h l flat data)
      = Ok blocks
      /\ holds_flat_array w h l flat
           (fun i id => Part001.legacy_block (Some id) (data_entry data i))
           blocks)
  /\ (exists blocks,
      WebSchematics.getBlocksFromSchematic (schematic_input w h l flat data)
      = Ok blocks
      /\ holds_flat_array w h l flat
           (fun i id => WebSchematics.legacy_block (Some id)
                                                   (data_entry data i))
           blocks).
Proof.
  intros Hw Hh Hl Hlen.
  split; [|split].
  - eexists. split; [reflexivity|].
    apply (flat_order_holds_array w h l flat
             (fun i => getBlockData pal (js_index flat (Some i))));
      try assumption.
    + intros i id Hi. now rewrite js_index_nat, Hi.
    + apply (fill_grid_follows
               (fun index => getBlockData pal (js_index flat index)));
        assumption.
  - eexists. split; [destruct data; reflexivity|].
    replace (optional_array (Data (schematic_input w h l flat data)))
      with data by (destruct data; reflexivity).
    apply (flat_order_holds_array w h l flat
             (fun i => Part001.legacy_block (js_index flat (Some i))
                                            (data_at data (Some i))));
      try assumption.
    + intros i id Hi. now rewrite js_index_nat, data_at_nat, Hi.
    + apply (fill_grid_follows
               (fun index => Part001.legacy_block (js_index flat index)
                                                  (data_at data index)));
        assumption.
  - eexists. split; [destruct data; reflexivity|].
    replace (optional_array (Data (schematic_input w h l flat data)))
      with data by (destruct data; reflexivity).
    apply (flat_order_holds_array w h l flat
             (fun i => WebSchematics.legacy_block (js_index flat (Some i))
                                                  (data_at data (Some i))));
      try assumption.
    + intros i id Hi. now rewrite js_index_nat, data_at_nat, Hi.
    + apply (fill_grid_follows
               (fun index => WebSchematics.legacy_block (js_index flat index)
                                                        (data_at data index)));
        assumption.
Qed.

Lemma grid_follows_flat_array_witness :
  let pal := [("minecraft:air", 0); ("minecraft:stone", 1);
              ("minecraft:dirt", 2)] in
  let flat := [0; 1; 2; 0; 1; 1; 2; 2] in
  let data := Some [0; 0; 3; 0; 0; 0; 0; 5] in
  (exists blocks,
      getBlocksFromSchem (schem_input 2 2 2 pal flat) = Ok blocks
      /\ holds_flat_array 2 2 2 flat
           (fun _ id => getBlockData pal (Some id)) blocks)
  /\ (exists blocks,
      Part001.getBlocksFromSchematic (schematic_input 2 2 2 flat data)
      = Ok blocks
      /\ holds_flat_array 2 2 2 flat
           (fun i id => Part001.legacy_block (Some id) (data_entry data i))
           blocks)
  /\ (exists blocks,
      WebSchematics.getBlocksFromSchematic (schematic_input 2 2 2 flat data)
      = Ok blocks
      /\ holds_flat_array 2 2 2 flat
           (fun i id => WebSchematics.legacy_block (Some id)
                                                   (data_entry data i))
           blocks).
Proof.
  apply (grid_follows_flat_array 2 2 2); [lia | lia | lia | reflexivity].
Defined.

(** The grid of that witness, cell by cell: with [w = l = 2] the entry at
    position [x + 2*z + 4*y] of [[0; 1; 2; 0; 1; 1; 2; 2]] decides the
    cell [(y, x, z)]. *)
Example schem_cells_by_position :
  let pal := [("minecraft:air", 0); ("minecraft:stone", 1);
              ("minecraft:dirt", 2)] in
  match getBlocksFromSchem (schem_input 2 2 2 pal [0; 1; 2; 0; 1; 1; 2; 2]) with
  | Ok blocks =>
      option_map name (grid_at blocks 0 1 0) = Some "minecraft:stone"
      /\ option_map name (grid_at blocks 0 0 1) = Some "minecraft:dirt"
      /\ option_map name (grid_at blocks 0 1 1) = Some "minecraft:air"
      /\ option_map name (grid_at blocks 1 0 0) = Some "minecraft:stone"
      /\ option_map name (grid_at blocks 1 0 1) = Some "minecraft:dirt"
      /\ map (option_map name) (read_back 2 2 blocks 8)
         = map (fun n => Some n)
               ["minecraft:air"; "minecraft:stone"; "minecraft:dirt";
                "minecraft:air"; "minecraft:stone"; "minecraft:stone";
                "minecraft:dirt"; "minecraft:dirt"]
  | Throw _ => False
  end.
Proof. repeat split. Qed.

(** ** Format detection *)

Ltac detect_cases :=
  repeat match goal with
         | f : option (tag _) |- _ => destruct f as [[[?|]]|]
         end;
  cbn; repeat split; intros;
  repeat match goal with
         | H : _ /\ _ |- _ => destruct H
         | H : exists _, _ |- _ => destruct H
         | H : defined _ |- _ => destruct H
         end;
  try discriminate; try congruence; try (unfold defined; eauto).

Lemma detection_rule_part001 : detection_rule Part001.renderSchematic.
Proof. unfold detection_rule. intros w h l pal bd ba data. cbv zeta. detect_cases. Qed.

Lemma detection_rule_src : detection_rule WebSchematics.renderSchematic.
Proof. unfold detection_rule. intros w h l pal bd ba data. cbv zeta. detect_cases. Qed.

(** C2, as the code has it.  In both copies of [renderSchematic] the
    palette branch is selected by the [Palette] field alone: with
    [BlockData] present too the tree is decoded as the palette variant,
    and with [BlockData] missing the decode fails with an invalid-structure
    error, whether or not [Blocks] is present.  Without [Palette], the
    legacy variant is selected exactly when [Blocks] is present, and the
    decode fails with the unknown-format error exactly when [Blocks] is
    absent as well. *)
Theorem format_detection :
  detection_rule Part001.renderSchematic
  /\ detection_rule WebSchematics.renderSchematic.
Proof.
  split; [exact detection_rule_part001 | exact detection_rule_src].
Qed.

(** C2 as stated fails: a tree with [Palette], without [BlockData] and with
    [Blocks] is not decoded as the legacy variant; the decode throws. *)
Lemma palette_without_blockdata_is_not_legacy :
  let c := Compound (int_tag 1) (int_tag 1) (int_tag 1)
                    (Some (Tag (Some [("minecraft:stone", 0)])))
                    None
                    (Some (Tag (Some [1])))
                    None in
  Part001.renderSchematic (Some (Tag (Some c)))
  = Throw "Invalid NBT structure: BlockData field missing or invalid"
  /\ WebSchematics.renderSchematic (Some (Tag (Some c)))
     = Throw "Invalid NBT structure: BlockData field missing or invalid"
  /\ Part001.getBlocksFromSchematic c
     = Ok [Some [Some [Some (Block "minecraft:stone" None)]]].
Proof. repeat split. Qed.

(** ** A flat array that is too short *)

Lemma js_index_past_end {A : Type} (arr : list A) (i : Z) :
  Z.of_nat (List.length arr) <= i -> js_index arr (Some i) = None.
Proof.
  intros Hi. unfold js_index.
  destruct (Z.ltb_spec i 0); [reflexivity|].
  apply nth_error_None. lia.
Qed.

(** The palette resolver maps [undefined] to air. *)
Lemma getBlockData_undefined (pal : palette) : getBlockData pal None = air.
Proof.
  induction pal as [|[key v] pal IH]; simpl; [reflexivity | exact IH].
Qed.

(** C3, as the code has it.  When the flat id array is shorter than
    [w*h*l], no grid builder fails: each returns the complete grid, laid
    out as for a full array, and a cell whose flat index lies past the end
    of the array is resolved from [undefined].  That is the air block in
    the palette variant, a block named "minecraft:air" in the legacy
    decoder that converts the byte ([undefined & 0xFF] is [0]), and a block
    named "minecraft:unknown_undefined" in the copy that looks the stored
    value up as it is. *)
Theorem short_array_is_not_an_error (w h l : Z) (pal : palette)
    (flat : list Z) (data : option (list Z)) :
  0 < w -> 0 < h -> 0 < l ->
  Z.of_nat (List.length flat) < w * h * l ->
  (exists blocks,
      getBlocksFromSchem (schem_input w h l pal flat) = Ok blocks
      /\ follows_flat_order w h l
           (fun i => getBlockData pal (js_index flat (Some i))) blocks
      /\ forall i, Z.of_nat (List.length flat) <= i < w * h * l ->
           grid_at blocks (Z.to_nat (i / (w * l))) (Z.to_nat (i mod w))
                          (Z.to_nat ((i / w) mod l))
           = Some air)
  /\ (exists blocks,
      Part001.getBlocksFromSchematic (schematic_input w h l flat data)
      = Ok blocks
      /\ follows_flat_order w h l
           (fun i => Part001.legacy_block (js_index flat (Some i))
                                          (data_at data (Some i))) blocks
      /\ forall i, Z.of_nat (List.length flat) <= i < w * h * l ->
           grid_at blocks (Z.to_nat (i / (w * l))) (Z.to_nat (i mod w))
                          (Z.to_nat ((i / w) mod l))
           = Some (Block "minecraft:air"
                         (data_property (data_at data (Some i)))))
  /\ (exists blocks,
      WebSchematics.getBlocksFromSchematic (schematic_input w h l flat data)
      = Ok blocks
      /\ follows_flat_order w h l
           (fun i => WebSchematics.legacy_block (js_index flat (Some i))
                                                (data_at data (Some i))) blocks
      /\ forall i, Z.of_nat (List.length flat) <= i < w * h * l ->
           grid_at blocks (Z.to_nat (i / (w * l))) (Z.to_nat (i mod w))
                          (Z.to_nat ((i / w) mod l))
           = Some (Block "minecraft:unknown_undefined"
                         (data_property (data_at data (Some i))))).
Proof.
  intros Hw Hh Hl Hshort.
  split; [|split].
  - eexists. split; [reflexivity|].
    assert (F := fill_grid_follows
                   (fun index => getBlockData pal (js_index flat index))
                   w h l Hw Hh Hl).
    split; [exact F|].
    intros i Hi. destruct F as (_ & F & _).
    rewrite F by lia.
    now rewrite js_index_past_end, getBlockData_undefined by lia.
  - eexists. split; [destruct data; reflexivity|].
    replace (optional_array (Data (schematic_input w h l flat data)))
      with data by (destruct data; reflexivity).
    assert (F := fill_grid_follows
                   (fun index => Part001.legacy_block (js_index flat index)
                                                      (data_at data index))
                   w h l Hw Hh Hl).
    split; [exact F|].
    intros i Hi. destruct F as (_ & F & _).
    rewrite F by lia.
    now rewrite js_index_past_end by lia.
  - eexists. split; [destruct data; reflexivity|].
    replace (optional_array (Data (schematic_input w h l flat data)))
      with data by (destruct data; reflexivity).
    assert (F := fill_grid_follows
                   (fun index => WebSchematics.legacy_block
                                   (js_index flat index) (data_at data index))
                   w h l Hw Hh Hl).
    split; [exact F|].
    intros i Hi. destruct F as (_ & F & _).
    rewrite F by lia.
    now rewrite js_index_past_end by lia.
Qed.

Lemma short_array_is_not_an_error_witness :
  let pal := [("minecraft:stone", 1)] in
  let flat := [1; 1; 1] in
  Z.of_nat (List.length flat) < 2 * 2 * 1
  /\ exists blocks,
      getBlocksFromSchem (schem_input 2 2 1 pal flat) = Ok blocks
      /\ grid_at blocks 1 1 0 = Some air.
Proof.
  split; [reflexivity|].
  destruct (short_array_is_not_an_error 2 2 1 [("minecraft:stone", 1)]
              [1; 1; 1] None)
    as [(blocks & Hrun & _ & Hpast) _]; [lia | lia | lia | reflexivity |].
  exists blocks. split; [exact Hrun|].
  apply (Hpast 3). simpl. lia.
Defined.

(** C3 as stated fails: with one cell and an empty id array each builder
    returns a grid, not an error. *)
Lemma empty_array_yields_a_grid :
  getBlocksFromSchem (schem_input 1 1 1 [("minecraft:stone", 1)] [])
  = Ok [Some [Some [Some air]]]
  /\ Part001.getBlocksFromSchematic (schematic_input 1 1 1 [] None)
     = Ok [Some [Some [Some (Block "minecraft:air" None)]]]
  /\ WebSchematics.getBlocksFromSchematic (schematic_input 1 1 1 [] None)
     = Ok [Some [Some [Some (Block "minecraft:unknown_undefined" None)]]].
Proof. repeat split. Qed.

(** ** Legacy byte normalization *)

Lemma spec_normalize_mod (raw : Z) : spec_normalize raw = raw mod 256.
Proof.
  unfold spec_normalize.
  assert (Hq := Z.quot_rem' raw 256).
  assert (Hb : -256 < Z.rem raw 256 < 256).
  { destruct (Z.le_ge_cases 0 raw).
    - pose proof (Z.rem_bound_pos raw 256); lia.
    - pose proof (Z.rem_bound_pos_neg raw 256); lia. }
  rewrite Z.rem_mod_nonneg by lia.
  replace (Z.rem raw 256 + 256) with (raw + (1 - raw ÷ 256) * 256) by lia.
  apply Z.mod_add. lia.
Qed.

Lemma toInt32_mod_256 (k : Z) : toInt32 (Some k) mod 256 = k mod 256.
Proof.
  unfold toInt32.
  pose proof (Z.div_mod (k + 2 ^ 31) (2 ^ 32) ltac:(lia)) as E.
  replace ((k + 2 ^ 31) mod 2 ^ 32 - 2 ^ 31)
    with (k + (- (2 ^ 24 * ((k + 2 ^ 31) / 2 ^ 32))) * 256) by lia.
  apply Z.mod_add. lia.
Qed.

(** X1.  The decoder of [part_001] computes the specification's formula,
    for every integer: the conversion is [raw mod 256], a value in
    [0 .. 255]. *)
Lemma unsigned_byte_is_spec_normalize (raw : Z) :
  Part001.unsigned_byte (Some raw) = spec_normalize raw
  /\ 0 <= Part001.unsigned_byte (Some raw) <= 255.
Proof.
  assert (E : Part001.unsigned_byte (Some raw) = raw mod 256).
  { unfold Part001.unsigned_byte.
    change 255 with (Z.ones 8).
    destruct (Z.ltb_spec raw 0);
      rewrite Z.land_ones, toInt32_mod_256 by lia; [|reflexivity].
    replace (raw + 256) with (raw + 1 * 256) by lia.
    apply Z.mod_add. lia. }
  rewrite E, spec_normalize_mod.
  pose proof (Z.mod_pos_bound raw 256). lia.
Qed.

(** The stored byte [-1] in [part_001]: id 255. *)
Example unsigned_byte_minus_one :
  Part001.unsigned_byte (Some (-1)) = 255 /\ spec_normalize (-1) = 255.
Proof. split; reflexivity. Qed.

(** C4 fails in [src/webschematics.js].  That copy of the legacy decoder
    looks the stored byte up as it is: the byte [-1], which the
    normalization sends to id 255, is looked up under [-1], misses the
    table and is named "minecraft:unknown_-1"; the copy in [part_001]
    resolves the same input through id 255. *)
Theorem stored_byte_looked_up_unconverted :
  WebSchematics.getBlocksFromSchematic (schematic_input 1 1 1 [-1] None)
  = Ok [Some [Some [Some (Block "minecraft:unknown_-1" None)]]]
  /\ spec_normalize (-1) = 255
  /\ WebSchematics.legacy_block (Some 255) (Some 0)
     = Block "minecraft:unknown_255" None
  /\ Part001.getBlocksFromSchematic (schematic_input 1 1 1 [-1] None)
     = Ok [Some [Some [Some (Part001.legacy_block (Some 255) (Some 0))]]].
Proof. repeat split. Qed.

(** ** Strings *)

Lemma length_append (a b : string) :
  String.length (a ++ b) = (String.length a + String.length b)%nat.
Proof. induction a as [|ch a IH]; simpl; [reflexivity | now rewrite IH]. Qed.

Lemma substring_all (s : string) :
  String.substring 0 (String.length s) s = s.
Proof. induction s as [|ch s IH]; simpl; [reflexivity | now rewrite IH]. Qed.

Lemma substring_head (a b : string) :
  String.substring 0 (String.length a) (a ++ b) = a.
Proof.
  induction a as [|ch a IH]; simpl.
  - now destruct b.
  - now rewrite IH.
Qed.

Lemma substring_skip (a b : string) (n m : nat) :
  String.substring (String.length a + n) m (a ++ b) = String.substring n m b.
Proof. induction a as [|ch a IH]; simpl; [reflexivity | exact IH]. Qed.

Lemma occurs_append (c : ascii) (a b : string) :
  occurs c (a ++ b) <-> occurs c a \/ occurs c b.
Proof.
  induction a as [|ch a IH]; simpl; [tauto | rewrite IH; tauto].
Qed.

Lemma indexOf_lower_bound (c : ascii) (s : string) : -1 <= indexOf c s.
Proof.
  induction s as [|ch s IH]; simpl; [lia|].
  destruct (Ascii.eqb ch c); [lia|].
  destruct (Z.ltb_spec (indexOf c s) 0); lia.
Qed.

Lemma indexOf_absent (c : ascii) (s : string) :
  ~ occurs c s -> indexOf c s = -1.
Proof.
  induction s as [|ch s IH]; simpl; intros Hno; [reflexivity|].
  destruct (Ascii.eqb_spec ch c) as [->|_]; [tauto|].
  rewrite IH by tauto. reflexivity.
Qed.

Lemma indexOf_first (c : ascii) (a b : string) :
  ~ occurs c a ->
  indexOf c (a ++ String c b) = Z.of_nat (String.length a).
Proof.
  induction a as [|ch a IH]; simpl; intros Hno.
  - now rewrite Ascii.eqb_refl.
  - destruct (Ascii.eqb_spec ch c) as [->|_]; [tauto|].
    rewrite IH by tauto.
    destruct (Z.ltb_spec (Z.of_nat (String.length a)) 0); lia.
Qed.

(** The two reads of [substring] that [getBlockData] makes, on a string
    cut in three. *)
Lemma substring_first_part (a b : string) :
  substring (a ++ b) 0 (Z.of_nat (String.length a)) = a.
Proof.
  unfold substring, clamp. rewrite length_append.
  replace (Z.min _ _) with 0 by lia.
  replace (Z.max _ _ - 0) with (Z.of_nat (String.length a)) by lia.
  rewrite Nat2Z.id. apply substring_head.
Qed.

Lemma substring_middle_part (a b c : string) :
  substring (a ++ b ++ c) (Z.of_nat (String.length a))
            (Z.of_nat (String.length a) + Z.of_nat (String.length b)) = b.
Proof.
  unfold substring, clamp. rewrite !length_append.
  replace (Z.min _ _) with (Z.of_nat (String.length a)) by lia.
  replace (Z.max _ _ - _) with (Z.of_nat (String.length b)) by lia.
  rewrite !Nat2Z.id.
  rewrite <- (Nat.add_0_r (String.length a)) at 1.
  rewrite substring_skip. apply substring_head.
Qed.

(** [split] and [join] are inverse, and no piece holds the separator. *)
Lemma split_not_nil (c : ascii) (s : string) : split c s <> [].
Proof.
  induction s as [|ch s IH]; simpl; [discriminate|].
  destruct (Ascii.eqb ch c); [discriminate|].
  destruct (split c s); [contradiction | discriminate].
Qed.

Lemma join_split (c : ascii) (s : string) : join c (split c s) = s.
Proof.
  induction s as [|ch s IH]; simpl; [reflexivity|].
  destruct (Ascii.eqb_spec ch c) as [->|_].
  - pose proof (split_not_nil c s) as Hne.
    destruct (split c s) as [|p ps]; [contradiction|].
    simpl in *. now rewrite IH.
  - pose proof (split_not_nil c s) as Hne.
    destruct (split c s) as [|p ps]; [contradiction|].
    destruct ps; simpl in *; now rewrite <- IH.
Qed.

Lemma split_pieces (c : ascii) (s : string) :
  Forall (fun piece => ~ occurs c piece) (split c s).
Proof.
  induction s as [|ch s IH]; simpl.
  - constructor; [tauto | constructor].
  - destruct (Ascii.eqb_spec ch c) as [->|Hne].
    + constructor; [simpl; tauto | exact IH].
    + destruct (split c s) as [|p ps].
      * constructor; [simpl; tauto | constructor].
      * inversion IH; subst. constructor; [simpl; tauto | assumption].
Qed.

Lemma append_assoc (a b c : string) : (a ++ b) ++ c = a ++ b ++ c.
Proof. induction a as [|ch a IH]; simpl; [reflexivity | now rewrite IH]. Qed.

(** ** The palette resolver *)

(** The scan returns the object of the first entry that carries the id. *)
Lemma getBlockData_first_match (before after : palette) (key : string)
    (id : Z) :
  unmatched before id ->
  getBlockData (before ++ (key, id) :: after)%list (Some id) = block_of_key key.
Proof.
  induction before as [|[k v] before IH]; simpl; intros Hno.
  - now rewrite Z.eqb_refl.
  - destruct (Z.eqb_spec v id) as [->|_].
    + exfalso. apply (Hno k id); [now left | reflexivity].
    + apply IH. intros k' v' Hin. apply (Hno k' v'). now right.
Qed.

(** A key [name[props]rest], the brackets being the first of their kind. *)
Lemma block_of_bracketed_key (n p rest : string) :
  ~ occurs lbracket n -> ~ occurs rbracket n -> ~ occurs rbracket p ->
  block_of_key (n ++ String lbracket (p ++ String rbracket rest))
  = Block n (Some (split comma p)).
Proof.
  intros Hl Hr Hp. unfold block_of_key, includes.
  rewrite (indexOf_first lbracket n _ Hl).
  destruct (Z.leb_spec 0 (Z.of_nat (String.length n))); [|lia].
  rewrite substring_first_part.
  replace (n ++ String lbracket (p ++ String rbracket rest))
    with ((n ++ String lbracket "") ++ p ++ String rbracket rest)
    by (now rewrite append_assoc).
  assert (Hidx : indexOf rbracket
                   ((n ++ String lbracket "") ++ p ++ String rbracket rest)
                 = Z.of_nat (String.length (n ++ String lbracket ""))
                   + Z.of_nat (String.length p)).
  { rewrite <- append_assoc, indexOf_first, length_append; [lia|].
    rewrite !occurs_append. simpl.
    intros [[H1|[H1|[]]]|H1]; [tauto | discriminate | tauto]. }
  rewrite Hidx.
  replace (Z.of_nat (String.length n) + 1)
    with (Z.of_nat (String.length (n ++ String lbracket "")))
    by (rewrite length_append; simpl; lia).
  now rewrite substring_middle_part.
Qed.

Lemma block_of_plain_key (key : string) :
  ~ occurs lbracket key -> block_of_key key = Block key None.
Proof.
  intros Hno. unfold block_of_key, includes.
  now rewrite indexOf_absent.
Qed.

(** C5, as amended.  For a palette key [name[props]] whose brackets are
    that one pair ([name] holds no bracket and [props] no closing bracket),
    the resolver returns the part before the opening bracket as the name
    and the pieces of [props] between commas as the property list (the
    pieces hold no comma and, joined by commas, give [props] back); for a
    key without an opening bracket it returns the whole key as the name
    and no property list at all, which the renderer reads as the empty
    list.  The two keys of the specification resolve accordingly. *)
Theorem palette_key_parsing :
  (forall (before after : palette) (id : Z) (n p : string),
      unmatched before id ->
      ~ occurs lbracket n -> ~ occurs rbracket n -> ~ occurs rbracket p ->
      getBlockData
        (before
         ++ ((n ++ String lbracket (p ++ String rbracket ""))%string, id)
            :: after)%list (Some id)
      = Block n (Some (split comma p)))
  /\ (forall p : string,
      join comma (split comma p) = p
      /\ Forall (fun piece => ~ occurs comma piece) (split comma p))
  /\ (forall (before after : palette) (id : Z) (key : string),
      unmatched before id ->
      ~ occurs lbracket key ->
      getBlockData (before ++ (key, id) :: after)%list (Some id)
      = Block key None
      /\ properties_or_empty
           (getBlockData (before ++ (key, id) :: after)%list (Some id)) = [])
  /\ getBlockData
       [("minecraft:stone", 0);
        ("minecraft:oak_stairs[facing=north,half=bottom]", 1)] (Some 1)
     = Block "minecraft:oak_stairs" (Some ["facing=north"; "half=bottom"])
  /\ getBlockData
       [("minecraft:stone", 0);
        ("minecraft:oak_stairs[facing=north,half=bottom]", 1)] (Some 0)
     = Block "minecraft:stone" None.
Proof.
  split; [|split; [|split; [|split]]].
  - intros before after id n p Hno Hl Hr Hp.
    rewrite getBlockData_first_match by assumption.
    now apply block_of_bracketed_key.
  - intros p. split; [apply join_split | apply split_pieces].
  - intros before after id key Hno Hl.
    rewrite getBlockData_first_match by assumption.
    rewrite block_of_plain_key by assumption. now split.
  - reflexivity.
  - reflexivity.
Qed.

(** C5 as stated fails in two places.  The resolver looks for the first
    closing bracket of the whole key, not for the one that closes the
    suffix: in the key "a]b[c,d]" the closing bracket found is at
    position 1, before the opening bracket at position 3, [substring(4, 1)]
    swaps its arguments, and the property list is the single string "]b["
    instead of "c" and "d".  And for a key without a bracket the
    descriptor has no property list: [properties] is [undefined], not an
    empty list. *)
Lemma stray_bracket_is_taken_for_the_suffix :
  getBlockData [("a]b[c,d]", 5)] (Some 5) = Block "a]b" (Some ["]b["])
  /\ indexOf rbracket "a]b[c,d]" = 1
  /\ indexOf lbracket "a]b[c,d]" = 3
  /\ properties (getBlockData [("a]b[c,d]", 5)] (Some 5))
     <> Some ["c"; "d"]
  /\ properties (getBlockData [("minecraft:stone", 1)] (Some 1)) = None
  /\ properties (getBlockData [("minecraft:stone", 1)] (Some 1)) <> Some [].
Proof. repeat split; discriminate. Qed.

(** ** Block collection in the renderer *)

Lemma js_get_cons {A : Type} (a : option A) (arr : jsarray A) (k : nat) :
  js_get (a :: arr) (S k) = js_get arr k.
Proof. reflexivity. Qed.

(** What the loop over [z] adds: the non-air blocks of the row. *)
Lemma scan_row_entries (x y : nat) (row : jsarray block) :
  forall (z : nat) (acc acc' : blockGrid),
    scan_row x y z row acc = Ok acc' ->
    forall e, In e acc' <->
      In e acc
      \/ exists k b, js_get row k = Some b /\ is_air b = false
                     /\ e = ((x, y, (z + k)%nat), b).
Proof.
  induction row as [|slot row IH]; intros z acc acc' Hrun e; simpl in Hrun.
  - injection Hrun as <-. split; [now left|].
    intros [H|(k & b & Hget & _)]; [exact H|].
    destruct k; discriminate.
  - destruct slot as [b0|]; [|discriminate].
    destruct (is_air b0) eqn:Hair; apply IH with (e := e) in Hrun;
      rewrite Hrun; clear Hrun IH.
    + split; (intros [H|(k & b & Hget & Hb & ->)]; [now left | right]).
      * exists (S k), b. rewrite js_get_cons.
        repeat split; try assumption. f_equal. f_equal. lia.
      * destruct k as [|k].
        -- injection Hget as ->. congruence.
        -- exists k, b. rewrite js_get_cons in Hget.
           repeat split; try assumption. f_equal. f_equal. lia.
    + rewrite in_app_iff. simpl. split.
      * intros [[H|[<-|[]]]|(k & b & Hget & Hb & ->)].
        -- now left.
        -- right. exists 0%nat, b0. repeat split; try assumption.
           f_equal. f_equal. lia.
        -- right. exists (S k), b. rewrite js_get_cons.
           repeat split; try assumption. f_equal. f_equal. lia.
      * intros [H|(k & b & Hget & Hb & ->)]; [now left; left|].
        destruct k as [|k].
        -- injection Hget as ->. left. right. left.
           f_equal. f_equal. lia.
        -- right. exists k, b. rewrite js_get_cons in Hget.
           repeat split; try assumption. f_equal. f_equal. lia.
Qed.

(** What the loop over [x] adds. *)
Lemma scan_plane_entries (y : nat) (plane : jsarray (jsarray block)) :
  forall (x : nat) (acc acc' : blockGrid),
    scan_plane x y plane acc = Ok acc' ->
    forall e, In e acc' <->
      In e acc
      \/ exists i row k b,
           js_get plane i = Some row /\ js_get row k = Some b
           /\ is_air b = false /\ e = (((x + i)%nat, y, k), b).
Proof.
  induction plane as [|slot plane IH]; intros x acc acc' Hrun e;
    simpl in Hrun.
  - injection Hrun as <-. split; [now left|].
    intros [H|(i & row & k & b & Hget & _)]; [exact H|].
    destruct i; discriminate.
  - destruct slot as [row0|]; [|discriminate].
    destruct (scan_row x y 0 row0 acc) as [acc1|] eqn:Hrow; [|discriminate].
    simpl in Hrun.
    apply IH with (e := e) in Hrun. rewrite Hrun. clear Hrun IH.
    rewrite (scan_row_entries _ _ _ _ _ _ Hrow e). clear Hrow.
    split.
    + intros [[H|(k & b & Hget & Hb & ->)]|(i & row & k & b & Hp & Hget & Hb & ->)].
      * now left.
      * right. exists 0%nat, row0, k, b. repeat split; try assumption.
        f_equal. f_equal. f_equal. lia.
      * right. exists (S i), row, k, b. rewrite js_get_cons.
        repeat split; try assumption. f_equal. f_equal. f_equal. lia.
    + intros [H|(i & row & k & b & Hp & Hget & Hb & ->)]; [now left; left|].
      destruct i as [|i].
      * injection Hp as ->. left. right. exists k, b.
        repeat split; try assumption. f_equal. f_equal. f_equal. lia.
      * right. exists i, row, k, b. rewrite js_get_cons in Hp.
        repeat split; try assumption. f_equal. f_equal. f_equal. lia.
Qed.

Lemma grid_at_head (plane : jsarray (jsarray block)) (blocks : grid)
    (x z : nat) :
  grid_at (Some plane :: blocks) 0 x z
  = match js_get plane x with Some row => js_get row z | None => None end.
Proof. reflexivity. Qed.

Lemma grid_at_tail (slot : option (jsarray (jsarray block))) (blocks : grid)
    (j x z : nat) :
  grid_at (slot :: blocks) (S j) x z = grid_at blocks j x z.
Proof. reflexivity. Qed.

(** What the loop over [y] adds. *)
Lemma scan_grid_entries (blocks : grid) :
  forall (y : nat) (acc acc' : blockGrid),
    scan_grid y blocks acc = Ok acc' ->
    forall e, In e acc' <->
      In e acc
      \/ exists j x z b,
           grid_at blocks j x z = Some b /\ is_air b = false
           /\ e = ((x, (y + j)%nat, z), b).
Proof.
  induction blocks as [|slot blocks IH]; intros y acc acc' Hrun e;
    simpl in Hrun.
  - injection Hrun as <-. split; [now left|].
    intros [H|(j & x & z & b & Hget & _)]; [exact H|].
    destruct j; discriminate.
  - destruct slot as [plane0|]; [|discriminate].
    destruct (scan_plane 0 y plane0 acc) as [acc1|] eqn:Hplane;
      [|discriminate].
    simpl in Hrun.
    apply IH with (e := e) in Hrun. rewrite Hrun. clear Hrun IH.
    rewrite (scan_plane_entries _ _ _ _ _ Hplane e). clear Hplane.
    split.
    + intros [[H|(i & row & k & b & Hp & Hget & Hb & ->)]
             |(j & x & z & b & Hget & Hb & ->)].
      * now left.
      * right. exists 0%nat, i, k, b. rewrite grid_at_head, Hp.
        repeat split; try assumption.
        f_equal. f_equal. f_equal. lia.
      * right. exists (S j), x, z, b. rewrite grid_at_tail.
        repeat split; try assumption.
        f_equal. f_equal. f_equal. lia.
    + intros [H|(j & x & z & b & Hget & Hb & ->)]; [now left; left|].
      destruct j as [|j].
      * left. right. rewrite grid_at_head in Hget.
        destruct (js_get plane0 x) as [row|] eqn:Hp; [|discriminate].
        exists x, row, z, b. repeat split; try assumption.
        f_equal. f_equal. f_equal. lia.
      * right. exists j, x, z, b. rewrite grid_at_tail in Hget.
        repeat split; try assumption.
        f_equal. f_equal. f_equal. lia.
Qed.

(** The collected entries are the non-air cells of the grid, each under
    its own coordinate. *)
Lemma collect_blocks_entries (blocks : grid) (entries : blockGrid) :
  collect_blocks blocks = Ok entries ->
  forall x y z b,
    In ((x, y, z), b) entries
    <-> grid_at blocks y x z = Some b /\ is_air b = false.
Proof.
  intros Hrun x y z b.
  rewrite (scan_grid_entries _ _ _ _ Hrun). simpl. split.
  - intros [[]|(j & x' & z' & b' & Hget & Hb & E)].
    injection E as -> -> -> ->. now split.
  - intros [Hget Hb]. right. now exists y, x, z, b.
Qed.

(** A grid without holes is scanned to the end. *)
Lemma scan_row_dense (x y : nat) (cells : list block) :
  forall z acc, exists acc', scan_row x y z (map Some cells) acc = Ok acc'.
Proof.
  induction cells as [|b cells IH]; intros z acc; simpl; [now eexists|].
  destruct (is_air b); apply IH.
Qed.

Lemma scan_plane_dense (y : nat) (rows : list (list block)) :
  forall x acc, exists acc',
    scan_plane x y (map (fun cells => Some (map Some cells)) rows) acc
    = Ok acc'.
Proof.
  induction rows as [|cells rows IH]; intros x acc; simpl; [now eexists|].
  destruct (scan_row_dense x y cells 0%nat acc) as [acc1 ->]. simpl.
  apply IH.
Qed.

Lemma scan_grid_dense (planes : list (list (list block))) :
  forall y acc, exists acc',
    scan_grid y
      (map (fun rows => Some (map (fun cells => Some (map Some cells)) rows))
           planes) acc
    = Ok acc'.
Proof.
  induction planes as [|rows planes IH]; intros y acc; simpl; [now eexists|].
  destruct (scan_plane_dense y rows 0%nat acc) as [acc1 ->]. simpl.
  apply IH.
Qed.

Lemma fill_grid_dense (cell : nat -> nat -> nat -> block) (w h l : num) :
  fill_grid cell w h l
  = map (fun rows => Some (map (fun cells => Some (map Some cells)) rows))
        (map (fun y =>
                map (fun x => map (fun z => cell x y z) (seq 0 (loop_count l)))
                    (seq 0 (loop_count w)))
             (seq 0 (loop_count h))).
Proof.
  unfold fill_grid.
  rewrite (for_loop_dense
             (fun y => for_loop w (fun x plane =>
                js_set x (for_loop l (fun z row => js_set z (cell x y z) row) [])
                       plane) []) h).
  rewrite map_map. apply map_ext. intros y. f_equal.
  rewrite (for_loop_dense
             (fun x => for_loop l (fun z row => js_set z (cell x y z) row) []) w).
  rewrite map_map. apply map_ext. intros x. f_equal.
  rewrite (for_loop_dense (fun z => cell x y z) l).
  now rewrite map_map.
Qed.

(** The renderer's collection loop accepts every grid the builders make. *)
Lemma collect_blocks_of_fill_grid (cell : nat -> nat -> nat -> block)
    (w h l : num) :
  exists entries, collect_blocks (fill_grid cell w h l) = Ok entries.
Proof.
  rewrite fill_grid_dense. apply scan_grid_dense.
Qed.

Lemma getBlockData_unmatched (pal : palette) (id : Z) :
  unmatched pal id -> getBlockData pal (Some id) = air.
Proof.
  induction pal as [|[key v] pal IH]; simpl; intros Hno; [reflexivity|].
  destruct (Z.eqb_spec v id) as [->|_].
  - exfalso. apply (Hno key id); [now left | reflexivity].
  - apply IH. intros k' v' Hin. apply (Hno k' v'). now right.
Qed.

(** C6.  When no entry of the palette carries the id, the resolver returns
    the air block.  Decoding then does not fail: the grid is returned with
    the air block in every cell that holds such an id, and the renderer's
    collection loop runs to the end and files no block under the
    coordinate of such a cell, so nothing is drawn there. *)
Theorem unmatched_id_is_air (pal : palette) (id : Z) :
  unmatched pal id ->
  getBlockData pal (Some id) = air
  /\ forall (w h l : Z) (flat : list Z),
       0 < w -> 0 < h -> 0 < l ->
       exists blocks entries,
         getBlocksFromSchem (schem_input w h l pal flat) = Ok blocks
         /\ collect_blocks blocks = Ok entries
         /\ forall x y z : nat,
              Z.of_nat x < w -> Z.of_nat y < h -> Z.of_nat z < l ->
              js_index flat
                (Some (Z.of_nat x + Z.of_nat z * w + Z.of_nat y * w * l))
              = Some id ->
              grid_at blocks y x z = Some air
              /\ forall b, ~ In ((x, y, z), b) entries.
Proof.
  intros Hno. split; [now apply getBlockData_unmatched|].
  intros w h l flat Hw Hh Hl.
  set (cellf := fun index => getBlockData pal (js_index flat index)).
  destruct (collect_blocks_of_fill_grid
              (fun x y z => cellf (linear_index (Some w) (Some l) x y z))
              (Some w) (Some h) (Some l)) as [entries Hentries].
  eexists. exists entries. split; [reflexivity|]. split; [exact Hentries|].
  intros x y z Hx Hy Hz Hid.
  destruct (fill_grid_follows cellf w h l Hw Hh Hl) as (Hcell & _ & _).
  assert (Hair : grid_at
                   (fill_grid
                      (fun x y z =>
                         cellf (linear_index (Some w) (Some l) x y z))
                      (Some w) (Some h) (Some l)) y x z = Some air).
  { rewrite Hcell by assumption. unfold cellf. rewrite Hid.
    now rewrite getBlockData_unmatched. }
  split; [exact Hair|].
  intros b Hin.
  apply (collect_blocks_entries _ _ Hentries) in Hin.
  destruct Hin as [Hget Hb]. rewrite Hair in Hget.
  injection Hget as <-. discriminate.
Qed.

Lemma unmatched_id_is_air_witness :
  let pal := [("minecraft:stone", 1); ("minecraft:dirt[snowy=false]", 2)] in
  unmatched pal 7 /\ getBlockData pal (Some 7) = air.
Proof.
  assert (Hno : unmatched
                  [("minecraft:stone", 1); ("minecraft:dirt[snowy=false]", 2)]
                  7).
  { intros key v [E|[E|[]]]; injection E as _ <-; discriminate. }
  split; [exact Hno|].
  exact (proj1 (unmatched_id_is_air _ 7 Hno)).
Defined.

(** ** The transform resolver *)

Section TransformProperties.

Context {V M : Type}.
Variable vadd : V -> V -> V.
Variable of_int : Z -> V.
Variable one_half : V.

(** The facing switch adds the table's angle to the vertical-axis
    component, negated for an upside-down block, and touches nothing
    else. *)
Lemma facing_rotation_angle (upsideDown : bool) (r : euler)
    (direction : string) :
  facing_rotation upsideDown r direction
  = Euler (rx r)
          (ry r + (if upsideDown then - facing_angle direction
                   else facing_angle direction))
          (rz r).
Proof.
  unfold facing_rotation, facing_angle, set_ry.
  destruct (String.eqb direction "north"); [reflexivity|].
  destruct (String.eqb direction "east");
    [now destruct upsideDown|].
  destruct (String.eqb direction "south");
    [now destruct upsideDown|].
  destruct (String.eqb direction "west"); [reflexivity|].
  destruct r, upsideDown; simpl; f_equal; lia.
Qed.

(** C7, as the code has it.  On a new mesh and a property list without an
    axis property, [half=top] turns the block by 180 degrees about the
    horizontal x axis ([rotation.x = Math.PI]), not about the vertical
    one; [facing] turns it about the vertical axis by the angle of its
    direction (north [PI/2], east [0], south [-PI/2], west [PI]), negated
    when [half=top] is present; the z component stays [0]. *)
Theorem transform_rotation (g : @geometry V) (mat : M) (x y z : Z)
    (props : list string) :
  find_property "axis=" props = None ->
  let r := rotation (applyTransformations vadd of_int one_half
                       (new_Mesh of_int g mat) x y z props) in
  rx r = (if is_upsideDown props then PI else 0)
  /\ ry r = match find_property "facing=" props with
            | Some facing =>
                if is_upsideDown props
                then - facing_angle (substring_from facing 7)
                else facing_angle (substring_from facing 7)
            | None => 0
            end
  /\ rz r = 0.
Proof.
  intros Haxis. destruct props as [|p props]; [now repeat split|].
  unfold applyTransformations. rewrite Haxis.
  cbv zeta. cbn [rotation new_Mesh].
  destruct (find_property "facing=" (p :: props)) as [facing|].
  - rewrite facing_rotation_angle.
    destruct (is_upsideDown (p :: props)); now repeat split.
  - destruct (is_upsideDown (p :: props)); now repeat split.
Qed.

End TransformProperties.

Lemma transform_rotation_witness :
  let props := ["facing=north"; "half=top"] in
  find_property "axis=" props = None
  /\ rotation (applyTransformations scalar_add scalar_of_int scalar_half
                 (new_Mesh scalar_of_int unit_triangle tt) 0 0 0 props)
     = Euler PI (- (PI / 2)) 0.
Proof.
  split; [reflexivity|].
  destruct (transform_rotation scalar_add scalar_of_int scalar_half
              unit_triangle tt 0 0 0 ["facing=north"; "half=top"]
              eq_refl) as (Hx & Hy & Hz).
  revert Hx Hy Hz.
  destruct (rotation _) as [a b c]. simpl.
  intros -> -> ->. reflexivity.
Defined.

(** C7 as stated fails: [half=top] alone leaves the vertical-axis
    component at [0] and sets the x component to [PI]; with
    [facing=north] the vertical-axis component is [-PI/2], not [PI] plus
    that. *)
Lemma half_top_turns_about_x :
  rotation (applyTransformations scalar_add scalar_of_int scalar_half
              (new_Mesh scalar_of_int unit_triangle tt) 0 0 0 ["half=top"])
  = Euler PI 0 0
  /\ rotation (applyTransformations scalar_add scalar_of_int scalar_half
                 (new_Mesh scalar_of_int unit_triangle tt) 0 0 0
                 ["facing=north"; "half=top"])
     = Euler PI (- (PI / 2)) 0.
Proof. split; reflexivity. Qed.

(** ** The geometry merger *)

Section MergeProperties.

Context {V : Type}.
Variable nan : V.
Variable merge_throws : @geometry V -> @geometry V -> bool.

(** Reading an array three entries at a time gives the array back. *)
Lemma read_triples (l : list V) (n : nat) :
  List.length l = (n * 3)%nat ->
  flat_map (fun i => [nth (i * 3) l nan; nth (i * 3 + 1) l nan;
                      nth (i * 3 + 2) l nan]) (seq 0 n) = l.
Proof.
  revert l. induction n as [|n IH]; intros l Hlen.
  - now destruct l.
  - destruct l as [|a [|b [|c l]]]; try discriminate.
    simpl in Hlen. injection Hlen as Hlen.
    cbn [seq flat_map]. rewrite <- seq_shift, flat_map_concat_map, map_map,
      <- flat_map_concat_map.
    cbn [Nat.mul Nat.add nth app]. do 3 f_equal.
    now apply IH.
Qed.

(** The same, two entries at a time. *)
Lemma read_pairs (l : list V) (n : nat) :
  List.length l = (n * 2)%nat ->
  flat_map (fun i => [nth (i * 2) l nan; nth (i * 2 + 1) l nan]) (seq 0 n)
  = l.
Proof.
  revert l. induction n as [|n IH]; intros l Hlen.
  - now destruct l.
  - destruct l as [|a [|b l]]; try discriminate.
    simpl in Hlen. injection Hlen as Hlen.
    cbn [seq flat_map]. rewrite <- seq_shift, flat_map_concat_map, map_map,
      <- flat_map_concat_map.
    cbn [Nat.mul Nat.add nth app]. do 2 f_equal.
    now apply IH.
Qed.

(** The copy loops of [mergeTwoGeometries] reproduce a well-formed
    buffer. *)
Lemma push_xyz_values (a : option (@attribute V)) :
  whole_items 3 a -> push_xyz nan a = values a.
Proof.
  destruct a as [[arr size]|]; [|reflexivity].
  intros [Hsize [n Hlen]]. simpl in *. subst size.
  unfold push_xyz, values, count, getX, getY, getZ. cbn [array itemSize].
  rewrite Hlen, Nat.div_mul by lia. now apply read_triples.
Qed.

Lemma push_xy_values (a : option (@attribute V)) :
  whole_items 2 a -> push_xy nan a = values a.
Proof.
  destruct a as [[arr size]|]; [|reflexivity].
  intros [Hsize [n Hlen]]. simpl in *. subst size.
  unfold push_xy, values, count, getX, getY. cbn [array itemSize].
  rewrite Hlen, Nat.div_mul by lia. now apply read_pairs.
Qed.

Lemma vertex_count_values (a : option (@attribute V)) :
  whole_items 3 a ->
  (vertex_count a * 3)%nat = List.length (values a).
Proof.
  destruct a as [[arr size]|]; [|reflexivity].
  intros [Hsize [n Hlen]]. simpl in *. subst size.
  unfold vertex_count, values, count. cbn [array itemSize].
  rewrite Hlen, Nat.div_mul by lia. reflexivity.
Qed.

(** The position buffer of the merge, and its vertex count. *)
Lemma merged_positions (g1 g2 : @geometry V) :
  merge_throws g1 g2 = false ->
  well_formed g1 -> well_formed g2 ->
  position (mergeTwoGeometries nan merge_throws g1 g2)
  = Some (Attribute (values (position g1) ++ values (position g2))%list 3)
  /\ vertex_count (position (mergeTwoGeometries nan merge_throws g1 g2))
     = (vertex_count (position g1) + vertex_count (position g2))%nat.
Proof.
  intros Hok (Hp1 & _ & _) (Hp2 & _ & _).
  unfold mergeTwoGeometries. rewrite Hok.
  unfold merge_attributes. cbn [position].
  rewrite !push_xyz_values by assumption. split; [reflexivity|].
  unfold vertex_count at 1, count. cbn [array itemSize].
  rewrite length_app, <- !vertex_count_values by assumption.
  rewrite <- Nat.mul_add_distr_r. apply Nat.div_mul. lia.
Qed.

(** The merged normal and texture buffers: the values of the first
    geometry followed by those of the second, in an attribute of its own
    item size whenever there is a value at all. *)
Lemma merged_normals_and_uvs (g1 g2 : @geometry V) :
  merge_throws g1 g2 = false ->
  well_formed g1 -> well_formed g2 ->
  let m := mergeTwoGeometries nan merge_throws g1 g2 in
  let normals := (values (normal g1) ++ values (normal g2))%list in
  let uvs := (values (uv g1) ++ values (uv g2))%list in
  values (normal m) = normals
  /\ values (uv m) = uvs
  /\ (normals <> [] -> normal m = Some (Attribute normals 3))
  /\ (uvs <> [] -> uv m = Some (Attribute uvs 2)).
Proof.
  intros Hok (_ & Hn1 & Hu1) (_ & Hn2 & Hu2). cbv zeta.
  unfold mergeTwoGeometries. rewrite Hok.
  unfold merge_attributes. cbn [normal uv].
  rewrite !push_xyz_values, !push_xy_values by assumption.
  repeat split.
  - now destruct (values (normal g1) ++ values (normal g2))%list.
  - now destruct (values (uv g1) ++ values (uv g2))%list.
  - now destruct (values (normal g1) ++ values (normal g2))%list.
  - now destruct (values (uv g1) ++ values (uv g2))%list.
Qed.

(** The number of vertices of a well-formed position buffer, counted on
    its values. *)
Lemma vertex_count_length (a : option (@attribute V)) :
  whole_items 3 a ->
  vertex_count a = (List.length (values a) / 3)%nat.
Proof.
  intros Hw. rewrite <- (vertex_count_values a Hw).
  now rewrite Nat.div_mul.
Qed.

(** C8.  When the merge does not throw and both geometries are well
    formed and indexed, the merged geometry holds each attribute buffer
    of the first followed by that of the second: positions, normals and
    texture coordinates.  With [n1] and [n2] the numbers of vertices of
    the two, a third of the length of their position values, the merged
    geometry has [n1 + n2] vertices, and its index buffer is the first's
    indices followed by the second's, each raised by [n1].  For two single
    triangles (3 vertices, indices [0,1,2] each) that is 6 vertices and
    indices [0,1,2,3,4,5]. *)
Theorem merge_concatenates (g1 g2 : @geometry V) (i1 i2 : list Z) :
  merge_throws g1 g2 = false ->
  well_formed g1 -> well_formed g2 ->
  index g1 = Some i1 -> index g2 = Some i2 ->
  let m := mergeTwoGeometries nan merge_throws g1 g2 in
  let n1 := (List.length (values (position g1)) / 3)%nat in
  let n2 := (List.length (values (position g2)) / 3)%nat in
  let normals := (values (normal g1) ++ values (normal g2))%list in
  let uvs := (values (uv g1) ++ values (uv g2))%list in
  position m
  = Some (Attribute (values (position g1) ++ values (position g2))%list 3)
  /\ values (normal m) = normals
  /\ values (uv m) = uvs
  /\ (normals <> [] -> normal m = Some (Attribute normals 3))
  /\ (uvs <> [] -> uv m = Some (Attribute uvs 2))
  /\ vertex_count (position m) = (n1 + n2)%nat
  /\ List.length (values (position m)) = ((n1 + n2) * 3)%nat
  /\ index m = Some (i1 ++ map (fun i => i + Z.of_nat n1) i2)%list
  /\ (n1 = 3%nat -> n2 = 3%nat ->
      i1 = [0; 1; 2] -> i2 = [0; 1; 2] ->
      vertex_count (position m) = 6%nat
      /\ List.length (values (position m)) = 18%nat
      /\ index m = Some [0; 1; 2; 3; 4; 5]).
Proof.
  intros Hok Hw1 Hw2 Hi1 Hi2.
  destruct (merged_positions g1 g2 Hok Hw1 Hw2) as [Hpos Hcount].
  destruct (merged_normals_and_uvs g1 g2 Hok Hw1 Hw2)
    as (Hnormal & Huv & Hnormal_set & Huv_set).
  pose proof (vertex_count_length (position g1) (proj1 Hw1)) as Hc1.
  pose proof (vertex_count_length (position g2) (proj1 Hw2)) as Hc2.
  assert (Hindex : index (mergeTwoGeometries nan merge_throws g1 g2)
                   = Some (i1 ++ map (fun i => i + Z.of_nat
                                        (vertex_count (position g1))) i2)%list).
  { unfold mergeTwoGeometries. rewrite Hok.
    unfold merge_attributes. cbn [index]. now rewrite Hi1, Hi2. }
  assert (Hlen : List.length
                   (values (position (mergeTwoGeometries nan merge_throws
                                        g1 g2)))
                 = ((vertex_count (position g1)
                     + vertex_count (position g2)) * 3)%nat).
  { rewrite Hpos. cbn [values array]. rewrite length_app.
    rewrite <- (vertex_count_values (position g1) (proj1 Hw1)).
    rewrite <- (vertex_count_values (position g2) (proj1 Hw2)). lia. }
  rewrite Hc1, Hc2 in Hcount, Hlen. rewrite Hc1 in Hindex.
  cbv zeta.
  split; [exact Hpos|]. split; [exact Hnormal|]. split; [exact Huv|].
  split; [exact Hnormal_set|]. split; [exact Huv_set|].
  split; [exact Hcount|]. split; [exact Hlen|]. split; [exact Hindex|].
  intros Hn1 Hn2 -> ->.
  rewrite Hcount, Hlen, Hindex, Hn1, Hn2.
  split; [reflexivity | split; reflexivity].
Qed.

(** C10.  When the merge does not throw, the geometries are well formed
    and exactly one of them is indexed, the vertices of both are in the
    merged position buffer, the first's before the second's, and the
    merged index buffer is that of the indexed geometry alone: the first's
    indices as they are, none of which names a vertex of the second, or
    the second's indices raised by the first's vertex count, none of which
    names a vertex of the first. *)
Theorem index_of_one_geometry (g1 g2 : @geometry V) :
  merge_throws g1 g2 = false ->
  well_formed g1 -> well_formed g2 ->
  let m := mergeTwoGeometries nan merge_throws g1 g2 in
  let c1 := Z.of_nat (vertex_count (position g1)) in
  let c2 := Z.of_nat (vertex_count (position g2)) in
  position m
  = Some (Attribute (values (position g1) ++ values (position g2))%list 3)
  /\ Z.of_nat (vertex_count (position m)) = c1 + c2
  /\ (forall i1,
        index g1 = Some i1 -> index g2 = None ->
        Forall (fun i => 0 <= i < c1) i1 ->
        index m = Some i1 /\ ~ references (index m) c1 (c1 + c2))
  /\ (forall i2,
        index g1 = None -> index g2 = Some i2 ->
        Forall (fun i => 0 <= i < c2) i2 ->
        index m = Some (map (fun i => i + c1) i2)
        /\ ~ references (index m) 0 c1).
Proof.
  intros Hok Hw1 Hw2.
  destruct (merged_positions g1 g2 Hok Hw1 Hw2) as [Hpos Hcount].
  cbv zeta. split; [exact Hpos|]. split; [rewrite Hcount; lia|].
  split.
  - intros i1 Hi1 Hi2 Hvalid.
    assert (Hindex : index (mergeTwoGeometries nan merge_throws g1 g2)
                     = Some i1).
    { unfold mergeTwoGeometries. rewrite Hok.
      unfold merge_attributes. cbn [index]. now rewrite Hi1, Hi2. }
    split; [exact Hindex|].
    rewrite Hindex. intros (i & Hin & Hrange).
    rewrite Forall_forall in Hvalid. specialize (Hvalid i Hin). lia.
  - intros i2 Hi1 Hi2 Hvalid.
    assert (Hindex : index (mergeTwoGeometries nan merge_throws g1 g2)
                     = Some (map (fun i => i + Z.of_nat
                                    (vertex_count (position g1))) i2)).
    { unfold mergeTwoGeometries. rewrite Hok.
      unfold merge_attributes. cbn [index]. now rewrite Hi1, Hi2. }
    split; [exact Hindex|].
    rewrite Hindex. intros (i & Hin & Hrange).
    apply in_map_iff in Hin. destruct Hin as (j & <- & Hj).
    rewrite Forall_forall in Hvalid. specialize (Hvalid j Hj). lia.
Qed.

End MergeProperties.

Lemma merge_concatenates_witness :
  let g1 := textured_triangle (0, 0, 0) (1, 0, 0) (0, 1, 0) 1 in
  let g2 := textured_triangle (1, 0, 0) (2, 0, 0) (1, 1, 0) (-1) in
  let m := mergeTwoGeometries None never2 g1 g2 in
  vertex_count (position m) = 6%nat
  /\ index m = Some [0; 1; 2; 3; 4; 5]
  /\ values (position m)
     = map scalar_of_int [0; 0; 0;  1; 0; 0;  0; 1; 0;
                          1; 0; 0;  2; 0; 0;  1; 1; 0]
  /\ normal m
     = Some (Attribute
               (map scalar_of_int [0; 0; 1;  0; 0; 1;  0; 0; 1;
                                   0; 0; -1;  0; 0; -1;  0; 0; -1]) 3)
  /\ uv m
     = Some (Attribute
               (map scalar_of_int [0; 0;  1; 0;  0; 1;
                                   0; 0;  1; 0;  0; 1]) 2).
Proof.
  assert (Hw : forall a b c nz, well_formed (textured_triangle a b c nz)).
  { intros [[? ?] ?] [[? ?] ?] [[? ?] ?] nz.
    repeat split; exists 3%nat; reflexivity. }
  destruct (merge_concatenates None never2
              (textured_triangle (0, 0, 0) (1, 0, 0) (0, 1, 0) 1)
              (textured_triangle (1, 0, 0) (2, 0, 0) (1, 1, 0) (-1))
              [0; 1; 2] [0; 1; 2]
              eq_refl (Hw _ _ _ _) (Hw _ _ _ _) eq_refl eq_refl)
    as (Hpos & _ & _ & Hnormal & Huv & _ & _ & _ & Hsix).
  destruct (Hsix eq_refl eq_refl eq_refl eq_refl) as (Hcount & _ & Hindex).
  cbv zeta. split; [exact Hcount|]. split; [exact Hindex|].
  split; [|split].
  - exact (f_equal values Hpos).
  - apply Hnormal. discriminate.
  - apply Huv. discriminate.
Defined.

Lemma index_of_one_geometry_witness :
  (let m := mergeTwoGeometries None never2 unit_triangle unindexed_triangle in
   index m = Some [0; 1; 2] /\ ~ references (index m) 3 6)
  /\ (let m := mergeTwoGeometries None never2 unindexed_triangle unit_triangle in
      index m = Some [3; 4; 5] /\ ~ references (index m) 0 3).
Proof.
  assert (Hw1 : well_formed unit_triangle)
    by (repeat split; exists 3%nat; reflexivity).
  assert (Hw2 : well_formed unindexed_triangle)
    by (repeat split; exists 3%nat; reflexivity).
  assert (Hvalid : Forall (fun i => 0 <= i < 3) [0; 1; 2])
    by (repeat (apply Forall_cons; [lia|]); apply Forall_nil).
  split.
  - destruct (index_of_one_geometry None never2 unit_triangle
                unindexed_triangle eq_refl Hw1 Hw2) as (_ & _ & Hfirst & _).
    exact (Hfirst [0; 1; 2] eq_refl eq_refl Hvalid).
  - destruct (index_of_one_geometry None never2 unindexed_triangle
                unit_triangle eq_refl Hw2 Hw1) as (_ & _ & _ & Hsecond).
    exact (Hsecond [0; 1; 2] eq_refl eq_refl Hvalid).
Defined.

(** ** Merging the meshes of a block type *)

Section BlockTypeProperties.

Context {V M : Type}.
Variable vadd : V -> V -> V.
Variable of_int : Z -> V.
Variable one_half : V.
Variable nan : V.
Variable merge_throws : @geometry V -> @geometry V -> bool.
Variable translate_throws : @geometry V -> bool.

Lemma map_result_length {A B : Type} (f : A -> result B) (l : list A)
    (out : list B) :
  map_result f l = Ok out -> List.length out = List.length l.
Proof.
  revert out. induction l as [|a l IH]; simpl; intros out Hrun.
  - now injection Hrun as <-.
  - destruct (f a) as [b|]; [|discriminate]. simpl in Hrun.
    destruct (map_result f l) as [bs|]; [|discriminate]. simpl in Hrun.
    injection Hrun as <-. simpl. now rewrite (IH bs).
Qed.

Lemma map_result_each {A B : Type} (f : A -> result B) (l : list A)
    (out : list B) :
  map_result f l = Ok out -> Forall2 (fun a b => f a = Ok b) l out.
Proof.
  revert out. induction l as [|a l IH]; simpl; intros out Hrun.
  - injection Hrun as <-. constructor.
  - destruct (f a) as [b|] eqn:Hfa; [|discriminate]. simpl in Hrun.
    destruct (map_result f l) as [bs|]; [|discriminate]. simpl in Hrun.
    injection Hrun as <-. constructor; [exact Hfa | now apply IH].
Qed.

(** X24.  The fallback of [render].  For an unrotated block type of five
    cells or more, when [mergeGeometries] returns [null], [render] adds the
    meshes it had built for the merge, unmerged: one mesh per cell, in the
    order of the cells, each holding the block type's geometry translated
    to its cell.  Every instance is in the scene. *)
Theorem fallback_adds_every_mesh (cachedGeo : @geometry V) (cachedMat : M)
    (props : list string) (positions : list (Z * Z * Z))
    (meshes : list (@mesh V M)) :
  hasRotation props = false ->
  (5 <= List.length positions)%nat ->
  map_result
    (fun '(x, y, z) =>
       clonedGeo <- translateGeometry vadd nan translate_throws cachedGeo
                      (of_int x) (of_int y) (of_int z) ;;
       Ok (new_Mesh of_int clonedGeo cachedMat))
    positions = Ok meshes ->
  mergeGeometries vadd of_int nan merge_throws translate_throws meshes
  = Ok None ->
  add_block_type vadd of_int one_half nan merge_throws translate_throws
    cachedGeo cachedMat props positions = Ok meshes
  /\ List.length meshes = List.length positions
  /\ Forall2
       (fun '(x, y, z) m =>
          translateGeometry vadd nan translate_throws cachedGeo
            (of_int x) (of_int y) (of_int z) = Ok (mesh_geometry m)
          /\ material m = cachedMat)
       positions meshes.
Proof.
  intros Hrot Hfive Hmeshes Hnull.
  split; [|split; [now apply map_result_length in Hmeshes|]].
  - unfold add_block_type.
    destruct positions as [|p positions]; [simpl in Hfive; lia|].
    rewrite Hrot.
    destruct (Nat.ltb_spec (List.length (p :: positions)) 5); [lia|].
    cbn [orb]. rewrite Hmeshes. cbn [bind]. now rewrite Hnull.
  - apply map_result_each in Hmeshes. clear Hfive Hnull.
    induction Hmeshes as [|[[x y] z] m ps ms Hone _ IH]; constructor.
    + destruct (translateGeometry vadd nan translate_throws cachedGeo
                  (of_int x) (of_int y) (of_int z)) as [g|];
        [|discriminate].
      simpl in Hone. injection Hone as <-. now split.
    + exact IH.
Qed.

(** A pairwise merge that throws is absorbed: the geometry merged so far
    comes back, and [mergeGeometries] never sees the failure. *)
Lemma merge_failure_is_absorbed (geo1 geo2 : @geometry V) :
  merge_throws geo1 geo2 = true ->
  mergeTwoGeometries nan merge_throws geo1 geo2 = geo1.
Proof. intros Hthrow. unfold mergeTwoGeometries. now rewrite Hthrow. Qed.

End BlockTypeProperties.

Lemma fallback_adds_every_mesh_witness :
  exists meshes,
    mergeGeometries scalar_add scalar_of_int None
      never2 translate_throws_at_two meshes = Ok None
    /\ add_block_type scalar_add scalar_of_int scalar_half None
         never2 translate_throws_at_two unit_triangle tt [] five_in_a_row
       = Ok meshes
    /\ List.length meshes = 5%nat.
Proof.
  eexists. split; [|split].
  2: apply (fallback_adds_every_mesh scalar_add scalar_of_int scalar_half
              None never2 translate_throws_at_two unit_triangle tt []
              five_in_a_row);
     [reflexivity | simpl; lia | reflexivity | reflexivity].
  - reflexivity.
  - reflexivity.
Defined.

(** The [try] block of the merge on mismatched attribute presence: of a
    triangle with normals and one without it makes one geometry, the
    normal buffer holding the first's three normals for six vertices. *)
Example mismatched_normals_are_merged :
  let up := map scalar_of_int [0; 0; 1;  0; 0; 1;  0; 0; 1] in
  let with_normals :=
    Geometry (position unit_triangle) (Some (Attribute up 3)) None
             (index unit_triangle) in
  let m := merge_attributes None with_normals unit_triangle in
  vertex_count (position m) = 6%nat
  /\ normal m = Some (Attribute up 3)
  /\ index m = Some [0; 1; 2; 3; 4; 5].
Proof. repeat split. Qed.


(** * Further properties *)

(** ** Outcomes of [renderSchematic] *)

(** The trees [renderSchematic] decodes: valid dimensions, and either
    [Palette] with [BlockData], or no [Palette] and [Blocks]. *)
Definition decodable (c : compound) : Prop :=
  defined (Width c) /\ defined (Height c) /\ defined (Length c)
  /\ ((defined (Palette c) /\ defined (BlockData c))
      \/ (Palette c = None /\ defined (Blocks c))).

(** The messages of the errors the decoder raises itself. *)
Definition named_errors : list string :=
  ["Invalid NBT structure: missing value property";
   "Invalid NBT structure: Width field missing or invalid";
   "Invalid NBT structure: Height field missing or invalid";
   "Invalid NBT structure: Length field missing or invalid";
   "Invalid NBT structure: Palette field missing or invalid";
   "Invalid NBT structure: BlockData field missing or invalid";
   "Invalid NBT structure: Blocks field missing or invalid";
   "Unknown schematic format: missing both Palette/BlockData and Blocks fields"].

Definition outcome_rule
    (render : option (tag compound) -> result (format * grid)) : Prop :=
  forall nbtData,
    ((exists out, render nbtData = Ok out)
     <-> exists c, nbtData = Some (Tag (Some c)) /\ decodable c)
    /\ (forall msg, render nbtData = Throw msg -> In msg named_errors).

Ltac field_cases f := destruct f as [[[?|]]|].

Ltac refute_decodable :=
  let H := fresh in
  intros H; unfold decodable, defined in H; cbn in H;
  repeat match goal with
         | H : _ /\ _ |- _ => destruct H
         | H : _ \/ _ |- _ => destruct H
         | H : exists _, _ |- _ => destruct H
         end;
  congruence.

Ltac outcome_of_tree :=
  split;
  [ split;
    [ intros [out Hrun]; try discriminate Hrun;
      (eexists; split; [reflexivity|];
       unfold decodable, defined; cbn;
       repeat split; eauto 6)
    | intros (c' & Hc & Hd); injection Hc as <-; revert Hd;
      first [ refute_decodable | intros _; eexists; reflexivity ] ]
  | intros msg Hrun; try discriminate Hrun;
    (injection Hrun as <-; cbn; tauto) ].

Lemma outcome_rule_part001 : outcome_rule Part001.renderSchematic.
Proof.
  intros [[[c|]]|].
  2, 3: split; [split; [intros [out Hrun]; discriminate Hrun
                       | intros (c & Hc & _); discriminate Hc]
               | intros msg Hrun; injection Hrun as <-; cbn; tauto].
  destruct c as [W H L P BD B D].
  field_cases W; [|outcome_of_tree..].
  field_cases H; [|outcome_of_tree..].
  field_cases L; [|outcome_of_tree..].
  field_cases P; [field_cases BD | | field_cases B]; outcome_of_tree.
Qed.

Lemma outcome_rule_src : outcome_rule WebSchematics.renderSchematic.
Proof.
  intros [[[c|]]|].
  2, 3: split; [split; [intros [out Hrun]; discriminate Hrun
                       | intros (c & Hc & _); discriminate Hc]
               | intros msg Hrun; injection Hrun as <-; cbn; tauto].
  destruct c as [W H L P BD B D].
  field_cases W; [|outcome_of_tree..].
  field_cases H; [|outcome_of_tree..].
  field_cases L; [|outcome_of_tree..].
  field_cases P; [field_cases BD | | field_cases B]; outcome_of_tree.
Qed.

(** X2.  In both copies, [renderSchematic] hands a grid to the renderer
    exactly for the trees that carry a value with defined [Width],
    [Height] and [Length] and either a defined [Palette] with a defined
    [BlockData], or no [Palette] field and a defined [Blocks]. *)
Theorem decode_succeeds_exactly_on_decodable
    (nbtData : option (tag compound)) :
  ((exists out, Part001.renderSchematic nbtData = Ok out)
   <-> exists c, nbtData = Some (Tag (Some c)) /\ decodable c)
  /\ ((exists out, WebSchematics.renderSchematic nbtData = Ok out)
      <-> exists c, nbtData = Some (Tag (Some c)) /\ decodable c).
Proof.
  split.
  - exact (proj1 (outcome_rule_part001 nbtData)).
  - exact (proj1 (outcome_rule_src nbtData)).
Qed.

(** X3.  Whatever the tree, a failure of [renderSchematic] is one of the
    eight errors the decoder raises itself: the reads of [.value] inside
    the grid builders never meet an absent field, so no [TypeError]
    escapes. *)
Theorem decode_fails_with_named_error (nbtData : option (tag compound))
    (msg : string) :
  Part001.renderSchematic nbtData = Throw msg
  \/ WebSchematics.renderSchematic nbtData = Throw msg ->
  In msg named_errors.
Proof.
  intros [Hrun|Hrun].
  - exact (proj2 (outcome_rule_part001 nbtData) msg Hrun).
  - exact (proj2 (outcome_rule_src nbtData) msg Hrun).
Qed.

Lemma decode_fails_with_named_error_witness :
  Part001.renderSchematic
    (Some (Tag (Some (Compound (int_tag 2) None (int_tag 2)
                               None None (Some (Tag (Some [1]))) None))))
  = Throw "Invalid NBT structure: Height field missing or invalid"
  /\ In "Invalid NBT structure: Height field missing or invalid"
        named_errors.
Proof.
  split; [reflexivity|].
  apply (decode_fails_with_named_error
           (Some (Tag (Some (Compound (int_tag 2) None (int_tag 2)
                               None None (Some (Tag (Some [1]))) None))))).
  left. reflexivity.
Defined.

(** ** Dimensions that are not positive *)

Lemma fill_grid_empty (cell : nat -> nat -> nat -> block) (w h l : num) :
  loop_count w = 0%nat \/ loop_count h = 0%nat \/ loop_count l = 0%nat ->
  (forall y x z, grid_at (fill_grid cell w h l) y x z = None)
  /\ collect_blocks (fill_grid cell w h l) = Ok [].
Proof.
  intros Hzero.
  assert (Hnone : forall y x z, grid_at (fill_grid cell w h l) y x z = None)
    by (intros y x z; apply fill_grid_outside; lia).
  split; [exact Hnone|].
  destruct (collect_blocks_of_fill_grid cell w h l) as [entries Hrun].
  rewrite Hrun. f_equal.
  destruct entries as [|[[[x y] z] b] entries]; [reflexivity|].
  assert (Hin : In ((x, y, z), b) (((x, y, z), b) :: entries)) by now left.
  apply (collect_blocks_entries _ _ Hrun) in Hin.
  destruct Hin as [Hget _]. rewrite Hnone in Hget. discriminate.
Qed.

(** X4.  A width, height or length that is zero or negative is no error:
    every grid builder returns a grid without a single cell, and the
    renderer collects nothing from it. *)
Theorem nonpositive_dimension_gives_empty_grid (w h l : Z) (pal : palette)
    (flat : list Z) (data : option (list Z)) :
  w <= 0 \/ h <= 0 \/ l <= 0 ->
  (exists blocks,
      getBlocksFromSchem (schem_input w h l pal flat) = Ok blocks
      /\ (forall y x z, grid_at blocks y x z = None)
      /\ collect_blocks blocks = Ok [])
  /\ (exists blocks,
      Part001.getBlocksFromSchematic (schematic_input w h l flat data)
      = Ok blocks
      /\ (forall y x z, grid_at blocks y x z = None)
      /\ collect_blocks blocks = Ok [])
  /\ (exists blocks,
      WebSchematics.getBlocksFromSchematic (schematic_input w h l flat data)
      = Ok blocks
      /\ (forall y x z, grid_at blocks y x z = None)
      /\ collect_blocks blocks = Ok []).
Proof.
  intros Hdim.
  assert (Hzero : loop_count (Some w) = 0%nat \/ loop_count (Some h) = 0%nat
                  \/ loop_count (Some l) = 0%nat) by (simpl; lia).
  split; [|split]; eexists;
    (split; [try destruct data; reflexivity|]);
    apply fill_grid_empty; exact Hzero.
Qed.

Lemma nonpositive_dimension_gives_empty_grid_witness :
  (0 <= 0 \/ 3 <= 0 \/ 2 <= 0)
  /\ getBlocksFromSchem (schem_input 0 3 2 [("minecraft:stone", 1)] [1; 1])
     = Ok [Some []; Some []; Some []]
  /\ exists blocks,
       getBlocksFromSchem (schem_input 0 3 2 [("minecraft:stone", 1)] [1; 1])
       = Ok blocks
       /\ collect_blocks blocks = Ok [].
Proof.
  split; [left; lia|]. split; [reflexivity|].
  destruct (nonpositive_dimension_gives_empty_grid 0 3 2
              [("minecraft:stone", 1)] [1; 1] None (or_introl (Z.le_refl 0)))
    as [(blocks & Hrun & _ & Hcollect) _].
  exists blocks. split; assumption.
Defined.

(** ** The palette resolver on every key *)

Lemma occurs_dec (c : ascii) (s : string) : {occurs c s} + {~ occurs c s}.
Proof.
  induction s as [|a s IH]; simpl; [right; tauto|].
  destruct (ascii_dec a c) as [E|N]; [left; now left|].
  destruct IH as [Y|N']; [left; now right | right; tauto].
Qed.

Lemma first_occurrence (c : ascii) (s : string) :
  occurs c s -> exists n r, s = n ++ String c r /\ ~ occurs c n.
Proof.
  induction s as [|a s IH]; simpl; [tauto|].
  destruct (ascii_dec a c) as [->|N].
  - intros _. exists "", s. split; [reflexivity | simpl; tauto].
  - intros [E|Hocc]; [contradiction|].
    destruct (IH Hocc) as (n & r & -> & Hn).
    exists (String a n), r. split; [reflexivity | simpl; tauto].
Qed.

Lemma prefix_append (a b : string) : String.prefix a (a ++ b) = true.
Proof. apply prefix_correct, substring_head. Qed.

Lemma prefix_refl (a : string) : String.prefix a a = true.
Proof. apply prefix_correct, substring_all. Qed.

(** The name built from a key is the key up to its first opening bracket:
    a prefix of the key that holds no opening bracket. *)
Lemma block_of_key_name (key : string) :
  indexOf lbracket (name (block_of_key key)) = -1
  /\ String.prefix (name (block_of_key key)) key = true.
Proof.
  destruct (occurs_dec lbracket key) as [Hocc|Hno].
  - destruct (first_occurrence _ _ Hocc) as (n & r & -> & Hn).
    unfold block_of_key, includes. rewrite (indexOf_first lbracket n r Hn).
    destruct (Z.leb_spec 0 (Z.of_nat (String.length n))); [|lia].
    cbn [name]. rewrite substring_first_part.
    split; [now apply indexOf_absent | apply prefix_append].
  - rewrite block_of_plain_key by assumption. cbn [name].
    split; [now apply indexOf_absent | apply prefix_refl].
Qed.

(** X5.  Whatever the palette and the id, the resolver returns either the
    air block or the block built from a palette key whose entry carries
    the id; the name it returns is a prefix of that key and never holds
    an opening bracket. *)
Theorem resolved_block_comes_from_palette (pal : palette) (blockId : num) :
  indexOf lbracket (name (getBlockData pal blockId)) = -1
  /\ (getBlockData pal blockId = air
      \/ exists key v,
           In (key, v) pal /\ blockId = Some v
           /\ getBlockData pal blockId = block_of_key key
           /\ String.prefix (name (getBlockData pal blockId)) key = true).
Proof.
  induction pal as [|[key v] pal IH]; simpl.
  - split; [reflexivity | now left].
  - unfold strict_eq. destruct blockId as [b|].
    + destruct (Z.eqb_spec v b) as [->|Hne].
      * split; [apply block_of_key_name|].
        right. exists key, b. repeat split; try (now left).
        apply block_of_key_name.
      * destruct IH as [Hname [Hair|(k & w & Hin & Hid & Hres & Hpre)]].
        -- split; [exact Hname | now left].
        -- split; [exact Hname|].
           right. exists k, w. repeat split; try assumption. now right.
    + destruct IH as [Hname [Hair|(k & w & Hin & Hid & _)]];
        [split; [exact Hname | now left] | discriminate].
Qed.

(** X6.  A key whose opening bracket is never closed still resolves: the
    name is the part before the bracket, and the property list is read
    from the start of the key, not from after the bracket: it is the
    comma-split of the name followed by the bracket.  A key with empty
    brackets gets one empty property. *)
Theorem unclosed_bracket_properties (n p : string) :
  ~ occurs lbracket n -> ~ occurs rbracket n -> ~ occurs rbracket p ->
  block_of_key (n ++ String lbracket p)
  = Block n (Some (split comma (n ++ String lbracket "")))
  /\ block_of_key (n ++ String lbracket (String rbracket ""))
     = Block n (Some [""]).
Proof.
  intros Hl Hr Hp. split.
  - unfold block_of_key, includes.
    rewrite (indexOf_first lbracket n p Hl).
    destruct (Z.leb_spec 0 (Z.of_nat (String.length n))); [|lia].
    rewrite substring_first_part.
    rewrite (indexOf_absent rbracket).
    2:{ rewrite occurs_append. simpl.
        intros [H1|[H1|H1]]; [tauto | discriminate | tauto]. }
    do 2 f_equal.
    replace (n ++ String lbracket p)
      with ((n ++ String lbracket "") ++ p) by (now rewrite append_assoc).
    assert (Hlen : String.length (n ++ String lbracket "")
                   = (String.length n + 1)%nat)
      by (rewrite length_append; reflexivity).
    unfold substring, clamp.
    rewrite (length_append (n ++ String lbracket "") p).
    replace (Z.min _ _) with 0 by lia.
    replace (Z.max _ _ - 0)
      with (Z.of_nat (String.length (n ++ String lbracket ""))) by lia.
    rewrite Nat2Z.id. cbn [Z.to_nat].
    now rewrite substring_head.
  - apply (block_of_bracketed_key n "" ""); simpl; tauto.
Qed.

Lemma unclosed_bracket_properties_witness :
  block_of_key "minecraft:oak_stairs[facing=north,half=top"
  = Block "minecraft:oak_stairs" (Some ["minecraft:oak_stairs["])
  /\ block_of_key "minecraft:oak_stairs[]"
     = Block "minecraft:oak_stairs" (Some [""]).
Proof.
  apply (unclosed_bracket_properties "minecraft:oak_stairs"
           "facing=north,half=top").
  - simpl. intros H.
    repeat (destruct H as [H|H]; [discriminate H|]). exact H.
  - simpl. intros H.
    repeat (destruct H as [H|H]; [discriminate H|]). exact H.
  - simpl. intros H.
    repeat (destruct H as [H|H]; [discriminate H|]). exact H.
Defined.

(** ** The legacy tables *)

Lemma unsigned_byte_range (raw : num) :
  0 <= Part001.unsigned_byte raw <= 255.
Proof.
  unfold Part001.unsigned_byte.
  set (v := toInt32 _).
  assert (E : Z.land v 255 = v mod 2 ^ 8)
    by (change 255 with (Z.ones 8); apply Z.land_ones; lia).
  rewrite E. pose proof (Z.mod_pos_bound v (2 ^ 8) ltac:(lia)). lia.
Qed.

(** The table of [part_001] has an entry for every id from 0 to 255 but
    36. *)
Lemma part001_table_covers_bytes (id : Z) :
  0 <= id <= 255 -> id <> 36 ->
  exists n, Part001.createLegacyBlockMap id = Some n.
Proof.
  intros Hrange Hne.
  assert (Hall : forallb
                   (fun k => Nat.eqb k 36
                             || match Part001.createLegacyBlockMap (Z.of_nat k)
                                with Some _ => true | None => false end)
                   (seq 0 256) = true) by (vm_compute; reflexivity).
  rewrite forallb_forall in Hall.
  specialize (Hall (Z.to_nat id)).
  rewrite in_seq, Z2Nat.id in Hall by lia.
  specialize (Hall ltac:(lia)).
  apply orb_true_iff in Hall. destruct Hall as [H36|Hsome].
  - apply Nat.eqb_eq in H36. lia.
  - destruct (Part001.createLegacyBlockMap id) as [n|]; [now exists n|].
    discriminate.
Qed.

(** X7.  In the decoder of [part_001] every stored value, whatever the
    integer, resolves to a name of the table, with one exception: a value
    that converts to id 36, which the table leaves out, is named
    "minecraft:unknown_36".  No other synthesized name can come out; an
    [undefined] value resolves like id 0, to air. *)
Theorem legacy_names_come_from_table (raw blockData : num) :
  (Part001.unsigned_byte raw = 36
   /\ name (Part001.legacy_block raw blockData) = "minecraft:unknown_36"
   \/ Part001.createLegacyBlockMap (Part001.unsigned_byte raw)
      = Some (name (Part001.legacy_block raw blockData)))
  /\ name (Part001.legacy_block None blockData) = "minecraft:air".
Proof.
  split; [|reflexivity].
  destruct (Z.eq_dec (Part001.unsigned_byte raw) 36) as [E|Hne].
  - left. split; [exact E|].
    unfold Part001.legacy_block. cbv zeta. now rewrite E.
  - right.
    destruct (part001_table_covers_bytes _ (unsigned_byte_range raw) Hne)
      as [n Hn].
    unfold Part001.legacy_block. cbv zeta. now rewrite Hn.
Qed.

(** The table of [src/webschematics.js] has no entry outside 0 to 126. *)
Lemma src_table_domain (id : Z) (n : string) :
  WebSchematics.createLegacyBlockMap id = Some n -> 0 <= id <= 126.
Proof.
  intros H. destruct id as [|p|p]; [lia | | discriminate H].
  repeat (destruct p as [p|p|]; cbn in H; try discriminate H; try lia).
Qed.

(** X8.  In the decoder of [src/webschematics.js] a stored value below 0
    or above 126 is never found in the table: the block is named
    "minecraft:unknown_" followed by the value as stored, so the upper
    half of the byte range, which the byte array holds as negative
    numbers, resolves to names such as "minecraft:unknown_-128". *)
Theorem src_bytes_outside_table (raw : Z) (blockData : num) :
  raw < 0 \/ 126 < raw ->
  WebSchematics.legacy_block (Some raw) blockData
  = Block ("minecraft:unknown_" ++ string_of_Z raw) (data_property blockData).
Proof.
  intros Hout. unfold WebSchematics.legacy_block, lookup_num. cbv zeta.
  destruct (WebSchematics.createLegacyBlockMap raw) as [n|] eqn:E;
    [|reflexivity].
  apply src_table_domain in E. lia.
Qed.

Lemma src_bytes_outside_table_witness :
  (-128 < 0 \/ 126 < -128)
  /\ WebSchematics.legacy_block (Some (-128)) (Some 3)
     = Block "minecraft:unknown_-128" (Some ["data=3"]).
Proof.
  split; [left; lia|].
  exact (src_bytes_outside_table (-128) (Some 3) (or_introl eq_refl)).
Defined.

(** * The renderer, step 1 in full: [blockMap] and [blockGrid] *)

(** A value of [blockMap]: [{ blockName, properties, positions }]. *)
Record block_group : Type := BlockGroup {
  blockName : string;
  group_properties : list string;
  positions : list (nat * nat * nat)
}.

(** [blockMap]: a [Map], that is, distinct keys in insertion order. *)
Definition blockMap := list (string * block_group).

Definition push_position (g : block_group) (pos : nat * nat * nat)
  : block_group :=
  BlockGroup (blockName g) (group_properties g) (positions g ++ [pos])%list.

(** [if (!blockMap.has(key)) blockMap.set(key, fresh);
     blockMap.get(key).positions.push(pos)]:
    the entry under [key] receives the position; when there is none,
    [fresh] is appended first. *)
Fixpoint file_under (key : string) (fresh : block_group)
    (pos : nat * nat * nat) (m : blockMap) : blockMap :=
  match m with
  | [] => [(key, push_position fresh pos)]
  | (k, g) :: rest =>
      if String.eqb k key then (k, push_position g pos) :: rest
      else (k, g) :: file_under key fresh pos rest
  end.

(** The block name without its namespace and without a ["waxed_"] prefix:
    [id.substring(id.indexOf(":") + 1)], then [substring(6)] when the
    result starts with ["waxed_"]. *)
Definition colon : ascii := ":"%char.

Definition normalized_name (id : string) : string :=
  let blockName := substring_from id (indexOf colon id + 1) in
  if startsWith "waxed_" blockName then substring_from blockName 6
  else blockName.

Section Grouping.

(** [JSON.stringify] on an array of strings, a built-in taken as given. *)
Variable stringify : list string -> string.

(** [`${blockName}_${JSON.stringify(properties)}`]. *)
Definition block_key (b : block) : string :=
  normalized_name (name b) ++ "_" ++ stringify (properties_or_empty b).

(** The body of the innermost loop, for a block that is not air, on
    [blockMap]. *)
Definition file_block (pos : nat * nat * nat) (b : block) (m : blockMap)
  : blockMap :=
  file_under (block_key b)
    (BlockGroup (normalized_name (name b)) (properties_or_empty b) [])
    pos m.

(** The loops of step 1 on both maps. *)
Fixpoint step1_row (x y z : nat) (row : jsarray block)
    (st : blockMap * blockGrid) : result (blockMap * blockGrid) :=
  match row with
  | [] => Ok st
  | None :: _ =>
      Throw "TypeError: Cannot read properties of undefined (reading 'name')"
  | Some b :: rest =>
      if is_air b then step1_row x y (S z) rest st
      else step1_row x y (S z) rest
             (file_block (x, y, z) b (fst st),
              (snd st ++ [((x, y, z), b)])%list)
  end.

Fixpoint step1_plane (x y : nat) (plane : jsarray (jsarray block))
    (st : blockMap * blockGrid) : result (blockMap * blockGrid) :=
  match plane with
  | [] => Ok st
  | None :: _ =>
      Throw "TypeError: Cannot read properties of undefined (reading 'length')"
  | Some row :: rest =>
      st' <- step1_row x y 0 row st ;; step1_plane (S x) y rest st'
  end.

Fixpoint step1_grid (y : nat) (blocks : grid) (st : blockMap * blockGrid)
  : result (blockMap * blockGrid) :=
  match blocks with
  | [] => Ok st
  | None :: _ =>
      Throw "TypeError: Cannot read properties of undefined (reading 'length')"
  | Some plane :: rest =>
      st' <- step1_plane 0 y plane st ;; step1_grid (S y) rest st'
  end.

Definition render_step1 (blocks : grid) : result (blockMap * blockGrid) :=
  step1_grid 0 blocks ([], []).

(** The groups of a list of collected blocks, filed in order. *)
Definition group_entries (entries : blockGrid) : blockMap :=
  fold_left (fun m e => file_block (fst e) (snd e) m) entries [].

End Grouping.

(** [JSON.stringify] for arrays of strings of printable ASCII characters:
    quotes and backslashes are escaped.  Used in the examples. *)
Definition dquote : ascii := ascii_of_nat 34.
Definition backslash : ascii := ascii_of_nat 92.

Fixpoint json_escape (s : string) : string :=
  match s with
  | EmptyString => EmptyString
  | String a rest =>
      if Ascii.eqb a dquote || Ascii.eqb a backslash
      then String backslash (String a (json_escape rest))
      else String a (json_escape rest)
  end.

Definition json_quote (s : string) : string :=
  String dquote (json_escape s ++ String dquote EmptyString).

Definition json_stringify (l : list string) : string :=
  "[" ++ join comma (map json_quote l) ++ "]".

(** ** Names without namespace *)

Lemma substring_from_skip (a b : string) :
  substring_from (a ++ b) (Z.of_nat (String.length a)) = b.
Proof.
  unfold substring_from, substring, clamp. rewrite length_append.
  replace (Z.min _ _) with (Z.of_nat (String.length a)) by lia.
  replace (Z.max _ _ - _) with (Z.of_nat (String.length b)) by lia.
  rewrite !Nat2Z.id.
  rewrite <- (Nat.add_0_r (String.length a)) at 1.
  rewrite substring_skip. apply substring_all.
Qed.

Lemma substring_from_zero (s : string) : substring_from s 0 = s.
Proof. apply (substring_from_skip "" s). Qed.

(** X9.  The block name the renderer works with is the part of the
    identifier after its first colon, the whole identifier when it has no
    colon, with one leading "waxed_" removed: "ns:waxed_rest" and
    "ns:rest" give the same name, while a name that does not start with
    "waxed_" is kept as it is. *)
Theorem normalized_name_strips_prefixes (ns rest : string) :
  ~ occurs colon ns ->
  normalized_name (ns ++ String colon ("waxed_" ++ rest)) = rest
  /\ (startsWith "waxed_" rest = false ->
      normalized_name (ns ++ String colon rest) = rest
      /\ normalized_name (ns ++ String colon ("waxed_" ++ rest))
         = normalized_name (ns ++ String colon rest))
  /\ (startsWith "waxed_" ns = false -> normalized_name ns = ns).
Proof.
  intros Hns.
  assert (Hafter : forall r,
             substring_from (ns ++ String colon r)
               (indexOf colon (ns ++ String colon r) + 1) = r).
  { intros r. rewrite (indexOf_first colon ns r Hns).
    replace (ns ++ String colon r) with ((ns ++ String colon "") ++ r)
      by (now rewrite append_assoc).
    replace (Z.of_nat (String.length ns) + 1)
      with (Z.of_nat (String.length (ns ++ String colon "")))
      by (rewrite length_append; simpl; lia).
    apply substring_from_skip. }
  assert (Hwaxed : normalized_name (ns ++ String colon ("waxed_" ++ rest))
                   = rest).
  { unfold normalized_name. cbv zeta. rewrite Hafter.
    unfold startsWith. rewrite prefix_append.
    apply (substring_from_skip "waxed_" rest). }
  split; [exact Hwaxed|]. split.
  - intros Hplain.
    assert (E : normalized_name (ns ++ String colon rest) = rest).
    { unfold normalized_name. cbv zeta. rewrite Hafter. now rewrite Hplain. }
    split; [exact E | now rewrite Hwaxed, E].
  - intros Hplain. unfold normalized_name. cbv zeta.
    rewrite (indexOf_absent colon ns Hns). cbn [Z.add].
    rewrite substring_from_zero. now rewrite Hplain.
Qed.

Lemma normalized_name_strips_prefixes_witness :
  normalized_name "minecraft:waxed_copper_block" = "copper_block"
  /\ normalized_name "minecraft:copper_block" = "copper_block"
  /\ normalized_name "stone" = "stone".
Proof.
  assert (Hns : ~ occurs colon "minecraft").
  { simpl. intros H.
    repeat (destruct H as [H|H]; [discriminate H|]). exact H. }
  destruct (normalized_name_strips_prefixes "minecraft" "copper_block" Hns)
    as (Hwaxed & Hplain & _).
  split; [exact Hwaxed|]. split; [exact (proj1 (Hplain eq_refl))|].
  reflexivity.
Defined.

(** ** Collection: holes and coordinates *)

(** A grid in which every slot, at each level, has been assigned. *)
Definition no_holes (blocks : grid) : Prop :=
  Forall (fun p => exists plane, p = Some plane
            /\ Forall (fun r => exists row, r = Some row
                         /\ Forall (fun c => exists b : block, c = Some b) row)
                      plane)
         blocks.

Lemma scan_row_runs (x y : nat) (row : jsarray block) :
  forall z acc,
    (exists acc', scan_row x y z row acc = Ok acc')
    <-> Forall (fun c => exists b : block, c = Some b) row.
Proof.
  induction row as [|[b|] row IH]; intros z acc; simpl.
  - split; [constructor | now eexists].
  - destruct (is_air b); rewrite IH; (split;
      [intros H; constructor; [now exists b | exact H]
      | intros H; now inversion H]).
  - split; [intros [acc' H]; discriminate H|].
    intros H. inversion H as [|? ? [b Hb] _]. discriminate Hb.
Qed.

Lemma scan_plane_runs (y : nat) (plane : jsarray (jsarray block)) :
  forall x acc,
    (exists acc', scan_plane x y plane acc = Ok acc')
    <-> Forall (fun r => exists row, r = Some row
                  /\ Forall (fun c => exists b : block, c = Some b) row)
               plane.
Proof.
  induction plane as [|[row|] plane IH]; intros x acc; simpl.
  - split; [constructor | now eexists].
  - split.
    + intros [acc' Hrun].
      destruct (scan_row x y 0 row acc) as [acc1|] eqn:Hrow;
        [|discriminate Hrun].
      simpl in Hrun. constructor.
      * exists row. split; [reflexivity|].
        apply (scan_row_runs x y row 0%nat acc). now exists acc1.
      * apply (IH (S x) acc1). now exists acc'.
    + intros H. inversion H as [|? ? (row' & E & Hrow) Hrest]; subst.
      injection E as <-.
      apply (scan_row_runs x y row 0%nat acc) in Hrow.
      destruct Hrow as [acc1 ->]. simpl. now apply IH.
  - split; [intros [acc' H]; discriminate H|].
    intros H. inversion H as [|? ? (row & E & _) _]. discriminate E.
Qed.

Lemma scan_grid_runs (blocks : grid) :
  forall y acc,
    (exists acc', scan_grid y blocks acc = Ok acc') <-> no_holes blocks.
Proof.
  unfold no_holes.
  induction blocks as [|[plane|] blocks IH]; intros y acc; simpl.
  - split; [constructor | now eexists].
  - split.
    + intros [acc' Hrun].
      destruct (scan_plane 0 y plane acc) as [acc1|] eqn:Hplane;
        [|discriminate Hrun].
      simpl in Hrun. constructor.
      * exists plane. split; [reflexivity|].
        apply (scan_plane_runs y plane 0%nat acc). now exists acc1.
      * apply (IH (S y) acc1). now exists acc'.
    + intros H. inversion H as [|? ? (plane' & E & Hplane) Hrest]; subst.
      injection E as <-.
      apply (scan_plane_runs y plane 0%nat acc) in Hplane.
      destruct Hplane as [acc1 ->]. simpl. now apply IH.
  - split; [intros [acc' H]; discriminate H|].
    intros H. inversion H as [|? ? (plane & E & _) _]. discriminate E.
Qed.

(** Scan order on coordinates: [p] is visited before [(x, y, z)]. *)
Definition visited_before (x y z : nat) (p : nat * nat * nat) : Prop :=
  let '(x', y', z') := p in
  (y' < y \/ (y' = y /\ (x' < x \/ (x' = x /\ z' < z))))%nat.

Lemma scan_row_distinct (x y : nat) (row : jsarray block) :
  forall z acc acc',
    scan_row x y z row acc = Ok acc' ->
    NoDup (map fst acc) ->
    (forall p, In p (map fst acc) -> visited_before x y z p) ->
    NoDup (map fst acc')
    /\ forall p, In p (map fst acc') ->
         visited_before x y (z + List.length row) p.
Proof.
  induction row as [|[b|] row IH]; intros z acc acc' Hrun Hnd Hbefore;
    simpl in Hrun; [| |discriminate Hrun].
  - injection Hrun as <-. split; [exact Hnd|].
    intros p Hp. specialize (Hbefore p Hp).
    destruct p as [[x' y'] z']. simpl in *. lia.
  - assert (Hnext : forall acc0,
               NoDup (map fst acc0) ->
               (forall p, In p (map fst acc0) -> visited_before x y (S z) p) ->
               scan_row x y (S z) row acc0 = Ok acc' ->
               NoDup (map fst acc')
               /\ forall p, In p (map fst acc') ->
                    visited_before x y (z + List.length (Some b :: row)) p).
    { intros acc0 Hnd0 Hb0 Hrun0.
      destruct (IH (S z) acc0 acc' Hrun0 Hnd0 Hb0) as [H1 H2].
      split; [exact H1|]. intros p Hp. specialize (H2 p Hp).
      destruct p as [[x' y'] z']. simpl in *. lia. }
    destruct (is_air b).
    + apply (Hnext acc); [exact Hnd | | exact Hrun].
      intros p Hp. specialize (Hbefore p Hp).
      destruct p as [[x' y'] z']. simpl in *. lia.
    + apply (Hnext (acc ++ [((x, y, z), b)])%list); [| | exact Hrun].
      * rewrite map_app. simpl.
        apply NoDup_app; [exact Hnd | repeat constructor; simpl; tauto|].
        intros p Hp [<-|[]]. specialize (Hbefore _ Hp). simpl in Hbefore. lia.
      * intros p Hp. rewrite map_app, in_app_iff in Hp. simpl in Hp.
        destruct Hp as [Hp|[<-|[]]]; [|simpl; lia].
        specialize (Hbefore p Hp).
        destruct p as [[x' y'] z']. simpl in *. lia.
Qed.

Lemma scan_plane_distinct (y : nat) (plane : jsarray (jsarray block)) :
  forall x acc acc',
    scan_plane x y plane acc = Ok acc' ->
    NoDup (map fst acc) ->
    (forall p, In p (map fst acc) -> visited_before x y 0 p) ->
    NoDup (map fst acc')
    /\ forall p, In p (map fst acc') ->
         visited_before (x + List.length plane) y 0 p.
Proof.
  induction plane as [|[row|] plane IH]; intros x acc acc' Hrun Hnd Hbefore;
    simpl in Hrun; [| |discriminate Hrun].
  - injection Hrun as <-. split; [exact Hnd|].
    intros p Hp. specialize (Hbefore p Hp).
    destruct p as [[x' y'] z']. simpl in *. lia.
  - destruct (scan_row x y 0 row acc) as [acc1|] eqn:Hrow;
      [|discriminate Hrun].
    simpl in Hrun.
    destruct (scan_row_distinct _ _ _ _ _ _ Hrow Hnd Hbefore) as [Hnd1 Hb1].
    destruct (IH (S x) acc1 acc' Hrun Hnd1) as [H1 H2].
    { intros p Hp. specialize (Hb1 p Hp).
      destruct p as [[x' y'] z']. simpl in *. lia. }
    split; [exact H1|]. intros p Hp. specialize (H2 p Hp).
    destruct p as [[x' y'] z']. simpl in *. lia.
Qed.

Lemma scan_grid_distinct (blocks : grid) :
  forall y acc acc',
    scan_grid y blocks acc = Ok acc' ->
    NoDup (map fst acc) ->
    (forall p, In p (map fst acc) -> visited_before 0 y 0 p) ->
    NoDup (map fst acc').
Proof.
  induction blocks as [|[plane|] blocks IH]; intros y acc acc' Hrun Hnd Hbefore;
    simpl in Hrun; [| |discriminate Hrun].
  - now injection Hrun as <-.
  - destruct (scan_plane 0 y plane acc) as [acc1|] eqn:Hplane;
      [|discriminate Hrun].
    simpl in Hrun.
    destruct (scan_plane_distinct _ _ _ _ _ Hplane Hnd Hbefore) as [Hnd1 Hb1].
    apply (IH (S y) acc1 acc' Hrun Hnd1).
    intros p Hp. specialize (Hb1 p Hp).
    destruct p as [[x' y'] z']. simpl in *. lia.
Qed.

(** X10.  The collection loop of [render] runs to the end exactly on a
    grid without holes; on any hole it throws.  When it succeeds, the
    entries of [blockGrid] are the cells with a block that is not air,
    each under its own coordinate, and no coordinate occurs twice, so no
    entry of the map is overwritten. *)
Theorem collection_files_each_cell_once (blocks : grid) :
  ((exists entries, collect_blocks blocks = Ok entries) <-> no_holes blocks)
  /\ forall entries,
       collect_blocks blocks = Ok entries ->
       NoDup (map fst entries)
       /\ forall x y z b,
            In ((x, y, z), b) entries
            <-> grid_at blocks y x z = Some b /\ is_air b = false.
Proof.
  split; [apply scan_grid_runs|].
  intros entries Hrun. split.
  - apply (scan_grid_distinct blocks 0%nat [] entries Hrun);
      [constructor | intros p []].
  - now apply collect_blocks_entries.
Qed.

(** ** Grouping *)

(** The keys of a list in the order of their first occurrence. *)
Fixpoint first_seen (keys : list string) : list string :=
  match keys with
  | [] => []
  | k :: rest => k :: filter (fun k' => negb (String.eqb k' k)) (first_seen rest)
  end.

Lemma first_seen_In (keys : list string) (k : string) :
  In k (first_seen keys) <-> In k keys.
Proof.
  induction keys as [|a keys IH]; simpl; [tauto|].
  rewrite filter_In, IH.
  destruct (String.eqb_spec k a) as [->|Hne]; simpl; [tauto|].
  split; [tauto|]. intros [E|H]; [congruence | tauto].
Qed.

Lemma first_seen_NoDup (keys : list string) : NoDup (first_seen keys).
Proof.
  induction keys as [|a keys IH]; simpl; constructor.
  - rewrite filter_In, String.eqb_refl. simpl. intros [_ H]. discriminate H.
  - now apply NoDup_filter.
Qed.

Lemma first_seen_snoc (keys : list string) (k : string) :
  first_seen (keys ++ [k])
  = if in_dec string_dec k keys then first_seen keys
    else (first_seen keys ++ [k])%list.
Proof.
  induction keys as [|a keys IH]; simpl; [reflexivity|].
  rewrite IH.
  destruct (string_dec a k) as [->|Hne].
  - destruct (in_dec string_dec k keys); [reflexivity|].
    rewrite filter_app. simpl. rewrite String.eqb_refl. simpl.
    now rewrite app_nil_r.
  - destruct (in_dec string_dec k keys); [reflexivity|].
    rewrite filter_app. simpl.
    destruct (String.eqb_spec k a) as [E|_]; [congruence|]. reflexivity.
Qed.

Lemma file_under_absent (key : string) (fresh : block_group)
    (pos : nat * nat * nat) (m : blockMap) :
  ~ In key (map fst m) ->
  file_under key fresh pos m = (m ++ [(key, push_position fresh pos)])%list.
Proof.
  induction m as [|[k g] m IH]; simpl; intros Hno; [reflexivity|].
  destruct (String.eqb_spec k key) as [E|_]; [tauto|].
  rewrite IH by tauto. reflexivity.
Qed.

Lemma file_under_present (key : string) (fresh : block_group)
    (pos : nat * nat * nat) (m : blockMap) :
  In key (map fst m) ->
  exists m1 g m2,
    m = (m1 ++ (key, g) :: m2)%list /\ ~ In key (map fst m1)
    /\ file_under key fresh pos m
       = (m1 ++ (key, push_position g pos) :: m2)%list.
Proof.
  induction m as [|[k g] m IH]; simpl; intros Hin; [tauto|].
  destruct (String.eqb_spec k key) as [->|Hne].
  - exists [], g, m. simpl. tauto.
  - destruct Hin as [E|Hin]; [congruence|].
    destruct (IH Hin) as (m1 & g' & m2 & -> & Hno & ->).
    exists ((k, g) :: m1), g', m2. simpl. repeat split. tauto.
Qed.

Section GroupingProperties.

Variable stringify : list string -> string.

(** The collected blocks that carry a key. *)
Definition with_key (k : string) (entries : blockGrid) : blockGrid :=
  filter (fun e => String.eqb (block_key stringify (snd e)) k) entries.

(** A group holds the coordinates of the collected blocks with its key,
    in the order in which they were collected, under the name and the
    property list of the first of them. *)
Definition group_of (entries : blockGrid) (kg : string * block_group) : Prop :=
  positions (snd kg) = map fst (with_key (fst kg) entries)
  /\ exists pos0 b0 others,
       with_key (fst kg) entries = ((pos0, b0) :: others)%list
       /\ blockName (snd kg) = normalized_name (name b0)
       /\ group_properties (snd kg) = properties_or_empty b0.

Lemma with_key_snoc (k : string) (entries : blockGrid)
    (e : (nat * nat * nat) * block) :
  with_key k (entries ++ [e])%list
  = (with_key k entries
     ++ if String.eqb (block_key stringify (snd e)) k then [e] else [])%list.
Proof. unfold with_key. now rewrite filter_app. Qed.

Lemma with_key_none (k : string) (entries : blockGrid) :
  ~ In k (map (fun e => block_key stringify (snd e)) entries) ->
  with_key k entries = [].
Proof.
  induction entries as [|e entries IH]; simpl; intros Hno; [reflexivity|].
  destruct (String.eqb_spec (block_key stringify (snd e)) k) as [E|_];
    [tauto|]. apply IH. tauto.
Qed.

Lemma group_entries_snoc (entries : blockGrid)
    (e : (nat * nat * nat) * block) :
  group_entries stringify (entries ++ [e])%list
  = file_block stringify (fst e) (snd e) (group_entries stringify entries).
Proof. unfold group_entries. now rewrite fold_left_app. Qed.

(** The invariant of the grouping loop. *)
Lemma group_entries_invariant (entries : blockGrid) :
  map fst (group_entries stringify entries)
  = first_seen (map (fun e => block_key stringify (snd e)) entries)
  /\ Forall (group_of entries) (group_entries stringify entries).
Proof.
  induction entries as [|e entries [IHkeys IHgroups]] using rev_ind.
  - split; constructor.
  - rewrite group_entries_snoc, map_app.
    change (map (fun e0 => block_key stringify (snd e0)) [e])
      with [block_key stringify (snd e)].
    rewrite first_seen_snoc.
    set (k := block_key stringify (snd e)) in *.
    set (m := group_entries stringify entries) in *.
    set (keys := map (fun e => block_key stringify (snd e)) entries) in *.
    unfold file_block. fold k.
    assert (Hnd : NoDup (map fst m))
      by (rewrite IHkeys; apply first_seen_NoDup).
    destruct (in_dec string_dec k keys) as [Hin|Hno].
    + assert (Hin' : In k (map fst m))
        by (rewrite IHkeys; now apply first_seen_In).
      destruct (file_under_present k
                  (BlockGroup (normalized_name (name (snd e)))
                              (properties_or_empty (snd e)) [])
                  (fst e) m Hin') as (m1 & g & m2 & Em & Hm1 & ->).
      rewrite Em in IHkeys, IHgroups, Hnd.
      split; [rewrite <- IHkeys, !map_app; reflexivity|].
      rewrite map_app in Hnd. simpl in Hnd.
      apply NoDup_remove_2 in Hnd. rewrite in_app_iff in Hnd.
      apply Forall_app in IHgroups. destruct IHgroups as [G1 G2].
      inversion G2 as [|? ? [Gpos (pos0 & b0 & others & Gw & Gn & Gp)] G2'];
        subst.
      assert (Hother : forall kg,
                 In (fst kg) (map fst m1) \/ In (fst kg) (map fst m2) ->
                 group_of entries kg -> group_of (entries ++ [e])%list kg).
      { intros [k' g'] Hk'. unfold group_of. simpl fst. simpl snd.
        rewrite with_key_snoc. fold k.
        destruct (String.eqb_spec k k') as [<-|_]; [tauto|].
        now rewrite app_nil_r. }
      apply Forall_app. split; [|constructor].
      * rewrite Forall_forall in G1 |- *. intros kg Hkg.
        apply Hother; [left; now apply in_map | now apply G1].
      * unfold group_of. simpl fst. simpl snd. simpl in Gpos, Gw.
        rewrite with_key_snoc. fold k. rewrite String.eqb_refl.
        cbn [positions push_position blockName group_properties].
        rewrite map_app, Gpos. split; [reflexivity|].
        exists pos0, b0, (others ++ [e])%list.
        rewrite Gw. repeat split; assumption.
      * rewrite Forall_forall in G2' |- *. intros kg Hkg.
        apply Hother; [right; now apply in_map | now apply G2'].
    + assert (Hno' : ~ In k (map fst m))
        by (rewrite IHkeys; now rewrite first_seen_In).
      rewrite file_under_absent by assumption.
      split; [rewrite map_app, IHkeys; reflexivity|].
      apply Forall_app. split; [|constructor; [|constructor]].
      * rewrite Forall_forall in IHgroups |- *. intros [k' g'] Hkg.
        specialize (IHgroups _ Hkg). unfold group_of in *.
        simpl fst in *. simpl snd in *.
        rewrite with_key_snoc. fold k.
        destruct (String.eqb_spec k k') as [<-|_].
        -- exfalso. apply Hno'. now apply (in_map fst _ _ Hkg).
        -- now rewrite app_nil_r.
      * unfold group_of. simpl fst. simpl snd.
        rewrite with_key_snoc. fold k. rewrite String.eqb_refl.
        rewrite (with_key_none k entries Hno). simpl.
        split; [reflexivity|].
        exists (fst e), (snd e), []. now destruct e.
Qed.

End GroupingProperties.

Section Step1Properties.

Variable stringify : list string -> string.

Lemma scan_row_from_empty (x y : nat) (row : jsarray block) :
  forall z acc,
    scan_row x y z row acc
    = (added <- scan_row x y z row [] ;; Ok (acc ++ added)%list).
Proof.
  induction row as [|[b|] row IH]; intros z acc; simpl.
  - now rewrite app_nil_r.
  - destruct (is_air b); [apply IH|].
    rewrite (IH (S z) (acc ++ [((x, y, z), b)])%list).
    rewrite (IH (S z) [((x, y, z), b)]).
    destruct (scan_row x y (S z) row []); simpl; [|reflexivity].
    now rewrite <- app_assoc.
  - reflexivity.
Qed.

Lemma step1_row_collects (x y : nat) (row : jsarray block) :
  forall z m acc,
    step1_row stringify x y z row (m, acc)
    = (added <- scan_row x y z row [] ;;
       Ok (fold_left (fun m e => file_block stringify (fst e) (snd e) m)
                     added m,
           (acc ++ added)%list)).
Proof.
  induction row as [|[b|] row IH]; intros z m acc; simpl.
  - now rewrite app_nil_r.
  - destruct (is_air b); [apply IH|].
    rewrite IH. rewrite (scan_row_from_empty x y row (S z) [((x, y, z), b)]).
    destruct (scan_row x y (S z) row []); simpl; [|reflexivity].
    now rewrite <- app_assoc.
  - reflexivity.
Qed.

Lemma scan_plane_from_empty (y : nat) (plane : jsarray (jsarray block)) :
  forall x acc,
    scan_plane x y plane acc
    = (added <- scan_plane x y plane [] ;; Ok (acc ++ added)%list).
Proof.
  induction plane as [|[row|] plane IH]; intros x acc; simpl.
  - now rewrite app_nil_r.
  - rewrite (scan_row_from_empty x y row 0%nat acc).
    destruct (scan_row x y 0 row []) as [added|]; simpl; [|reflexivity].
    rewrite (IH (S x) (acc ++ added)%list), (IH (S x) added).
    destruct (scan_plane (S x) y plane []); simpl; [|reflexivity].
    now rewrite <- app_assoc.
  - reflexivity.
Qed.

Lemma step1_plane_collects (y : nat) (plane : jsarray (jsarray block)) :
  forall x m acc,
    step1_plane stringify x y plane (m, acc)
    = (added <- scan_plane x y plane [] ;;
       Ok (fold_left (fun m e => file_block stringify (fst e) (snd e) m)
                     added m,
           (acc ++ added)%list)).
Proof.
  induction plane as [|[row|] plane IH]; intros x m acc; simpl.
  - now rewrite app_nil_r.
  - rewrite step1_row_collects.
    destruct (scan_row x y 0 row []) as [added|]; simpl; [|reflexivity].
    rewrite IH, (scan_plane_from_empty y plane (S x) added).
    destruct (scan_plane (S x) y plane []); simpl; [|reflexivity].
    now rewrite fold_left_app, <- app_assoc.
  - reflexivity.
Qed.

Lemma scan_grid_from_empty (blocks : grid) :
  forall y acc,
    scan_grid y blocks acc
    = (added <- scan_grid y blocks [] ;; Ok (acc ++ added)%list).
Proof.
  induction blocks as [|[plane|] blocks IH]; intros y acc; simpl.
  - now rewrite app_nil_r.
  - rewrite (scan_plane_from_empty y plane 0%nat acc).
    destruct (scan_plane 0 y plane []) as [added|]; simpl; [|reflexivity].
    rewrite (IH (S y) (acc ++ added)%list), (IH (S y) added).
    destruct (scan_grid (S y) blocks []); simpl; [|reflexivity].
    now rewrite <- app_assoc.
  - reflexivity.
Qed.

Lemma step1_grid_collects (blocks : grid) :
  forall y m acc,
    step1_grid stringify y blocks (m, acc)
    = (added <- scan_grid y blocks [] ;;
       Ok (fold_left (fun m e => file_block stringify (fst e) (snd e) m)
                     added m,
           (acc ++ added)%list)).
Proof.
  induction blocks as [|[plane|] blocks IH]; intros y m acc; simpl.
  - now rewrite app_nil_r.
  - rewrite step1_plane_collects.
    destruct (scan_plane 0 y plane []) as [added|]; simpl; [|reflexivity].
    rewrite IH, (scan_grid_from_empty blocks (S y) added).
    destruct (scan_grid (S y) blocks []); simpl; [|reflexivity].
    now rewrite fold_left_app, <- app_assoc.
  - reflexivity.
Qed.

(** Both maps of step 1 come from one pass: [blockGrid] is what
    [collect_blocks] gathers, and [blockMap] files those blocks in the
    same order. *)
Lemma render_step1_collects (blocks : grid) :
  render_step1 stringify blocks
  = (entries <- collect_blocks blocks ;;
     Ok (group_entries stringify entries, entries)).
Proof.
  unfold render_step1, collect_blocks. now rewrite step1_grid_collects.
Qed.

(** The number of coordinates held by the groups: the [totalBlocks] of the
    statistics event. *)
Definition total_positions (m : blockMap) : nat :=
  list_sum (map (fun kg => List.length (positions (snd kg))) m).

Lemma file_under_total (key : string) (fresh : block_group)
    (pos : nat * nat * nat) (m : blockMap) :
  positions fresh = [] ->
  total_positions (file_under key fresh pos m) = S (total_positions m).
Proof.
  intros Hfresh. unfold total_positions.
  induction m as [|[k g] m IH]; simpl.
  - rewrite Hfresh. reflexivity.
  - destruct (String.eqb k key); simpl.
    + rewrite length_app. simpl. lia.
    + rewrite IH. lia.
Qed.

Lemma group_entries_total (entries : blockGrid) :
  total_positions (group_entries stringify entries) = List.length entries.
Proof.
  induction entries as [|e entries IH] using rev_ind; [reflexivity|].
  rewrite group_entries_snoc. unfold file_block.
  rewrite file_under_total by reflexivity.
  rewrite IH, length_app. simpl. lia.
Qed.

(** X11.  When step 1 of [render] succeeds, [blockMap] partitions the
    collected blocks by key: its keys are pairwise distinct and stand in
    the order in which they were first met; each group holds, in scan
    order, exactly the coordinates of the collected blocks with its key,
    under the name and the property list of the first of them; every
    collected block is in the group of its key. *)
Theorem step1_groups_by_key (blocks : grid) (m : blockMap)
    (entries : blockGrid) :
  render_step1 stringify blocks = Ok (m, entries) ->
  collect_blocks blocks = Ok entries
  /\ NoDup (map fst m)
  /\ map fst m = first_seen (map (fun e => block_key stringify (snd e)) entries)
  /\ Forall (group_of stringify entries) m
  /\ forall pos b,
       In (pos, b) entries ->
       exists g, In (block_key stringify b, g) m /\ In pos (positions g).
Proof.
  rewrite render_step1_collects.
  destruct (collect_blocks blocks) as [entries'|]; [|discriminate].
  simpl. intros E. injection E as <- <-.
  destruct (group_entries_invariant stringify entries') as [Hkeys Hgroups].
  split; [reflexivity|].
  split; [rewrite Hkeys; apply first_seen_NoDup|].
  split; [exact Hkeys|]. split; [exact Hgroups|].
  intros pos b Hin.
  assert (Hk : In (block_key stringify b)
                  (map fst (group_entries stringify entries'))).
  { rewrite Hkeys, first_seen_In.
    apply (in_map (fun e => block_key stringify (snd e)) _ _ Hin). }
  apply in_map_iff in Hk. destruct Hk as ([k g] & Ek & Hkg).
  simpl in Ek. subst k. exists g. split; [exact Hkg|].
  rewrite Forall_forall in Hgroups.
  destruct (Hgroups _ Hkg) as [Hpos _]. simpl in Hpos. rewrite Hpos.
  change pos with (fst (pos, b)). apply in_map.
  unfold with_key. rewrite filter_In. split; [exact Hin|].
  simpl. apply String.eqb_refl.
Qed.

(** X12.  The total reported after grouping, the sum of the groups'
    position counts, is the number of collected blocks: every cell that
    is not air is counted once, whatever the keys. *)
Theorem step1_total_is_block_count (blocks : grid) (m : blockMap)
    (entries : blockGrid) :
  render_step1 stringify blocks = Ok (m, entries) ->
  total_positions m = List.length entries
  /\ (List.length m <= List.length entries)%nat.
Proof.
  rewrite render_step1_collects.
  destruct (collect_blocks blocks) as [entries'|]; [|discriminate].
  simpl. intros E. injection E as <- <-.
  split; [apply group_entries_total|].
  destruct (group_entries_invariant stringify entries') as [Hkeys Hgroups].
  rewrite <- (length_map fst), Hkeys.
  rewrite <- (length_map (fun e => block_key stringify (snd e)) entries').
  generalize (map (fun e => block_key stringify (snd e)) entries').
  intros keys. induction keys as [|k keys IH]; simpl; [lia|].
  pose proof (filter_length_le
                (fun k' => negb (String.eqb k' k)) (first_seen keys)).
  lia.
Qed.

End Step1Properties.

(** A 2x1x2 grid: stone and air in the first row, dirt and waxed stone in
    the second. *)
Definition demo_grid : grid :=
  [Some [Some [Some (Block "minecraft:stone" None); Some air];
         Some [Some (Block "minecraft:dirt" None);
               Some (Block "minecraft:waxed_stone" None)]]].

Definition demo_entries : blockGrid :=
  [((0, 0, 0)%nat, Block "minecraft:stone" None);
   ((1, 0, 0)%nat, Block "minecraft:dirt" None);
   ((1, 0, 1)%nat, Block "minecraft:waxed_stone" None)].

Definition demo_groups : blockMap :=
  [("stone_[]", BlockGroup "stone" [] [(0, 0, 0)%nat; (1, 0, 1)%nat]);
   ("dirt_[]", BlockGroup "dirt" [] [(1, 0, 0)%nat])].

Lemma step1_groups_by_key_witness :
  render_step1 json_stringify demo_grid = Ok (demo_groups, demo_entries)
  /\ map fst demo_groups
     = first_seen (map (fun e => block_key json_stringify (snd e))
                       demo_entries)
  /\ Forall (group_of json_stringify demo_entries) demo_groups.
Proof.
  split; [reflexivity|].
  destruct (step1_groups_by_key json_stringify demo_grid demo_groups
              demo_entries eq_refl) as (_ & _ & Hkeys & Hgroups & _).
  split; assumption.
Defined.

Lemma step1_total_is_block_count_witness :
  render_step1 json_stringify demo_grid = Ok (demo_groups, demo_entries)
  /\ total_positions demo_groups = 3%nat.
Proof.
  split; [reflexivity|].
  exact (proj1 (step1_total_is_block_count json_stringify demo_grid
                  demo_groups demo_entries eq_refl)).
Defined.

(** * The transform resolver on every property list *)

(** The turn about the vertical axis that the facing rule asks for. *)
Definition facing_turn (props : list string) : angle :=
  match find_property "facing=" props with
  | Some facing =>
      if is_upsideDown props then - facing_angle (substring_from facing 7)
      else facing_angle (substring_from facing 7)
  | None => 0
  end.

(** The turn about the x axis that the half rule asks for. *)
Definition half_turn (props : list string) : angle :=
  if is_upsideDown props then PI else 0.

Lemma find_none_of_hasRotation (props : list string) :
  hasRotation props = false ->
  find_property "half=" props = None
  /\ find_property "facing=" props = None
  /\ find_property "type=" props = None
  /\ find_property "axis=" props = None.
Proof.
  unfold hasRotation, find_property.
  induction props as [|p props IH]; simpl; [tauto|].
  intros H. apply orb_false_iff in H. destruct H as [Hp Hrest].
  apply orb_false_iff in Hp. destruct Hp as [Hp Htype].
  apply orb_false_iff in Hp. destruct Hp as [Hp Hhalf].
  apply orb_false_iff in Hp. destruct Hp as [Hfacing Haxis].
  rewrite Hfacing, Haxis, Hhalf, Htype. now apply IH.
Qed.

Section TransformComposition.

Context {V M : Type}.
Variable vadd : V -> V -> V.
Variable of_int : Z -> V.
Variable one_half : V.

(** X13.  A block type that [render] classifies as unrotated (no
    property starts with "facing=", "axis=", "half=" or "type=") would
    only be placed by [applyTransformations]: the mesh goes to the cell's
    coordinates, and its rotation, geometry and material are untouched.
    The merge branch, which translates the geometry to the cell and
    applies nothing else, loses no transformation. *)
Theorem unrotated_block_is_only_placed (m : @mesh V M) (x y z : Z)
    (props : list string) :
  hasRotation props = false ->
  applyTransformations vadd of_int one_half m x y z props
  = Mesh (mesh_geometry m) (material m)
         (Vec3 (of_int x) (of_int y) (of_int z)) (rotation m).
Proof.
  intros Hrot.
  destruct (find_none_of_hasRotation props Hrot)
    as (Hhalf & Hfacing & Htype & Haxis).
  unfold applyTransformations, is_upsideDown.
  destruct props as [|p props]; [reflexivity|].
  rewrite Hhalf, Hfacing, Htype, Haxis. reflexivity.
Qed.

(** X14.  An axis property is applied last and overwrites what the
    other rules wrote: with "axis=y" the turn about the vertical axis is
    0 whatever the facing, with "axis=z" the turn about x is [PI/2]
    whatever the half, and with "axis=x" the turn about z is [PI/2] while
    the half and facing turns stay.  Any other axis value changes
    nothing. *)
Theorem axis_overwrites_rotation (g : @geometry V) (mat : M) (x y z : Z)
    (props : list string) (axis : string) :
  find_property "axis=" props = Some axis ->
  let r := rotation (applyTransformations vadd of_int one_half
                       (new_Mesh of_int g mat) x y z props) in
  let direction := substring_from axis 5 in
  (direction = "y" -> r = Euler (half_turn props) 0 0)
  /\ (direction = "z" -> r = Euler (PI / 2) (facing_turn props) 0)
  /\ (direction = "x" ->
      r = Euler (half_turn props) (facing_turn props) (PI / 2))
  /\ (direction <> "x" -> direction <> "y" -> direction <> "z" ->
      r = Euler (half_turn props) (facing_turn props) 0).
Proof.
  intros Haxis.
  destruct props as [|p props]; [discriminate Haxis|].
  unfold applyTransformations. rewrite Haxis.
  cbv zeta. cbn [rotation new_Mesh].
  unfold facing_turn, half_turn, axis_rotation.
  set (up := is_upsideDown (p :: props)).
  set (d := substring_from axis 5).
  assert (Hbase :
            match find_property "facing=" (p :: props) with
            | Some facing =>
                facing_rotation up
                  (if up then set_rx (Euler 0 0 0) PI else Euler 0 0 0)
                  (substring_from facing 7)
            | None => if up then set_rx (Euler 0 0 0) PI else Euler 0 0 0
            end
            = Euler (if up then PI else 0)
                    (match find_property "facing=" (p :: props) with
                     | Some facing =>
                         if up then - facing_angle (substring_from facing 7)
                         else facing_angle (substring_from facing 7)
                     | None => 0
                     end) 0).
  { destruct (find_property "facing=" (p :: props)) as [facing|].
    - rewrite facing_rotation_angle. now destruct up.
    - now destruct up. }
  rewrite Hbase. clear Hbase.
  repeat split.
  - intros ->. reflexivity.
  - intros ->. reflexivity.
  - intros ->. reflexivity.
  - intros Hx Hy Hz.
    destruct (String.eqb_spec d "x"); [contradiction|].
    destruct (String.eqb_spec d "y"); [contradiction|].
    destruct (String.eqb_spec d "z"); [contradiction|]. reflexivity.
Qed.

End TransformComposition.

Lemma unrotated_block_is_only_placed_witness :
  hasRotation ["snowy=false"; "lit=true"] = false
  /\ applyTransformations scalar_add scalar_of_int scalar_half
       (new_Mesh scalar_of_int unit_triangle tt) 3 1 2
       ["snowy=false"; "lit=true"]
     = Mesh unit_triangle tt
            (Vec3 (scalar_of_int 3) (scalar_of_int 1) (scalar_of_int 2))
            (Euler 0 0 0).
Proof.
  split; [reflexivity|].
  exact (unrotated_block_is_only_placed scalar_add scalar_of_int scalar_half
           (new_Mesh scalar_of_int unit_triangle tt) 3 1 2
           ["snowy=false"; "lit=true"] eq_refl).
Defined.

Lemma axis_overwrites_rotation_witness :
  rotation (applyTransformations scalar_add scalar_of_int scalar_half
              (new_Mesh scalar_of_int unit_triangle tt) 0 0 0
              ["axis=y"; "facing=north"])
  = Euler 0 0 0
  /\ rotation (applyTransformations scalar_add scalar_of_int scalar_half
                 (new_Mesh scalar_of_int unit_triangle tt) 0 0 0
                 ["half=top"; "axis=z"])
     = Euler (PI / 2) 0 0.
Proof.
  split.
  - exact (proj1 (axis_overwrites_rotation scalar_add scalar_of_int
                    scalar_half unit_triangle tt 0 0 0
                    ["axis=y"; "facing=north"] "axis=y" eq_refl) eq_refl).
  - exact (proj1 (proj2 (axis_overwrites_rotation scalar_add scalar_of_int
                    scalar_half unit_triangle tt 0 0 0
                    ["half=top"; "axis=z"] "axis=z" eq_refl)) eq_refl).
Defined.

(** * Geometry: translation and merging on every input *)

Section GeometryProperties.

Context {V M : Type}.
Variable vadd : V -> V -> V.
Variable of_int : Z -> V.
Variable one_half : V.
Variable nan : V.
Variable merge_throws : @geometry V -> @geometry V -> bool.
Variable translate_throws : @geometry V -> bool.

(** The offsets added to a buffer of whole triples. *)
Fixpoint translate_values (x y z : V) (l : list V) : list V :=
  match l with
  | a :: b :: c :: rest =>
      vadd a x :: vadd b y :: vadd c z :: translate_values x y z rest
  | _ => []
  end.

Lemma translate_values_length (x y z : V) (n : nat) :
  forall l, List.length l = (n * 3)%nat ->
            List.length (translate_values x y z l) = (n * 3)%nat.
Proof.
  induction n as [|n IH]; intros l Hlen.
  - now destruct l.
  - destruct l as [|a [|b [|c l]]]; try discriminate.
    simpl in *. injection Hlen as Hlen. now rewrite (IH l Hlen).
Qed.

Lemma read_triples_translated (x y z : V) (l : list V) (n : nat) :
  List.length l = (n * 3)%nat ->
  flat_map (fun i => [vadd (nth (i * 3) l nan) x;
                      vadd (nth (i * 3 + 1) l nan) y;
                      vadd (nth (i * 3 + 2) l nan) z]) (seq 0 n)
  = translate_values x y z l.
Proof.
  revert l. induction n as [|n IH]; intros l Hlen.
  - now destruct l.
  - destruct l as [|a [|b [|c l]]]; try discriminate.
    simpl in Hlen. injection Hlen as Hlen.
    cbn [seq flat_map]. rewrite <- seq_shift, flat_map_concat_map, map_map,
      <- flat_map_concat_map.
    cbn [Nat.mul Nat.add nth app translate_values]. do 3 f_equal.
    now apply IH.
Qed.

(** [translateGeometry] on a well-formed geometry. *)
Lemma translateGeometry_ok (g : @geometry V) (x y z : V) :
  translate_throws g = false ->
  well_formed g ->
  exists g',
    translateGeometry vadd nan translate_throws g x y z = Ok g'
    /\ well_formed g'
    /\ values (position g') = translate_values x y z (values (position g))
    /\ vertex_count (position g') = vertex_count (position g)
    /\ normal g' = normal g /\ uv g' = uv g /\ index g' = index g
    /\ (position g = None -> g' = g).
Proof.
  intros Hok (Hpos & Hnormal & Huv).
  unfold translateGeometry. rewrite Hok.
  destruct g as [[[arr size]|] nrm tex idx]; cbn [position normal uv index] in *.
  - destruct Hpos as [Hsize [n Hlen]]. cbn [array itemSize] in *. subst size.
    eexists. split; [reflexivity|].
    unfold count, getX, getY, getZ. cbn [array itemSize position normal uv index].
    rewrite Hlen, Nat.div_mul by lia.
    rewrite (read_triples_translated x y z arr n Hlen).
    repeat split; try assumption; try discriminate.
    + exists n. now apply translate_values_length.
    + unfold vertex_count, count. cbn [array itemSize].
      rewrite (translate_values_length x y z n arr Hlen), Hlen.
      reflexivity.
  - eexists. split; [reflexivity|].
    repeat split; assumption.
Qed.

(** [mergeTwoGeometries] on well-formed geometries. *)
Lemma mergeTwoGeometries_well_formed (g1 g2 : @geometry V) :
  well_formed g1 -> well_formed g2 ->
  well_formed (mergeTwoGeometries nan merge_throws g1 g2)
  /\ vertex_count (position (mergeTwoGeometries nan merge_throws g1 g2))
     = if merge_throws g1 g2 then vertex_count (position g1)
       else (vertex_count (position g1) + vertex_count (position g2))%nat.
Proof.
  intros Hw1 Hw2.
  destruct (merge_throws g1 g2) eqn:Hthrow.
  - unfold mergeTwoGeometries. rewrite Hthrow. now split.
  - destruct (merged_positions nan merge_throws g1 g2 Hthrow Hw1 Hw2)
      as [Hpos Hcount].
    split; [|exact Hcount].
    assert (Hwhole : forall size (l1 l2 : list V) n1 n2,
               List.length l1 = (n1 * size)%nat ->
               List.length l2 = (n2 * size)%nat ->
               whole_items size (attribute_if_any (l1 ++ l2)%list size)).
    { intros size l1 l2 n1 n2 H1 H2. unfold attribute_if_any.
      destruct (l1 ++ l2)%list as [|v l] eqn:E; [exact I|].
      split; [reflexivity|]. exists (n1 + n2)%nat.
      cbn [array]. rewrite <- E, length_app, H1, H2. lia. }
    assert (Hvalues : forall size (a : option (@attribute V)),
               whole_items size a ->
               exists n, List.length (values a) = (n * size)%nat).
    { intros size [a|]; simpl; [intros [_ H]; exact H | now exists 0%nat]. }
    destruct Hw1 as (Hp1 & Hn1 & Hu1), Hw2 as (Hp2 & Hn2 & Hu2).
    unfold well_formed. rewrite Hpos.
    unfold mergeTwoGeometries. rewrite Hthrow.
    unfold merge_attributes. cbn [normal uv].
    rewrite !push_xyz_values, !push_xy_values by assumption.
    destruct (Hvalues 3%nat _ Hp1) as [a1 Ha1].
    destruct (Hvalues 3%nat _ Hp2) as [a2 Ha2].
    destruct (Hvalues 3%nat _ Hn1) as [b1 Hb1].
    destruct (Hvalues 3%nat _ Hn2) as [b2 Hb2].
    destruct (Hvalues 2%nat _ Hu1) as [c1 Hc1].
    destruct (Hvalues 2%nat _ Hu2) as [c2 Hc2].
    split; [|split].
    + split; [reflexivity|]. exists (a1 + a2)%nat.
      cbn [array]. rewrite length_app, Ha1, Ha2. lia.
    + now apply (Hwhole 3%nat _ _ b1 b2).
    + now apply (Hwhole 2%nat _ _ c1 c2).
Qed.

(** X15.  When it does not throw, [translateGeometry] on a well-formed
    geometry returns a well-formed geometry with the same number of
    vertices, each coordinate receiving its offset, and with the normals,
    texture coordinates and indices of the input; a geometry without a
    position attribute comes back as it is. *)
Theorem translate_keeps_structure (g : @geometry V) (x y z : V) :
  translate_throws g = false ->
  well_formed g ->
  exists g',
    translateGeometry vadd nan translate_throws g x y z = Ok g'
    /\ well_formed g'
    /\ values (position g') = translate_values x y z (values (position g))
    /\ vertex_count (position g') = vertex_count (position g)
    /\ normal g' = normal g /\ uv g' = uv g /\ index g' = index g
    /\ (position g = None -> g' = g).
Proof. exact (translateGeometry_ok g x y z). Qed.

(** X16.  Merging never breaks a buffer: whatever the merge does, throw
    or not, the result of [mergeTwoGeometries] on two well-formed
    geometries is well formed; its vertex count is the sum of the two
    counts when the merge went through and the first's count when it
    threw. *)
Theorem merge_keeps_well_formed (g1 g2 : @geometry V) :
  well_formed g1 -> well_formed g2 ->
  well_formed (mergeTwoGeometries nan merge_throws g1 g2)
  /\ vertex_count (position (mergeTwoGeometries nan merge_throws g1 g2))
     = if merge_throws g1 g2 then vertex_count (position g1)
       else (vertex_count (position g1) + vertex_count (position g2))%nat.
Proof. exact (mergeTwoGeometries_well_formed g1 g2). Qed.

Lemma values_attribute_if_any (l : list V) (size : nat) :
  values (attribute_if_any l size) = l.
Proof. now destruct l. Qed.

(** X17.  The merge adds no padding for a missing attribute: the merged
    normal (and texture) buffer is the first geometry's values followed by
    the second's.  When the first geometry has no normals, the second's
    normals therefore start at vertex 0 of the merged geometry, not at its
    own first vertex, and the merged geometry has fewer normals than
    vertices. *)
Theorem missing_attribute_is_not_padded (g1 g2 : @geometry V) :
  merge_throws g1 g2 = false ->
  well_formed g1 -> well_formed g2 ->
  let m := mergeTwoGeometries nan merge_throws g1 g2 in
  values (normal m) = (values (normal g1) ++ values (normal g2))%list
  /\ values (uv m) = (values (uv g1) ++ values (uv g2))%list
  /\ (normal g1 = None ->
      vertex_count (normal g2) = vertex_count (position g2) ->
      values (normal m) = values (normal g2)
      /\ (vertex_count (normal m) + vertex_count (position g1))%nat
         = vertex_count (position m)).
Proof.
  intros Hok Hw1 Hw2.
  destruct (merged_positions nan merge_throws g1 g2 Hok Hw1 Hw2)
    as [_ Hcount].
  pose proof Hw1 as (_ & Hn1 & Hu1). pose proof Hw2 as (_ & Hn2 & Hu2).
  assert (Hnormal : values (normal (mergeTwoGeometries nan merge_throws g1 g2))
                    = (values (normal g1) ++ values (normal g2))%list).
  { unfold mergeTwoGeometries. rewrite Hok.
    unfold merge_attributes. cbn [normal].
    now rewrite values_attribute_if_any, !push_xyz_values. }
  cbv zeta. split; [exact Hnormal|]. split.
  - unfold mergeTwoGeometries. rewrite Hok.
    unfold merge_attributes. cbn [uv].
    now rewrite values_attribute_if_any, !push_xy_values.
  - intros Hnone Hsame. rewrite Hnormal, Hnone. cbn [values app].
    split; [reflexivity|].
    rewrite Hcount, <- Hsame.
    assert (E : vertex_count
                  (normal (mergeTwoGeometries nan merge_throws g1 g2))
                = vertex_count (normal g2)).
    { apply (Nat.mul_cancel_r _ _ 3); [lia|].
      rewrite (vertex_count_values (normal g2) Hn2).
      rewrite vertex_count_values
        by (apply (mergeTwoGeometries_well_formed g1 g2 Hw1 Hw2)).
      rewrite Hnormal, Hnone. reflexivity. }
    rewrite E. lia.
Qed.

(** ** [mergeGeometries] on every list of meshes *)

(** The translated position values of a mesh. *)
Definition placed_values (m : @mesh V M) : list V :=
  translate_values (vx (mesh_position m)) (vy (mesh_position m))
                   (vz (mesh_position m))
                   (values (position (mesh_geometry m))).

Definition mesh_vertices (m : @mesh V M) : nat :=
  vertex_count (position (mesh_geometry m)).

Lemma translate_mesh_ok (m : @mesh V M) :
  translate_throws (mesh_geometry m) = false ->
  well_formed (mesh_geometry m) ->
  exists g',
    translate_mesh vadd nan translate_throws m = Ok g'
    /\ well_formed g'
    /\ values (position g') = placed_values m
    /\ vertex_count (position g') = mesh_vertices m.
Proof.
  intros Hok Hwf. unfold translate_mesh.
  destruct (translateGeometry_ok (mesh_geometry m)
              (vx (mesh_position m)) (vy (mesh_position m))
              (vz (mesh_position m)) Hok Hwf)
    as (g' & Hrun & Hwf' & Hvalues & Hcount & _).
  exists g'.
  split; [exact Hrun | split; [exact Hwf' | split; [exact Hvalues|]]].
  exact Hcount.
Qed.

Lemma merge_rest_all (rest : list (@mesh V M)) :
  (forall g1 g2, merge_throws g1 g2 = false) ->
  Forall (fun m => translate_throws (mesh_geometry m) = false) rest ->
  Forall (fun m => well_formed (mesh_geometry m)) rest ->
  forall merged,
    well_formed merged ->
    exists out,
      merge_rest vadd nan merge_throws translate_throws merged rest = Ok out
      /\ well_formed out
      /\ values (position out)
         = (values (position merged) ++ flat_map placed_values rest)%list
      /\ vertex_count (position out)
         = (vertex_count (position merged)
            + list_sum (map mesh_vertices rest))%nat.
Proof.
  intros Hmerge Htrans Hwf.
  induction rest as [|m rest IH]; intros merged Hmerged; simpl.
  - exists merged. rewrite app_nil_r.
    split; [reflexivity | split; [exact Hmerged | split; [reflexivity|lia]]].
  - inversion Htrans as [|? ? Ht Htrans']; subst.
    inversion Hwf as [|? ? Hw Hwf']; subst.
    destruct (translate_mesh_ok m Ht Hw) as (g' & -> & Hwg & Hvg & Hcg).
    simpl.
    destruct (merged_positions nan merge_throws merged g'
                (Hmerge _ _) Hmerged Hwg) as [Hpos Hcount].
    destruct (IH Htrans' Hwf'
                (mergeTwoGeometries nan merge_throws merged g')
                (proj1 (mergeTwoGeometries_well_formed merged g' Hmerged Hwg)))
      as (out & -> & Hwo & Hvo & Hco).
    exists out. split; [reflexivity|]. split; [exact Hwo|]. split.
    + rewrite Hvo, Hpos. cbn [values array]. now rewrite Hvg, <- app_assoc.
    + rewrite Hco, Hcount, Hcg. cbn [map list_sum]. lia.
Qed.

(** [mergeGeometries] when nothing throws. *)
Lemma mergeGeometries_all (m0 : @mesh V M) (rest : list (@mesh V M)) :
  (forall g1 g2, merge_throws g1 g2 = false) ->
  Forall (fun m => translate_throws (mesh_geometry m) = false) (m0 :: rest) ->
  Forall (fun m => well_formed (mesh_geometry m)) (m0 :: rest) ->
  exists merged,
    mergeGeometries vadd of_int nan merge_throws translate_throws (m0 :: rest)
    = Ok (Some merged)
    /\ material merged = material m0
    /\ well_formed (mesh_geometry merged)
    /\ values (position (mesh_geometry merged))
       = flat_map placed_values (m0 :: rest)
    /\ mesh_vertices merged = list_sum (map mesh_vertices (m0 :: rest)).
Proof.
  intros Hmerge Htrans Hwf.
  inversion Htrans as [|? ? Ht Htrans']; subst.
  inversion Hwf as [|? ? Hw Hwf']; subst.
  destruct (translate_mesh_ok m0 Ht Hw) as (g0 & Hrun0 & Hwg & Hvg & Hcg).
  destruct rest as [|m1 rest].
  - unfold mergeGeometries. rewrite Hrun0. cbn [bind].
    eexists. split; [reflexivity|]. unfold mesh_vertices at 1.
    cbn [material mesh_geometry new_Mesh flat_map map list_sum].
    split; [reflexivity|]. split; [exact Hwg|]. split.
    + now rewrite Hvg, app_nil_r.
    + rewrite Hcg. simpl. lia.
  - destruct (merge_rest_all (m1 :: rest) Hmerge Htrans' Hwf' g0 Hwg)
      as (out & Hrun & Hwo & Hvo & Hco).
    unfold mergeGeometries. rewrite Hrun0. cbn [bind]. rewrite Hrun.
    eexists. split; [reflexivity|]. unfold mesh_vertices at 1.
    cbn [material mesh_geometry new_Mesh].
    split; [reflexivity|]. split; [exact Hwo|]. split.
    + rewrite Hvo, Hvg. reflexivity.
    + rewrite Hco, Hcg. reflexivity.
Qed.

Lemma throws_somewhere_or_nowhere (l : list (@mesh V M)) :
  Forall (fun m => translate_throws (mesh_geometry m) = false) l
  \/ Exists (fun m => translate_throws (mesh_geometry m) = true) l.
Proof.
  induction l as [|m l [IH|IH]].
  - left. constructor.
  - destruct (translate_throws (mesh_geometry m)) eqn:E.
    + right. now constructor.
    + left. now constructor.
  - right. now apply Exists_cons_tl.
Qed.

Lemma translate_mesh_throws (m : @mesh V M) :
  (exists g, translate_mesh vadd nan translate_throws m = Ok g)
  <-> translate_throws (mesh_geometry m) = false.
Proof.
  unfold translate_mesh, translateGeometry.
  destruct (translate_throws (mesh_geometry m)).
  - split; [intros [g H]; discriminate H | discriminate].
  - split; [reflexivity|]. intros _.
    destruct (position (mesh_geometry m)); now eexists.
Qed.

Lemma merge_rest_runs (rest : list (@mesh V M)) :
  forall merged,
    (exists out,
        merge_rest vadd nan merge_throws translate_throws merged rest = Ok out)
    <-> Forall (fun m => translate_throws (mesh_geometry m) = false) rest.
Proof.
  induction rest as [|m rest IH]; intros merged; simpl.
  - split; [constructor | now eexists].
  - split.
    + intros [out Hrun].
      destruct (translate_mesh vadd nan translate_throws m) as [g|] eqn:Hm;
        [|discriminate Hrun].
      simpl in Hrun. constructor.
      * apply translate_mesh_throws. now exists g.
      * apply (IH (mergeTwoGeometries nan merge_throws merged g)).
        now exists out.
    + intros H. inversion H as [|? ? Ht Hrest]; subst.
      apply translate_mesh_throws in Ht. destruct Ht as [g ->]. simpl.
      now apply IH.
Qed.

(** X19.  What [mergeGeometries] returns depends on the translations
    alone, never on the pairwise merges.  On two meshes or more it never
    throws, and it returns [null] exactly when the translation of some
    mesh's geometry throws; an error inside [mergeTwoGeometries], being
    caught there, cannot make it return [null].  On no mesh it returns
    [null]; on a single mesh a failing translation escapes as an
    exception. *)
Theorem merge_returns_null_iff_translation_throws
    (m0 m1 : @mesh V M) (rest : list (@mesh V M)) :
  let run := mergeGeometries vadd of_int nan merge_throws translate_throws in
  (run (m0 :: m1 :: rest) = Ok None
   <-> Exists (fun m => translate_throws (mesh_geometry m) = true)
              (m0 :: m1 :: rest))
  /\ (exists out, run (m0 :: m1 :: rest) = Ok out)
  /\ run [] = Ok None
  /\ ((exists out, run [m0] = Ok out)
      <-> translate_throws (mesh_geometry m0) = false).
Proof.
  cbv zeta.
  assert (Hall : (exists out,
                     (first <- translate_mesh vadd nan translate_throws m0 ;;
                      merge_rest vadd nan merge_throws translate_throws
                        first (m1 :: rest)) = Ok out)
                 <-> Forall (fun m => translate_throws (mesh_geometry m) = false)
                            (m0 :: m1 :: rest)).
  { split.
    - intros [out Hrun].
      destruct (translate_mesh vadd nan translate_throws m0) as [g|] eqn:Hm;
        [|discriminate Hrun].
      cbn [bind] in Hrun. constructor.
      + apply translate_mesh_throws. now exists g.
      + apply (merge_rest_runs (m1 :: rest) g). now exists out.
    - intros H. inversion H as [|? ? Ht Hrest]; subst.
      apply translate_mesh_throws in Ht. destruct Ht as [g ->]. cbn [bind].
      now apply merge_rest_runs. }
  unfold mergeGeometries.
  destruct (first <- translate_mesh vadd nan translate_throws m0 ;;
            merge_rest vadd nan merge_throws translate_throws
              first (m1 :: rest)) as [merged|msg] eqn:Hrun.
  - assert (Hnone : Forall (fun m => translate_throws (mesh_geometry m) = false)
                           (m0 :: m1 :: rest))
      by (apply Hall; now exists merged).
    split; [|split; [now eexists | split; [reflexivity|]]].
    + split; [discriminate|]. intros Hex.
      apply Exists_exists in Hex. destruct Hex as (m & Hin & Hthrow).
      rewrite Forall_forall in Hnone. rewrite (Hnone m Hin) in Hthrow.
      discriminate.
    + rewrite <- translate_mesh_throws.
      split; intros [out H].
      * destruct (translate_mesh vadd nan translate_throws m0);
          [now eexists | discriminate H].
      * rewrite H. now eexists.
  - split; [|split; [now eexists | split; [reflexivity|]]].
    + split; [intros _ | reflexivity].
      destruct (throws_somewhere_or_nowhere (m0 :: m1 :: rest))
        as [Hnone|Hsome]; [|exact Hsome].
      apply Hall in Hnone. destruct Hnone as [out Hout]. discriminate Hout.
    + rewrite <- translate_mesh_throws.
      split; intros [out H].
      * destruct (translate_mesh vadd nan translate_throws m0);
          [now eexists | discriminate H].
      * rewrite H. now eexists.
Qed.

(** X18.  When no three.js call throws, [mergeGeometries] on a list of
    one or more meshes with well-formed geometries returns one mesh that
    holds every input: its position buffer is the meshes' translated
    position values one after the other, in order, its vertex count is the
    sum of theirs, and it carries the first mesh's material. *)
Theorem merge_holds_every_mesh (m0 : @mesh V M) (rest : list (@mesh V M)) :
  (forall g1 g2, merge_throws g1 g2 = false) ->
  Forall (fun m => translate_throws (mesh_geometry m) = false) (m0 :: rest) ->
  Forall (fun m => well_formed (mesh_geometry m)) (m0 :: rest) ->
  exists merged,
    mergeGeometries vadd of_int nan merge_throws translate_throws (m0 :: rest)
    = Ok (Some merged)
    /\ material merged = material m0
    /\ well_formed (mesh_geometry merged)
    /\ values (position (mesh_geometry merged))
       = flat_map placed_values (m0 :: rest)
    /\ mesh_vertices merged = list_sum (map mesh_vertices (m0 :: rest)).
Proof. exact (mergeGeometries_all m0 rest). Qed.

(** ** The meshes of a block type, in both branches *)

Lemma applyTransformations_keeps_geometry (m : @mesh V M) (x y z : Z)
    (props : list string) :
  mesh_geometry (applyTransformations vadd of_int one_half m x y z props)
  = mesh_geometry m.
Proof. now destruct props. Qed.

Lemma translated_meshes (cachedGeo : @geometry V) (cachedMat : M)
    (positions : list (Z * Z * Z)) :
  (forall g, translate_throws g = false) ->
  well_formed cachedGeo ->
  exists meshes,
    map_result
      (fun '(x, y, z) =>
         clonedGeo <- translateGeometry vadd nan translate_throws cachedGeo
                        (of_int x) (of_int y) (of_int z) ;;
         Ok (new_Mesh of_int clonedGeo cachedMat))
      positions = Ok meshes
    /\ List.length meshes = List.length positions
    /\ Forall (fun m => well_formed (mesh_geometry m)
                        /\ mesh_vertices m
                           = vertex_count (position cachedGeo)) meshes.
Proof.
  intros Htrans Hwf.
  induction positions as [|[[x y] z] positions (meshes & Hrun & Hlen & Hall)].
  - exists []. repeat split. constructor.
  - destruct (translateGeometry_ok cachedGeo (of_int x) (of_int y) (of_int z)
                (Htrans _) Hwf) as (g' & Hg & Hwg & _ & Hcount & _).
    exists (new_Mesh of_int g' cachedMat :: meshes).
    cbn [map_result]. rewrite Hg. cbn [bind]. rewrite Hrun. cbn [bind].
    split; [reflexivity|]. split; [simpl; now rewrite Hlen|].
    constructor; [|exact Hall]. split; [exact Hwg | exact Hcount].
Qed.

Lemma placed_meshes_vertices (cachedGeo : @geometry V) (cachedMat : M)
    (props : list string) (l : list (Z * Z * Z)) :
  list_sum
    (map mesh_vertices
       (map (fun '(x, y, z) =>
               applyTransformations vadd of_int one_half
                 (new_Mesh of_int cachedGeo cachedMat) x y z props) l))
  = (List.length l * vertex_count (position cachedGeo))%nat.
Proof.
  set (place := fun '(x, y, z) =>
                  applyTransformations vadd of_int one_half
                    (new_Mesh of_int cachedGeo cachedMat) x y z props).
  assert (Hplace : forall pos,
             mesh_vertices (place pos) = vertex_count (position cachedGeo)).
  { intros [[x y] z]. unfold place, mesh_vertices.
    now rewrite applyTransformations_keeps_geometry. }
  clearbody place.
  induction l as [|pos l IH]; [reflexivity|].
  simpl. rewrite Hplace, IH. lia.
Qed.

(** X20.  When no three.js call throws and the block type's geometry is
    well formed, both branches of [render] put every instance into the
    scene: the meshes added for a block type hold, together, as many
    vertices as the geometry has, times the number of cells.  A rotated
    block type, or one of fewer than five cells, gets one mesh per cell;
    any other gets a single mesh. *)
Theorem scene_holds_every_instance (cachedGeo : @geometry V) (cachedMat : M)
    (props : list string) (positions : list (Z * Z * Z)) :
  (forall g, translate_throws g = false) ->
  (forall g1 g2, merge_throws g1 g2 = false) ->
  well_formed cachedGeo ->
  exists meshes,
    add_block_type vadd of_int one_half nan merge_throws translate_throws
      cachedGeo cachedMat props positions = Ok meshes
    /\ list_sum (map mesh_vertices meshes)
       = (List.length positions * vertex_count (position cachedGeo))%nat
    /\ List.length meshes
       = if hasRotation props || Nat.ltb (List.length positions) 5
         then List.length positions else 1%nat.
Proof.
  intros Htrans Hmerge Hwf.
  unfold add_block_type.
  destruct positions as [|p positions].
  - exists []. rewrite orb_true_r. repeat split.
  - destruct (hasRotation props || Nat.ltb (List.length (p :: positions)) 5)
      eqn:Hbranch.
    + eexists. split; [reflexivity|]. rewrite length_map.
      split; [apply placed_meshes_vertices | reflexivity].
    + destruct (translated_meshes cachedGeo cachedMat (p :: positions)
                  Htrans Hwf) as (meshes & Hrun & Hlen & Hall).
      rewrite Hrun. cbn [bind].
      destruct meshes as [|m0 rest]; [discriminate Hlen|].
      destruct (mergeGeometries_all m0 rest Hmerge)
        as (merged & Hmerged & _ & _ & _ & Hcount).
      { apply Forall_forall. intros m _. apply Htrans. }
      { apply (Forall_impl _ (fun m H => proj1 H) Hall). }
      rewrite Hmerged. cbn [bind].
      exists [merged]. split; [reflexivity|]. split; [|reflexivity].
      assert (Hsum : list_sum (map mesh_vertices (m0 :: rest))
                     = (List.length (m0 :: rest)
                        * vertex_count (position cachedGeo))%nat).
      { clear - Hall.
        induction Hall as [|m l [_ Hm] _ IH]; [reflexivity|].
        simpl in *. rewrite IH, Hm. lia. }
      change (list_sum (map mesh_vertices [merged]))
        with (mesh_vertices merged + 0)%nat.
      rewrite Hcount, Hsum, Hlen. lia.
Qed.

End GeometryProperties.

(** A triangle with a normal per vertex. *)
Definition lit_triangle : @geometry scalar :=
  Geometry (position unit_triangle)
           (Some (Attribute (map scalar_of_int [0; 0; 1; 0; 0; 1; 0; 0; 1]) 3))
           None (index unit_triangle).

Lemma triangle_well_formed (a b c : Z * Z * Z) : well_formed (triangle a b c).
Proof.
  destruct a as [[? ?] ?], b as [[? ?] ?], c as [[? ?] ?].
  split; [|split]; [|exact I|exact I].
  split; [reflexivity|]. now exists 3%nat.
Defined.

Lemma lit_triangle_well_formed : well_formed lit_triangle.
Proof.
  split; [|split]; [| |exact I];
    (split; [reflexivity|]; now exists 3%nat).
Defined.

Lemma translate_keeps_structure_witness :
  exists g',
    translateGeometry scalar_add None never1 lit_triangle
      (scalar_of_int 1) (scalar_of_int 0) (scalar_of_int 0) = Ok g'
    /\ vertex_count (position g') = 3%nat
    /\ normal g' = normal lit_triangle
    /\ index g' = Some [0; 1; 2].
Proof.
  destruct (translate_keeps_structure scalar_add None never1 lit_triangle
              (scalar_of_int 1) (scalar_of_int 0) (scalar_of_int 0)
              eq_refl lit_triangle_well_formed)
    as (g' & Hrun & _ & _ & Hcount & Hnormal & _ & Hindex & _).
  exists g'. repeat split; assumption.
Defined.

Lemma merge_keeps_well_formed_witness :
  well_formed (mergeTwoGeometries None throws_at_two unit_triangle
                 (triangle (2, 0, 0) (3, 0, 0) (2, 1, 0)))
  /\ well_formed (mergeTwoGeometries None never2 lit_triangle unit_triangle).
Proof.
  split.
  - exact (proj1 (merge_keeps_well_formed None throws_at_two unit_triangle
                    (triangle (2, 0, 0) (3, 0, 0) (2, 1, 0))
                    (triangle_well_formed _ _ _) (triangle_well_formed _ _ _))).
  - exact (proj1 (merge_keeps_well_formed None never2 lit_triangle
                    unit_triangle lit_triangle_well_formed
                    (triangle_well_formed _ _ _))).
Defined.

Lemma missing_attribute_is_not_padded_witness :
  let m := mergeTwoGeometries None never2 unit_triangle lit_triangle in
  values (normal m) = values (normal lit_triangle)
  /\ vertex_count (normal m) = 3%nat
  /\ vertex_count (position m) = 6%nat.
Proof.
  destruct (missing_attribute_is_not_padded None never2 unit_triangle
              lit_triangle eq_refl (triangle_well_formed _ _ _)
              lit_triangle_well_formed) as (_ & _ & Hshift).
  destruct (Hshift eq_refl eq_refl) as [Hvalues Hcount].
  cbv zeta. split; [exact Hvalues|]. split; reflexivity.
Defined.

Lemma merge_holds_every_mesh_witness :
  exists merged,
    mergeGeometries scalar_add scalar_of_int None never2 never1
      [new_Mesh scalar_of_int unit_triangle tt;
       new_Mesh scalar_of_int (triangle (1, 0, 0) (2, 0, 0) (1, 1, 0)) tt;
       new_Mesh scalar_of_int lit_triangle tt]
    = Ok (Some merged)
    /\ mesh_vertices merged = 9%nat.
Proof.
  destruct (merge_holds_every_mesh scalar_add scalar_of_int None never2 never1
              (new_Mesh scalar_of_int unit_triangle tt)
              [new_Mesh scalar_of_int (triangle (1, 0, 0) (2, 0, 0) (1, 1, 0)) tt;
               new_Mesh scalar_of_int lit_triangle tt])
    as (merged & Hrun & _ & _ & _ & Hcount).
  - reflexivity.
  - repeat constructor.
  - repeat (constructor;
            [first [exact (triangle_well_formed _ _ _)
                   | exact lit_triangle_well_formed]|]).
    constructor.
  - exists merged. split; [exact Hrun | exact Hcount].
Defined.

Lemma scene_holds_every_instance_witness :
  exists meshes,
    add_block_type scalar_add scalar_of_int scalar_half None never2 never1
      unit_triangle tt [] five_in_a_row = Ok meshes
    /\ list_sum (map mesh_vertices meshes) = 15%nat
    /\ List.length meshes = 1%nat.
Proof.
  exact (scene_holds_every_instance scalar_add scalar_of_int scalar_half None
           never2 never1 unit_triangle tt [] five_in_a_row
           (fun _ => eq_refl) (fun _ _ => eq_refl)
           (triangle_well_formed _ _ _)).
Defined.

(** * The renderer, step 3 in full: models, caches and chunks *)

(** [child.material]: absent, one material, or an array of materials. *)
Inductive material_slot (M : Type) : Type :=
| NoMaterial
| OneMaterial (m : M)
| MaterialArray (ms : list M).
Arguments NoMaterial {M}.
Arguments OneMaterial {M} m.
Arguments MaterialArray {M} ms.

(** An object of a loaded model.  [isMesh] is [child instanceof
    THREE.Mesh]; a geometry is held by reference, the number standing for
    the identity of the geometry object, as [===] compares it. *)
#[warnings="-register-all"]
Inductive object3d (V M : Type) : Type :=
| Object3D (isMesh : bool)
           (geometry_ref : option (nat * @geometry V))
           (material_of : material_slot M)
           (position_of : @vec3 V)
           (children : list (object3d V M)).
Arguments Object3D {V M} isMesh geometry_ref material_of position_of children.

Section Models.

Context {V M : Type}.
Variable vadd : V -> V -> V.
Variable of_int : Z -> V.
Variable one_half : V.
Variable nan : V.
Variable merge_throws : @geometry V -> @geometry V -> bool.
Variable translate_throws : @geometry V -> bool.

(** [new THREE.MeshBasicMaterial({ color: 0xffffff })]. *)
Variable white_material : M.

Definition object_geometry (o : object3d V M) : option (nat * @geometry V) :=
  match o with Object3D _ g _ _ _ => g end.

Definition object_position (o : object3d V M) : @vec3 V :=
  match o with Object3D _ _ _ p _ => p end.

Definition object_children (o : object3d V M) : list (object3d V M) :=
  match o with Object3D _ _ _ _ c => c end.

(** [model.traverse(callback)]: the object itself, then its children's
    traversals in order. *)
Fixpoint traverse (o : object3d V M) : list (object3d V M) :=
  match o with
  | Object3D _ _ _ _ children => o :: flat_map traverse children
  end.

(** What the callback pushes to [geometries] for one object. *)
Definition pushed_geometry (o : object3d V M) : list (nat * @geometry V) :=
  match o with
  | Object3D true (Some g) _ _ _ => [g]
  | _ => []
  end.

(** What the callback pushes to [materials] for one object. *)
Definition pushed_materials (o : object3d V M) : list M :=
  match o with
  | Object3D true _ (OneMaterial m) _ _ => [m]
  | Object3D true _ (MaterialArray ms) _ _ => ms
  | _ => []
  end.

(** [model.children.find(c => c.geometry === geometry)]. *)
Definition find_child (model : object3d V M) (id : nat)
  : option (object3d V M) :=
  List.find (fun c => match object_geometry c with
                      | Some (id', _) => Nat.eqb id' id
                      | None => false
                      end)
            (object_children model).

(** The body of the loop over [geometries[1..]]. *)
Definition merge_child (model : object3d V M) (merged : @geometry V)
    (g : nat * @geometry V) : result (@geometry V) :=
  match find_child model (fst g) with
  | Some mesh =>
      translated <- translateGeometry vadd nan translate_throws (snd g)
                      (vx (object_position mesh)) (vy (object_position mesh))
                      (vz (object_position mesh)) ;;
      Ok (mergeTwoGeometries nan merge_throws merged translated)
  | None => Ok (mergeTwoGeometries nan merge_throws merged (snd g))
  end.

Fixpoint merge_children (model : object3d V M) (merged : @geometry V)
    (rest : list (nat * @geometry V)) : result (@geometry V) :=
  match rest with
  | [] => Ok merged
  | g :: rest' =>
      merged' <- merge_child model merged g ;;
      merge_children model merged' rest'
  end.

(** [extractGeometryAndMaterials]: [None] stands for
    [{ geometry: null, materials: null }]. *)
Definition extractGeometryAndMaterials (model : object3d V M)
  : result (option (@geometry V * M)) :=
  let geometries := flat_map pushed_geometry (traverse model) in
  let materials := flat_map pushed_materials (traverse model) in
  match geometries with
  | [] => Ok None
  | first :: rest =>
      mergedGeometry <- merge_children model (snd first) rest ;;
      Ok (Some (mergedGeometry,
                match materials with
                | m :: _ => m
                | [] => white_material
                end))
  end.

(** [modelCache]: the models that loaded, by block key. *)
Variable modelCache : string -> option (object3d V M).

(** [geometryCache] and [materialCache], which are filled together. *)
Definition geometry_cache := list (string * (@geometry V * M)).

Fixpoint cache_get (key : string) (cache : geometry_cache)
  : option (@geometry V * M) :=
  match cache with
  | [] => None
  | (k, v) :: rest => if String.eqb k key then Some v else cache_get key rest
  end.

(** [cache.set(key, v)] for a key that the cache does not hold. *)
Definition cache_set (key : string) (v : @geometry V * M)
    (cache : geometry_cache) : geometry_cache :=
  (cache ++ [(key, v)])%list.

(** The coordinates of a group, as the numbers handed on. *)
Definition group_cells (g : block_group) : list (Z * Z * Z) :=
  map (fun '(x, y, z) => (Z.of_nat x, Z.of_nat y, Z.of_nat z)) (positions g).

(** The body of the loop over a chunk, on the scene's meshes and the
    caches; a [continue] leaves the state as it is. *)
Definition render_entry (entry : string * block_group)
    (st : list (@mesh V M) * geometry_cache)
  : result (list (@mesh V M) * geometry_cache) :=
  let '(blockKey, blockData) := entry in
  match modelCache blockKey with
  | None => Ok st
  | Some model =>
      match positions blockData with
      | [] => Ok st
      | _ =>
          cached <-
            match cache_get blockKey (snd st) with
            | Some v => Ok (Some v, snd st)
            | None =>
                extracted <- extractGeometryAndMaterials model ;;
                match extracted with
                | Some v => Ok (Some v, cache_set blockKey v (snd st))
                | None => Ok (None, snd st)
                end
            end ;;
          match fst cached with
          | None => Ok (fst st, snd cached)
          | Some (cachedGeo, cachedMat) =>
              meshes <- add_block_type vadd of_int one_half nan merge_throws
                          translate_throws cachedGeo cachedMat
                          (group_properties blockData) (group_cells blockData) ;;
              Ok ((fst st ++ meshes)%list, snd cached)
          end
      end
  end.

(** [for (const entry of chunk) ...]. *)
Fixpoint render_chunk (chunk : blockMap)
    (st : list (@mesh V M) * geometry_cache)
  : result (list (@mesh V M) * geometry_cache) :=
  match chunk with
  | [] => Ok st
  | entry :: rest => st' <- render_entry entry st ;; render_chunk rest st'
  end.

(** [for (let i = 0; i < blockEntries.length; i += CHUNK_SIZE)] with
    [chunk = blockEntries.slice(i, i + CHUNK_SIZE)].  The fuel bounds the
    number of iterations. *)
Fixpoint chunk_loop (fuel chunk_size i : nat) (blockEntries : blockMap)
    (st : list (@mesh V M) * geometry_cache)
  : result (list (@mesh V M) * geometry_cache) :=
  match fuel with
  | O => Ok st
  | S fuel' =>
      if Nat.ltb i (List.length blockEntries) then
        st' <- render_chunk (firstn chunk_size (skipn i blockEntries)) st ;;
        chunk_loop fuel' chunk_size (i + chunk_size) blockEntries st'
      else Ok st
  end.

Definition CHUNK_SIZE : nat := 50.

(** Step 3 of [render]: the meshes added to the scene, in order. *)
Definition render_step3 (blockEntries : blockMap)
  : result (list (@mesh V M)) :=
  st <- chunk_loop (List.length blockEntries) CHUNK_SIZE 0 blockEntries ([], []) ;;
  Ok (fst st).

End Models.

Section ModelProperties.

Context {V M : Type}.
Variable vadd : V -> V -> V.
Variable of_int : Z -> V.
Variable one_half : V.
Variable nan : V.
Variable merge_throws : @geometry V -> @geometry V -> bool.
Variable translate_throws : @geometry V -> bool.
Variable white_material : M.
Variable modelCache : string -> option (object3d V M).

(** ** Chunks *)

Lemma render_chunk_app (l1 l2 : blockMap)
    (st : list (@mesh V M) * @geometry_cache V M) :
  render_chunk vadd of_int one_half nan merge_throws translate_throws
    white_material modelCache (l1 ++ l2)%list st
  = (st' <- render_chunk vadd of_int one_half nan merge_throws
              translate_throws white_material modelCache l1 st ;;
     render_chunk vadd of_int one_half nan merge_throws translate_throws
       white_material modelCache l2 st').
Proof.
  revert st. induction l1 as [|e l1 IH]; intros st; simpl; [reflexivity|].
  destruct (render_entry vadd of_int one_half nan merge_throws
              translate_throws white_material modelCache e st);
    simpl; [apply IH | reflexivity].
Qed.

Lemma chunk_loop_is_one_pass (chunk_size : nat) (blockEntries : blockMap) :
  (1 <= chunk_size)%nat ->
  forall fuel i st,
    (List.length (skipn i blockEntries) <= fuel)%nat ->
    chunk_loop vadd of_int one_half nan merge_throws translate_throws
      white_material modelCache fuel chunk_size i blockEntries st
    = render_chunk vadd of_int one_half nan merge_throws translate_throws
        white_material modelCache (skipn i blockEntries) st.
Proof.
  intros Hsize. induction fuel as [|fuel IH]; intros i st Hfuel.
  - destruct (skipn i blockEntries); [reflexivity | simpl in Hfuel; lia].
  - cbn [chunk_loop].
    destruct (Nat.ltb_spec i (List.length blockEntries)) as [Hin|Hout].
    + rewrite <- (firstn_skipn chunk_size (skipn i blockEntries)) at 2.
      rewrite render_chunk_app.
      destruct (render_chunk vadd of_int one_half nan merge_throws
                  translate_throws white_material modelCache
                  (firstn chunk_size (skipn i blockEntries)) st) as [st'|];
        [|reflexivity].
      cbn [bind]. rewrite IH.
      * now rewrite skipn_skipn, Nat.add_comm.
      * rewrite length_skipn in *. lia.
    + now rewrite skipn_all2 by lia.
Qed.

(** X21.  Chunking does not change what step 3 does: for every chunk
    size of at least one, the loop over chunks ends within as many
    iterations as there are entries and yields exactly what one pass over
    all entries yields, be it a scene or an exception.  This holds for the
    chunk size of the code, 50. *)
Theorem chunking_is_one_pass (chunk_size : nat) (blockEntries : blockMap)
    (st : list (@mesh V M) * @geometry_cache V M) :
  (1 <= chunk_size)%nat ->
  chunk_loop vadd of_int one_half nan merge_throws translate_throws
    white_material modelCache (List.length blockEntries) chunk_size 0
    blockEntries st
  = render_chunk vadd of_int one_half nan merge_throws translate_throws
      white_material modelCache blockEntries st
  /\ render_step3 vadd of_int one_half nan merge_throws translate_throws
       white_material modelCache blockEntries
     = (st' <- render_chunk vadd of_int one_half nan merge_throws
                 translate_throws white_material modelCache blockEntries
                 ([], []) ;;
        Ok (fst st')).
Proof.
  intros Hsize. split.
  - now rewrite (chunk_loop_is_one_pass chunk_size blockEntries Hsize).
  - unfold render_step3.
    rewrite (chunk_loop_is_one_pass CHUNK_SIZE blockEntries);
      [reflexivity | unfold CHUNK_SIZE; lia | simpl; lia].
Qed.

(** ** The scene, block type by block type *)

(** The meshes of one block type, without the caches: none when its model
    did not load, when it has no position or when the model yields no
    geometry. *)
Definition entry_meshes (entry : string * block_group)
  : result (list (@mesh V M)) :=
  match modelCache (fst entry) with
  | None => Ok []
  | Some model =>
      match positions (snd entry) with
      | [] => Ok []
      | _ =>
          extracted <- extractGeometryAndMaterials vadd nan merge_throws
                         translate_throws white_material model ;;
          match extracted with
          | None => Ok []
          | Some (cachedGeo, cachedMat) =>
              add_block_type vadd of_int one_half nan merge_throws
                translate_throws cachedGeo cachedMat
                (group_properties (snd entry)) (group_cells (snd entry))
          end
      end
  end.

(** A cache holds, under a key, what extraction gives for the model of
    that key. *)
Definition cache_consistent (cache : @geometry_cache V M) : Prop :=
  forall key v,
    cache_get key cache = Some v ->
    exists model,
      modelCache key = Some model
      /\ extractGeometryAndMaterials vadd nan merge_throws translate_throws
           white_material model = Ok (Some v).

Lemma cache_get_set (key key' : string) (v : @geometry V * M)
    (cache : @geometry_cache V M) :
  cache_get key' (cache_set key v cache)
  = match cache_get key' cache with
    | Some v' => Some v'
    | None => if String.eqb key key' then Some v else None
    end.
Proof.
  unfold cache_set. induction cache as [|[k w] cache IH]; simpl.
  - reflexivity.
  - destruct (String.eqb k key'); [reflexivity | exact IH].
Qed.

Lemma render_entry_meshes (entry : string * block_group)
    (scene : list (@mesh V M)) (cache : @geometry_cache V M) :
  cache_consistent cache ->
  match entry_meshes entry with
  | Ok meshes =>
      exists cache',
        render_entry vadd of_int one_half nan merge_throws translate_throws
          white_material modelCache entry (scene, cache)
        = Ok ((scene ++ meshes)%list, cache')
        /\ cache_consistent cache'
  | Throw msg =>
      render_entry vadd of_int one_half nan merge_throws translate_throws
        white_material modelCache entry (scene, cache) = Throw msg
  end.
Proof.
  intros Hcache. destruct entry as [blockKey blockData].
  unfold entry_meshes, render_entry. cbn [fst snd].
  destruct (modelCache blockKey) as [model|] eqn:Hmodel.
  2:{ exists cache. now rewrite app_nil_r. }
  destruct (positions blockData) as [|p ps] eqn:Hpos.
  { exists cache. now rewrite app_nil_r. }
  destruct (cache_get blockKey cache) as [[geo mat]|] eqn:Hget.
  - destruct (Hcache _ _ Hget) as (model' & Hmodel' & Hextract).
    rewrite Hmodel in Hmodel'. injection Hmodel' as <-.
    rewrite Hextract. cbn [bind fst snd].
    destruct (add_block_type vadd of_int one_half nan merge_throws
                translate_throws geo mat (group_properties blockData)
                (group_cells blockData)) as [meshes|msg];
      cbn [bind]; [now exists cache | reflexivity].
  - destruct (extractGeometryAndMaterials vadd nan merge_throws
                translate_throws white_material model)
      as [[[geo mat]|]|msg] eqn:Hextract; cbn [bind fst snd].
    + assert (Hcache' : cache_consistent (cache_set blockKey (geo, mat) cache)).
      { intros key v Hv. rewrite cache_get_set in Hv.
        destruct (cache_get key cache) as [v'|] eqn:Hold.
        - injection Hv as <-. now apply Hcache.
        - destruct (String.eqb_spec blockKey key) as [<-|_];
            [|discriminate Hv].
          injection Hv as <-. now exists model. }
      destruct (add_block_type vadd of_int one_half nan merge_throws
                  translate_throws geo mat (group_properties blockData)
                  (group_cells blockData)) as [meshes|msg];
        cbn [bind]; [eexists; split; [reflexivity | exact Hcache']
                    | reflexivity].
    + exists cache. now rewrite app_nil_r.
    + reflexivity.
Qed.

Lemma render_chunk_meshes (entries : blockMap) :
  forall (scene : list (@mesh V M)) (cache : @geometry_cache V M),
    cache_consistent cache ->
    match map_result entry_meshes entries with
    | Ok per_type =>
        exists cache',
          render_chunk vadd of_int one_half nan merge_throws translate_throws
            white_material modelCache entries (scene, cache)
          = Ok ((scene ++ List.concat per_type)%list, cache')
    | Throw msg =>
        render_chunk vadd of_int one_half nan merge_throws translate_throws
          white_material modelCache entries (scene, cache) = Throw msg
    end.
Proof.
  induction entries as [|entry entries IH]; intros scene cache Hcache.
  - exists cache. simpl. now rewrite app_nil_r.
  - cbn [map_result render_chunk].
    pose proof (render_entry_meshes entry scene cache Hcache) as Hentry.
    destruct (entry_meshes entry) as [meshes|msg]; cbn [bind].
    + destruct Hentry as (cache1 & -> & Hcache1). cbn [bind].
      specialize (IH (scene ++ meshes)%list cache1 Hcache1).
      destruct (map_result entry_meshes entries) as [per_type|msg];
        cbn [bind].
      * destruct IH as [cache' ->]. exists cache'.
        cbn [List.concat]. now rewrite app_assoc.
      * exact IH.
    + now rewrite Hentry.
Qed.

(** X22.  The scene that step 3 builds is the meshes of each block type
    one after the other, in the order of [blockMap]: a block type whose
    model did not load, which has no position, or whose model yields no
    geometry adds nothing, and the first exception of a block type is the
    exception of the step.  The geometry and material caches and the
    chunking never change the outcome. *)
Theorem scene_is_built_type_by_type (blockEntries : blockMap) :
  render_step3 vadd of_int one_half nan merge_throws translate_throws
    white_material modelCache blockEntries
  = (per_type <- map_result entry_meshes blockEntries ;;
     Ok (List.concat per_type)).
Proof.
  unfold render_step3.
  rewrite (chunk_loop_is_one_pass CHUNK_SIZE blockEntries);
    [| unfold CHUNK_SIZE; lia | simpl; lia].
  cbn [skipn].
  assert (Hempty : cache_consistent []) by (intros key v H; discriminate H).
  pose proof (render_chunk_meshes blockEntries [] [] Hempty) as Hrun.
  destruct (map_result entry_meshes blockEntries) as [per_type|msg];
    cbn [bind].
  - destruct Hrun as [cache' Hrun].
    exact (f_equal (fun r => st <- r ;; Ok (fst st)) Hrun).
  - exact (f_equal (fun r => st <- r ;; Ok (fst st)) Hrun).
Qed.

(** ** Extraction from a model *)

(** The position values that a geometry after the first contributes: moved
    by the position of the first direct child of the model that holds the
    same geometry object, or as they are when no direct child does. *)
Definition placed_by_child (model : object3d V M) (g : nat * @geometry V)
  : list V :=
  match find_child model (fst g) with
  | Some c =>
      translate_values vadd (vx (object_position c)) (vy (object_position c))
                       (vz (object_position c)) (values (position (snd g)))
  | None => values (position (snd g))
  end.

Lemma merge_children_all (model : object3d V M)
    (rest : list (nat * @geometry V)) :
  (forall g, translate_throws g = false) ->
  (forall g1 g2, merge_throws g1 g2 = false) ->
  Forall (fun g => well_formed (snd g)) rest ->
  forall merged,
    well_formed merged ->
    exists out,
      merge_children vadd nan merge_throws translate_throws model merged rest
      = Ok out
      /\ well_formed out
      /\ values (position out)
         = (values (position merged)
            ++ flat_map (placed_by_child model) rest)%list
      /\ vertex_count (position out)
         = (vertex_count (position merged)
            + list_sum (map (fun g => vertex_count (position (snd g))) rest))%nat.
Proof.
  intros Htrans Hmerge Hwf.
  induction rest as [|g rest IH]; intros merged Hmerged.
  - exists merged. cbn [merge_children flat_map].
    rewrite app_nil_r.
    split; [reflexivity | split; [exact Hmerged | split; [reflexivity|]]].
    simpl. lia.
  - inversion Hwf as [|? ? Hg Hwf']; subst.
    assert (Hstep : exists g',
               merge_child vadd nan merge_throws translate_throws model merged g
               = Ok (mergeTwoGeometries nan merge_throws merged g')
               /\ well_formed g'
               /\ values (position g') = placed_by_child model g
               /\ vertex_count (position g') = vertex_count (position (snd g))).
    { unfold merge_child, placed_by_child.
      destruct (find_child model (fst g)) as [c|].
      - destruct (translateGeometry_ok vadd nan translate_throws (snd g)
                    (vx (object_position c)) (vy (object_position c))
                    (vz (object_position c)) (Htrans _) Hg)
          as (g' & Hrun & Hwg & Hvalues & Hcount & _).
        exists g'. rewrite Hrun.
        split; [reflexivity | split; [exact Hwg | split; assumption]].
      - exists (snd g).
        split; [reflexivity | split; [exact Hg | split; reflexivity]]. }
    destruct Hstep as (g' & Hrun & Hwg & Hvalues & Hcount).
    destruct (merged_positions nan merge_throws merged g'
                (Hmerge _ _) Hmerged Hwg) as [Hpos Hsum].
    destruct (IH Hwf' (mergeTwoGeometries nan merge_throws merged g')
                (proj1 (mergeTwoGeometries_well_formed nan merge_throws
                          merged g' Hmerged Hwg)))
      as (out & Hout & Hwo & Hvo & Hco).
    exists out. cbn [merge_children]. rewrite Hrun. cbn [bind].
    split; [exact Hout|]. split; [exact Hwo|]. split.
    + rewrite Hvo, Hpos. cbn [values array flat_map].
      now rewrite Hvalues, <- app_assoc.
    + rewrite Hco, Hsum, Hcount. simpl. lia.
Qed.

(** X23.  What [extractGeometryAndMaterials] returns when no three.js
    call throws and the geometries of the model's meshes are well formed.
    A model without any mesh that holds a geometry yields no geometry.
    Otherwise the geometry holds the vertices of every such mesh, in
    traversal order: the first mesh's geometry as it is, not moved by its
    mesh's position (and returned itself when it is the only one), each
    later one moved by the position of the first direct child of the
    model that holds the same geometry object, and not moved when the
    mesh lies deeper in the model.  The material is the first material
    met, or the white default. *)
Theorem extracted_geometry_holds_every_mesh (model : object3d V M) :
  (forall g, translate_throws g = false) ->
  (forall g1 g2, merge_throws g1 g2 = false) ->
  Forall (fun g => well_formed (snd g))
         (flat_map pushed_geometry (traverse model)) ->
  match flat_map pushed_geometry (traverse model) with
  | [] =>
      extractGeometryAndMaterials vadd nan merge_throws translate_throws
        white_material model = Ok None
  | first :: rest =>
      exists merged,
        extractGeometryAndMaterials vadd nan merge_throws translate_throws
          white_material model
        = Ok (Some (merged,
                    hd white_material
                       (flat_map pushed_materials (traverse model))))
        /\ values (position merged)
           = (values (position (snd first))
              ++ flat_map (placed_by_child model) rest)%list
        /\ vertex_count (position merged)
           = list_sum (map (fun g => vertex_count (position (snd g)))
                           (first :: rest))
        /\ (rest = [] -> merged = snd first)
  end.
Proof.
  intros Htrans Hmerge Hwf. unfold extractGeometryAndMaterials. cbv zeta.
  destruct (flat_map pushed_geometry (traverse model)) as [|first rest];
    [reflexivity|].
  inversion Hwf as [|? ? Hfirst Hrest]; subst.
  destruct (merge_children_all model rest Htrans Hmerge Hrest (snd first) Hfirst)
    as (out & Hrun & _ & Hvalues & Hcount).
  exists out. rewrite Hrun. cbn [bind].
  split; [|split; [exact Hvalues | split; [exact Hcount|]]].
  - reflexivity.
  - intros ->. cbn [merge_children] in Hrun. now injection Hrun as <-.
Qed.

End ModelProperties.

(** A model for the examples: a group holding two meshes, placed at
    [(5, 0, 0)] and [(0, 1, 0)], and a nested group with a third mesh. *)
Definition at_position (x y z : Z) : @vec3 scalar :=
  Vec3 (scalar_of_int x) (scalar_of_int y) (scalar_of_int z).

Definition demo_model : object3d scalar string :=
  Object3D false None NoMaterial (at_position 0 0 0)
    [Object3D true (Some (1%nat, unit_triangle)) (OneMaterial "bark")
       (at_position 5 0 0) [];
     Object3D true (Some (2%nat, lit_triangle)) (MaterialArray ["top"; "side"])
       (at_position 0 1 0) [];
     Object3D false None NoMaterial (at_position 0 0 0)
       [Object3D true (Some (3%nat, unit_triangle)) NoMaterial
          (at_position 9 9 9) []]].

Definition demo_models (key : string) : option (object3d scalar string) :=
  if String.eqb key "stone_[]" then Some demo_model else None.

Lemma extracted_geometry_holds_every_mesh_witness :
  exists merged,
    extractGeometryAndMaterials scalar_add None never2 never1 "white"
      demo_model = Ok (Some (merged, "bark"))
    /\ vertex_count (position merged) = 9%nat
    /\ values (position merged)
       = map scalar_of_int
           [0; 0; 0;  1; 0; 0;  0; 1; 0;
            0; 1; 0;  1; 1; 0;  0; 2; 0;
            0; 0; 0;  1; 0; 0;  0; 1; 0].
Proof.
  assert (Hwf : Forall (fun g : nat * @geometry scalar => well_formed (snd g))
                       (flat_map pushed_geometry (traverse demo_model))).
  { repeat (constructor;
            [first [exact (triangle_well_formed _ _ _)
                   | exact lit_triangle_well_formed]|]).
    constructor. }
  destruct (extracted_geometry_holds_every_mesh scalar_add None never2 never1
              "white" demo_model (fun _ => eq_refl) (fun _ _ => eq_refl) Hwf)
    as (merged & Hrun & Hvalues & Hcount & _).
  exists merged. split; [exact Hrun|]. split; [exact Hcount | exact Hvalues].
Defined.

Lemma chunking_is_one_pass_witness :
  chunk_loop scalar_add scalar_of_int scalar_half None never2 never1
    "white" demo_models 2 2 0 demo_groups ([], [])
  = render_chunk scalar_add scalar_of_int scalar_half None never2 never1
      "white" demo_models demo_groups ([], []).
Proof.
  refine (proj1 (chunking_is_one_pass scalar_add scalar_of_int scalar_half
                   None never2 never1 "white" demo_models 2 demo_groups
                   ([], []) _)).
  lia.
Defined.

(** The scene of the example: the stone group has two cells and no
    rotation, so it gets one mesh per cell, each with the nine vertices
    of the model; the dirt group has no model and adds nothing. *)
Example demo_scene :
  option_map (map mesh_vertices)
    (match render_step3 scalar_add scalar_of_int scalar_half None never2
             never1 "white" demo_models demo_groups with
     | Ok scene => Some scene
     | Throw _ => None
     end)
  = Some [9; 9]%nat.
Proof. reflexivity. Qed.
